(** * rhacs-image-versions: CVE reports by image and by node

    A shallow embedding of [generate-cves-by-image.py] and
    [generate-cves-by-nodes.py], and the properties of the cluster-label
    parser, the UBI metadata resolver, the CVE aggregation and the report
    writers that follow from the code.

    Conventions of the embedding.
    - A Python [str] is a [string]; a character is a code point below 256.
    - A value decoded by [json.loads] is a [json]; Python's [None] is
      [JNull].  Numbers are rationals (the non-standard [NaN] and
      [Infinity] literals are outside the model): a number of denominator 1
      is an [int], any other number a [float], so that the float 1.0 is
      10/10; the two compare by value.  The decimal text produced by float
      formatting is not computed, a formatted cell keeps the format and its
      operand.
    - A Python [dict] is an association list in insertion order.
    - Exceptions are the constructors of [exn]; every one of them derives
      from [Exception].
    - Effects (HTTP requests, console output, the output file, the mutable
      locals of [main]) are threaded through a state-and-exception monad.
    - The output file can be opened and written: the errors of the file
      system and of the encoding of a row are outside the model. *)

From Stdlib Require Import List String Ascii Bool Arith ZArith QArith Lia.
From Stdlib Require Import Sorted Permutation OrderedTypeEx.
Import ListNotations.
Local Close Scope Q_scope.
Local Open Scope string_scope.
Local Open Scope list_scope.

(* ================================================================== *)
(** ** Characters and strings *)

Module Chars.

Definition code (c : ascii) : nat := nat_of_ascii c.

Definition between (lo hi n : nat) : bool := Nat.leb lo n && Nat.leb n hi.

(** [str.isalnum] on one code point below 256: ASCII digits and letters,
    and the Latin-1 letters and numeric characters. *)
Definition is_alnum (c : ascii) : bool :=
  let n := code c in
  between 48 57 n || between 65 90 n || between 97 122 n
  || (Nat.eqb n 170) || (Nat.eqb n 178) || (Nat.eqb n 179) || (Nat.eqb n 181) || (Nat.eqb n 185)
  || (Nat.eqb n 186) || between 188 190 n
  || between 192 214 n || between 216 246 n || between 248 255 n.

Definition underscore : ascii := "_"%char.
Definition newline : ascii := "010"%char.

(** [\w] *)
Definition is_word (c : ascii) : bool := is_alnum c || Ascii.eqb c underscore.

(** [[^\W_]]: a word character that is not the underscore. *)
Definition word_no_underscore (c : ascii) : bool :=
  negb (negb (is_word c) || Ascii.eqb c underscore).

(** [[\W_]]: a non-word character, or the underscore. *)
Definition nonword_or_underscore (c : ascii) : bool :=
  negb (is_word c) || Ascii.eqb c underscore.

(** [.] without DOTALL *)
Definition dot (c : ascii) : bool := negb (Ascii.eqb c newline).

(** [\d]: the decimal digits below code point 256 *)
Definition digit (c : ascii) : bool := between 48 57 (code c).

(** [[\d.]] *)
Definition digit_or_dot (c : ascii) : bool := digit c || Ascii.eqb c "."%char.

(** [[^/]] *)
Definition not_slash (c : ascii) : bool := negb (Ascii.eqb c "/"%char).

End Chars.

Module Str.

(** [s.startswith(p)] *)
Definition startswith (s p : string) : bool := String.prefix p s.

(** [p in s] for two strings *)
Fixpoint contains (p s : string) : bool :=
  String.prefix p s ||
  match s with
  | EmptyString => false
  | String _ s' => contains p s'
  end.

Definition all (p : ascii -> bool) (s : string) : bool :=
  forallb p (list_ascii_of_string s).

Definition head_satisfies (p : ascii -> bool) (s : string) : bool :=
  match s with
  | EmptyString => false
  | String c _ => p c
  end.

(** The text between two suffixes of one string: what was consumed on the
    way from [from] to its suffix [to]. *)
Fixpoint take (n : nat) (s : string) : string :=
  match n, s with
  | S n', String c s' => String c (take n' s')
  | _, _ => EmptyString
  end.

Definition consumed (from to : string) : string :=
  take (String.length from - String.length to) from.

(** The characters of a string, each as a string of length one: what
    iterating over a [str] yields. *)
Fixpoint chars (s : string) : list string :=
  match s with
  | EmptyString => []
  | String c s' => String c EmptyString :: chars s'
  end.

End Str.

(* ================================================================== *)
(** ** Regular expressions: a backtracking matcher in the manner of [re]

    The fragment the two patterns of the program use: literals, character
    classes, greedy repetition of a class, sequence, greedy option,
    capturing groups and [$]. *)

Module Re.

Inductive regex : Type :=
| Eps
| Chr (c : ascii)
| Cls (p : ascii -> bool)
| Star (p : ascii -> bool)
| Plus (p : ascii -> bool)
| Seq (r1 r2 : regex)
| Opt (r : regex)
| Grp (n : nat) (r : regex)
| Eos.

(** The groups that took part in a match, most recent first. *)
Definition captures := list (nat * string).

Definition cont := string -> captures -> option captures.

(** Greedy [p*]: take as many characters as possible, give one back at a
    time while the rest of the pattern fails. *)
Fixpoint star_k (p : ascii -> bool) (k : string -> option captures) (s : string)
  : option captures :=
  match s with
  | String c s' =>
      if p c then
        match star_k p k s' with
        | Some m => Some m
        | None => k s
        end
      else k s
  | EmptyString => k s
  end.

Fixpoint match_re (r : regex) (s : string) (caps : captures) (k : cont)
  : option captures :=
  match r with
  | Eps => k s caps
  | Chr c =>
      match s with
      | String c' s' => if Ascii.eqb c c' then k s' caps else None
      | EmptyString => None
      end
  | Cls p =>
      match s with
      | String c' s' => if p c' then k s' caps else None
      | EmptyString => None
      end
  | Star p => star_k p (fun s' => k s' caps) s
  | Plus p =>
      match s with
      | String c' s' => if p c' then star_k p (fun s'' => k s'' caps) s' else None
      | EmptyString => None
      end
  | Seq r1 r2 => match_re r1 s caps (fun s' caps' => match_re r2 s' caps' k)
  | Opt r =>
      match match_re r s caps k with
      | Some m => Some m
      | None => k s caps
      end
  | Grp n r => match_re r s caps (fun s' caps' => k s' ((n, Str.consumed s s') :: caps'))
  | Eos =>
      (* the end of the string, or just before a newline that ends it *)
      match s with
      | EmptyString => k s caps
      | String c EmptyString => if Ascii.eqb c Chars.newline then k s caps else None
      | _ => None
      end
  end.

Definition match_here (r : regex) (s : string) : option captures :=
  match_re r s [] (fun _ caps => Some caps).

(** [re.search]: the match at the leftmost position that has one. *)
Fixpoint search (r : regex) (s : string) : option captures :=
  match match_here r s with
  | Some m => Some m
  | None =>
      match s with
      | String _ s' => search r s'
      | EmptyString => None
      end
  end.

(** [m.group(n)]: [None] for a group that did not take part. *)
Fixpoint group (m : captures) (n : nat) : option string :=
  match m with
  | [] => None
  | (i, s) :: m' => if Nat.eqb i n then Some s else group m' n
  end.

(** A literal string. *)
Fixpoint lit (s : string) : regex :=
  match s with
  | EmptyString => Eps
  | String c s' => Seq (Chr c) (lit s')
  end.

End Re.

Import Re.

(** The cluster pattern of both programs: a run of word characters other
    than the underscore (group 1); then, optionally, a run of separators and
    a second such run of word characters (group 2); then, optionally inside
    that option, a run of separators and the rest of the line (group 3);
    then [$]. *)
Definition CLUSTER_INFO_REGEX : regex :=
  Seq (Grp 1 (Plus Chars.word_no_underscore))
 (Seq (Opt (Seq (Plus Chars.nonword_or_underscore)
           (Seq (Grp 2 (Plus Chars.word_no_underscore))
                (Opt (Seq (Plus Chars.nonword_or_underscore)
                          (Grp 3 (Star Chars.dot)))))))
      Eos).

(** The UBI pattern: [https://], one or more characters, a slash, the name
    (group 1, no slash in it), [/images/], the version (group 2: a digit,
    then digits and dots), a hyphen, the release (group 3, like the
    version). *)
Definition UBI_REGEX : regex :=
  Seq (lit "https://")
 (Seq (Plus Chars.dot)
 (Seq (Chr "/")
 (Seq (Grp 1 (Plus Chars.not_slash))
 (Seq (lit "/images/")
 (Seq (Grp 2 (Seq (Cls Chars.digit) (Star Chars.digit_or_dot)))
 (Seq (Chr "-")
      (Grp 3 (Seq (Cls Chars.digit) (Star Chars.digit_or_dot))))))))).

(* ================================================================== *)
(** ** Values decoded from JSON, and the Python operations on them *)

Inductive exn : Type :=
| KeyError
| TypeError
| AttributeError
| ValueError
| UnboundLocalError
| JSONDecodeError
| URLError
| OverflowError.

Inductive result (A : Type) : Type :=
| Ok (a : A)
| Raise (e : exn).
Arguments Ok {A} a.
Arguments Raise {A} e.

Module Json.

#[local] Set Warnings "-register-all".

Inductive json : Type :=
| JNull
| JBool (b : bool)
| JNum (q : Q)
| JStr (s : string)
| JArr (l : list json)
| JObj (kv : list (string * json)).

Fixpoint assoc {V : Type} (k : string) (kv : list (string * V)) : option V :=
  match kv with
  | [] => None
  | (k', v) :: kv' => if String.eqb k' k then Some v else assoc k kv'
  end.

Definition bool_num (b : bool) : Q := if b then 1%Q else 0%Q.

(** Python's [==] on decoded values: a [bool] is an [int], numbers compare
    by value, lists element by element, dicts key by key whatever the
    order of the keys. *)
Fixpoint eqb (a b : json) {struct a} : bool :=
  match a, b with
  | JNull, JNull => true
  | JBool x, JBool y => Bool.eqb x y
  | JBool x, JNum q => Qeq_bool (bool_num x) q
  | JNum p, JBool y => Qeq_bool p (bool_num y)
  | JNum p, JNum q => Qeq_bool p q
  | JStr s, JStr t => String.eqb s t
  | JArr l, JArr m =>
      (fix go (l m : list json) {struct l} : bool :=
         match l, m with
         | [], [] => true
         | x :: l', y :: m' => eqb x y && go l' m'
         | _, _ => false
         end) l m
  | JObj kv, JObj kw =>
      Nat.eqb (List.length kv) (List.length kw) &&
      (fix go (kv : list (string * json)) {struct kv} : bool :=
         match kv with
         | [] => true
         | (k, v) :: kv' =>
             match assoc k kw with
             | Some w => eqb v w
             | None => false
             end && go kv'
         end) kv
  | _, _ => false
  end.

(** [x in l] for a list [l]. *)
Definition mem (x : json) (l : list json) : bool :=
  existsb (fun y => eqb y x) l.

(** Lists and dicts cannot be hashed. *)
Definition hashable (j : json) : bool :=
  match j with
  | JArr _ | JObj _ => false
  | _ => true
  end.

(** [bool(j)] *)
Definition truthy (j : json) : bool :=
  match j with
  | JNull => false
  | JBool b => b
  | JNum q => negb (Qeq_bool q 0)
  | JStr s => negb (String.eqb s "")
  | JArr l => match l with [] => false | _ => true end
  | JObj kv => match kv with [] => false | _ => true end
  end.

Definition is_none (j : json) : bool :=
  match j with JNull => true | _ => false end.

(** [j[k]] for a string key [k]. *)
Definition getitem (j : json) (k : string) : result json :=
  match j with
  | JObj kv =>
      match assoc k kv with
      | Some v => Ok v
      | None => Raise KeyError
      end
  | _ => Raise TypeError
  end.

(** [for x in j]: the elements of a list, the keys of a dict, the
    characters of a string. *)
Definition iter (j : json) : result (list json) :=
  match j with
  | JArr l => Ok l
  | JObj kv => Ok (map (fun p => JStr (fst p)) kv)
  | JStr s => Ok (map JStr (Str.chars s))
  | _ => Raise TypeError
  end.

(** [len(j)] *)
Definition len (j : json) : result nat :=
  match j with
  | JArr l => Ok (List.length l)
  | JObj kv => Ok (List.length kv)
  | JStr s => Ok (String.length s)
  | _ => Raise TypeError
  end.

(** [j.startswith(p)] *)
Definition startswith (j : json) (p : string) : result bool :=
  match j with
  | JStr s => Ok (Str.startswith s p)
  | _ => Raise AttributeError
  end.

(** [k in j] for a string [k]. *)
Definition contains (k : string) (j : json) : result bool :=
  match j with
  | JStr s => Ok (Str.contains k s)
  | JArr l => Ok (mem (JStr k) l)
  | JObj kv => Ok (match assoc k kv with Some _ => true | None => false end)
  | _ => Raise TypeError
  end.

(** [prefix + j] for a string [prefix]. *)
Definition concat (prefix : string) (j : json) : result string :=
  match j with
  | JStr s => Ok (String.append prefix s)
  | _ => Raise TypeError
  end.

(** [re.search(r, j)] *)
Definition re_search (r : regex) (j : json) : result (option captures) :=
  match j with
  | JStr s => Ok (Re.search r s)
  | _ => Raise TypeError
  end.

(** [sep.join(l)] *)
Fixpoint strings (l : list json) : result (list string) :=
  match l with
  | [] => Ok []
  | JStr s :: l' =>
      match strings l' with
      | Ok r => Ok (s :: r)
      | Raise e => Raise e
      end
  | _ :: _ => Raise TypeError
  end.

Definition join (sep : string) (l : list json) : result string :=
  match strings l with
  | Ok r => Ok (String.concat sep r)
  | Raise e => Raise e
  end.

End Json.

Import Json.

(* ================================================================== *)
(** ** Dictionaries: association lists in insertion order *)

Module Dict.

Definition dict (V : Type) := list (json * V).

(** [d[k]], [None] standing for the absent key. *)
Fixpoint get {V : Type} (k : json) (d : dict V) : option V :=
  match d with
  | [] => None
  | (k', v) :: d' => if Json.eqb k' k then Some v else get k d'
  end.

Definition mem {V : Type} (k : json) (d : dict V) : bool :=
  match get k d with Some _ => true | None => false end.

(** [d[k] = v]: the value of a present key is replaced where it stands, a
    new key goes to the end. *)
Fixpoint set {V : Type} (k : json) (v : V) (d : dict V) : dict V :=
  match d with
  | [] => [(k, v)]
  | (k', v') :: d' =>
      if Json.eqb k' k then (k', v) :: d' else (k', v') :: set k v d'
  end.

Definition keys {V : Type} (d : dict V) : list json := map fst d.

End Dict.

(* ================================================================== *)
(** ** State and exceptions *)

Module Monad.

Definition M (S A : Type) : Type := S -> result A * S.

Definition ret {S A : Type} (a : A) : M S A := fun s => (Ok a, s).

Definition raise {S A : Type} (e : exn) : M S A := fun s => (Raise e, s).

Definition bind {S A B : Type} (m : M S A) (k : A -> M S B) : M S B :=
  fun s =>
    match m s with
    | (Ok a, s') => k a s'
    | (Raise e, s') => (Raise e, s')
    end.

(** The value or the exception of a pure computation. *)
Definition pure {S A : Type} (r : result A) : M S A := fun s => (r, s).

Definition get {S : Type} : M S S := fun s => (Ok s, s).

Definition modify {S : Type} (f : S -> S) : M S unit := fun s => (Ok tt, f s).

(** [try: m except Exception as ex: h ex] *)
Definition try_except {S A : Type} (m : M S A) (h : exn -> M S A) : M S A :=
  fun s =>
    match m s with
    | (Ok a, s') => (Ok a, s')
    | (Raise e, s') => h e s'
    end.

(** [try: m finally: f]: [f] runs whatever [m] did; an exception of [f]
    replaces that of [m]. *)
Definition try_finally {S A : Type} (m : M S A) (f : M S unit) : M S A :=
  fun s =>
    match m s with
    | (r, s') =>
        match f s' with
        | (Ok _, s'') => (r, s'')
        | (Raise e, s'') => (Raise e, s'')
        end
    end.

(** [for x in l: body x] *)
Fixpoint for_each {S X : Type} (l : list X) (body : X -> M S unit) : M S unit :=
  match l with
  | [] => ret tt
  | x :: l' => bind (body x) (fun _ => for_each l' body)
  end.

(** A computation on a part of the state. *)
Definition zoom {S T A : Type} (proj : S -> T) (inj : T -> S -> S) (m : M T A) : M S A :=
  fun s => let (r, t) := m (proj s) in (r, inj t s).

End Monad.

Import Monad.

Declare Scope monad_scope.
Delimit Scope monad_scope with monad.
Notation "x <- m ;; k" := (bind m (fun x => k))
  (at level 61, m at next level, right associativity) : monad_scope.
Notation "m ;; k" := (bind m (fun _ => k))
  (at level 61, right associativity) : monad_scope.
Local Open Scope monad_scope.

(* ================================================================== *)
(** ** What both programs share: the server, the console, the output file *)

Inductive request : Type :=
| Get (path : string)
| GraphQl (operationName : string) (clusterId nodeId : json).

(** What [urlopen] and [json.loads] make of one request: [urlopen] raises,
    or there is a response with a status and a body that decodes or not. *)
Inductive reply : Type :=
| Fails
| Status (code : nat) (body : option json).

(** The server answers a request knowing the requests made before it. *)
Definition server : Type := list request -> request -> reply.

(** A cell of the CSV file.  [Fixed d x] is [x] formatted with [d] decimals,
    [Percent x] is [x*100] formatted with none and a percent sign. *)
Inductive cell : Type :=
| Text (s : string)
| Value (j : json)
| Fixed (digits : nat) (x : json)
| Percent (x : json).

Definition row : Type := list cell.

(** The lines printed, by the statement that prints them. *)
Inductive event : Type :=
| PrintHttpError (code : nat) (req : request)
| PrintInspectingDeployment (index count : nat) (clusterName : string)
    (namespace deploymentName : json)
| PrintImageError (imageFullName : json) (e : exn)
| PrintNotCompletingDeployment (clusterName : string) (namespace deploymentName : json)
    (e : exn)
| PrintInspectingCluster (clusterName : json)
| PrintInspectingNode (index count : nat) (clusterName nodeName : json)
| PrintNotCompletingNode (clusterName nodeName : json) (e : exn)
| PrintSuccess.

Record world : Type := {
  calls : list request;
  console : list event;
  file : option (list row)    (* [None]: no file at the output path *)
}.

Definition world0 : world := {| calls := []; console := []; file := None |}.

Definition VULNERABILITY_SEVERITY : list (string * string) :=
  [ ("CRITICAL_VULNERABILITY_SEVERITY", "Critical");
    ("IMPORTANT_VULNERABILITY_SEVERITY", "Important");
    ("MODERATE_VULNERABILITY_SEVERITY", "Moderate");
    ("LOW_VULNERABILITY_SEVERITY", "Low");
    ("UNKNOWN_VULNERABILITY_SEVERITY", "Unknown") ].

Module World.

Definition print (e : event) : M world unit :=
  modify (fun w => {| calls := calls w; console := console w ++ [e]; file := file w |}).

(** [open(csvFileName, "w")]: the file is created or emptied. *)
Definition open_file : M world unit :=
  modify (fun w => {| calls := calls w; console := console w; file := Some [] |}).

(** [writer.writerow(r)] *)
Definition writerow (r : row) : M world unit :=
  modify (fun w => {| calls := calls w; console := console w;
                      file := match file w with
                              | Some rows => Some (rows ++ [r])
                              | None => None
                              end |}).

(** The body of [getJsonFromRhacsApi] and of [getJsonFromRhacsGraphQl]:
    a status other than 200 is printed and gives [None]. *)
Definition send (api : server) (req : request) : M world json :=
  fun w =>
    let w' := {| calls := calls w ++ [req]; console := console w; file := file w |} in
    match api (calls w) req with
    | Fails => (Raise URLError, w')
    | Status code body =>
        if Nat.eqb code 200 then
          match body with
          | Some j => (Ok j, w')
          | None => (Raise JSONDecodeError, w')
          end
        else (Ok JNull, snd (print (PrintHttpError code req) w'))
    end.

(** The try block around the severity table: any failure leaves [""]. *)
Definition severity_of (cve : json) : string :=
  match getitem cve "severity" with
  | Ok (JStr s) =>
      match Json.assoc s VULNERABILITY_SEVERITY with
      | Some t => t
      | None => ""
      end
  | _ => ""
  end.

(** The format [f] converts an [int] to a [float] first, and the conversion
    raises [OverflowError] from 2^1024 - 2^970 on, the first integer that
    does not round to a float; a [float] is formatted whatever it is. *)
Definition float_limit : Z := (2 ^ 1024 - 2 ^ 970)%Z.

Definition is_int (q : Q) : bool := Pos.eqb (Qden q) 1.

Definition converts (n : Z) : bool := Z.ltb (Z.abs n) float_limit.

(** ["{0:.Nf}".format(x)] *)
Definition format_fixed (digits : nat) (x : json) : result cell :=
  match x with
  | JNum q =>
      if is_int q && negb (converts (Qnum q)) then Raise OverflowError
      else Ok (Fixed digits x)
  | JBool _ => Ok (Fixed digits x)
  | JStr _ => Raise ValueError
  | _ => Raise TypeError
  end.

(** ["{0:.0f}%".format(x*100)]: the product of an [int] is an [int], that
    of a string a string. *)
Definition format_percent (x : json) : result cell :=
  match x with
  | JNum q =>
      if is_int q && negb (converts (Qnum q * 100)) then Raise OverflowError
      else Ok (Percent x)
  | JBool _ => Ok (Percent x)
  | JStr _ => Raise ValueError
  | _ => Raise TypeError
  end.

End World.

(* ================================================================== *)
(** ** generate-cves-by-image.py *)

Module ImagePipeline.

Definition dq : string := String (ascii_of_nat 34) EmptyString.

Definition UBI_IDENTIFIER_IN_LABEL : string :=
  String.append dq (String.append "url" (String.append dq (String.append "="
    (String.append dq
       "https://access.redhat.com/containers/#/registry.access.redhat.com/ubi")))).
Definition OS_ID_RHEL : string := "rhel".
Definition UBI_PREFIX : string := "ubi".
Definition CSV_HEADER : row :=
  map Text
    [ "Cluster Name"; "Environment"; "Cluster Descriptor"; "CVE"; "Fixable";
      "Severity"; "CVSS"; "Impact Score"; "Namespaces"; "Images";
      "Published On"; "Discovered On"; "Link"; "Summary" ].
Definition IS_INCLUDE_OPENSHIFT_NAMESPACE : bool := false.

Record CveDetail : Type := {
  cve : json;
  namespaces : list json;
  images : list json
}.

Definition new_CveDetail : CveDetail :=
  {| cve := JObj []; namespaces := []; images := [] |}.

Record ClusterDetail : Type := {
  clusterId : json;
  clusterName : string;
  clusterEnvironment : string;
  clusterDescriptor : string;
  cveDetails : Dict.dict CveDetail
}.

Definition new_ClusterDetail : ClusterDetail :=
  {| clusterId := JStr ""; clusterName := ""; clusterEnvironment := "";
     clusterDescriptor := ""; cveDetails := [] |}.

Definition set_clusterId (key : json) (c : ClusterDetail) : ClusterDetail :=
  {| clusterId := key; clusterName := clusterName c;
     clusterEnvironment := clusterEnvironment c;
     clusterDescriptor := clusterDescriptor c; cveDetails := cveDetails c |}.

Definition set_label (name environment descriptor : string) (c : ClusterDetail)
  : ClusterDetail :=
  {| clusterId := clusterId c; clusterName := name;
     clusterEnvironment := environment;
     clusterDescriptor := descriptor; cveDetails := cveDetails c |}.

(** A local that holds a decoded value, an exception or the type of one. *)
Inductive pyobj : Type :=
| Obj (j : json)
| ExnObj (e : exn)
| ExnType (e : exn).

(** The per-image locals of [main]. *)
Record image_vars : Type := {
  createdOn : json;
  os : pyobj;
  ubiName : pyobj;
  ubiVersion : json;
  ubiRelease : json
}.

Definition image_vars0 : image_vars :=
  {| createdOn := JStr ""; os := Obj (JStr ""); ubiName := Obj (JStr "");
     ubiVersion := JStr ""; ubiRelease := JStr "" |}.

(** The state of [main]: the world and the locals that live across
    statements.  [var_clusterName] is [None] while the local is unbound. *)
Record state : Type := {
  the_world : world;
  cvesByCluster : Dict.dict ClusterDetail;
  var_clusterName : option string;
  var_responseJson : json;
  currentDeploymentIndex : nat;
  vars : image_vars
}.

Definition state0 : state :=
  {| the_world := world0; cvesByCluster := []; var_clusterName := None;
     var_responseJson := JNull; currentDeploymentIndex := 0; vars := image_vars0 |}.

Definition set_world (w : world) (s : state) : state :=
  {| the_world := w; cvesByCluster := cvesByCluster s;
     var_clusterName := var_clusterName s; var_responseJson := var_responseJson s;
     currentDeploymentIndex := currentDeploymentIndex s; vars := vars s |}.

Definition set_cvesByCluster (d : Dict.dict ClusterDetail) (s : state) : state :=
  {| the_world := the_world s; cvesByCluster := d;
     var_clusterName := var_clusterName s; var_responseJson := var_responseJson s;
     currentDeploymentIndex := currentDeploymentIndex s; vars := vars s |}.

Definition set_clusterName (n : option string) (s : state) : state :=
  {| the_world := the_world s; cvesByCluster := cvesByCluster s;
     var_clusterName := n; var_responseJson := var_responseJson s;
     currentDeploymentIndex := currentDeploymentIndex s; vars := vars s |}.

Definition set_responseJson (j : json) (s : state) : state :=
  {| the_world := the_world s; cvesByCluster := cvesByCluster s;
     var_clusterName := var_clusterName s; var_responseJson := j;
     currentDeploymentIndex := currentDeploymentIndex s; vars := vars s |}.

Definition set_index (n : nat) (s : state) : state :=
  {| the_world := the_world s; cvesByCluster := cvesByCluster s;
     var_clusterName := var_clusterName s; var_responseJson := var_responseJson s;
     currentDeploymentIndex := n; vars := vars s |}.

Definition set_vars (v : image_vars) (s : state) : state :=
  {| the_world := the_world s; cvesByCluster := cvesByCluster s;
     var_clusterName := var_clusterName s; var_responseJson := var_responseJson s;
     currentDeploymentIndex := currentDeploymentIndex s; vars := v |}.

Definition in_world {A : Type} (m : M world A) : M state A :=
  zoom the_world set_world m.

Definition in_vars {A : Type} (m : M image_vars A) : M state A :=
  zoom vars set_vars m.

(* ---------------------------------------------------------------- *)
(** *** The cluster label (lines 131 to 144) *)

(** The three locals the parse assigns. *)
Record label : Type := {
  l_name : option string;
  l_environment : string;
  l_descriptor : string
}.

Definition assign_group (m : captures) (n : nat) (f : string -> label -> label)
  : M label unit :=
  match group m n with
  | Some s => modify (f s)
  | None => ret tt
  end.

(** [clusterEnvironment] and [clusterDescriptor] start empty, [clusterName]
    keeps what it held; the try block assigns the groups that took part,
    and its bare [except] swallows whatever is raised. *)
Definition parse_cluster_info (clusterNameRaw : json) (name_before : option string)
  : label :=
  snd (try_except
         (regexResult <- pure (Json.re_search CLUSTER_INFO_REGEX clusterNameRaw) ;;
          match regexResult with
          | None => raise AttributeError
          | Some m =>
              assign_group m 1 (fun s l => {| l_name := Some s;
                   l_environment := l_environment l; l_descriptor := l_descriptor l |}) ;;
              assign_group m 2 (fun s l => {| l_name := l_name l;
                   l_environment := s; l_descriptor := l_descriptor l |}) ;;
              assign_group m 3 (fun s l => {| l_name := l_name l;
                   l_environment := l_environment l; l_descriptor := s |})
          end)
         (fun _ => ret tt)
         {| l_name := name_before; l_environment := ""; l_descriptor := "" |}).

(* ---------------------------------------------------------------- *)
(** *** UBI metadata (lines 182 to 222) *)

Definition group_value (m : captures) (n : nat) : json :=
  match group m n with
  | Some s => JStr s
  | None => JNull
  end.

Definition assign_ubi (m : captures) : M image_vars unit :=
  modify (fun v => {| createdOn := createdOn v; os := os v;
                      ubiName := Obj (group_value m 1);
                      ubiVersion := group_value m 2;
                      ubiRelease := group_value m 3 |}).

(** [hasattr(labels, "url")]: a decoded value is a dict, a list, a str, a
    number, a bool or None, and none of these types has an attribute of
    that name; the keys of a dict are not attributes. *)
Definition hasattr_url (labels : json) : bool := false.

(** [o == s] and [o.startswith(p)] for the local [ubiName]. *)
Definition obj_eq_str (o : pyobj) (s : string) : bool :=
  match o with
  | Obj j => Json.eqb j (JStr s)
  | _ => false
  end.

Definition obj_startswith (o : pyobj) (p : string) : result bool :=
  match o with
  | Obj j => Json.startswith j p
  | _ => Raise AttributeError
  end.

(** The loop over the layers, left at the first LABEL layer that carries
    the UBI marker and matches the pattern. *)
Fixpoint scan_layers (layers : list json) : M image_vars unit :=
  match layers with
  | [] => ret tt
  | layer :: rest =>
      instruction <- pure (getitem layer "instruction") ;;
      if Json.eqb instruction (JStr "LABEL") then
        value <- pure (getitem layer "value") ;;
        marked <- pure (Json.contains UBI_IDENTIFIER_IN_LABEL value) ;;
        if marked then
          regexResult <- pure (Json.re_search UBI_REGEX value) ;;
          match regexResult with
          | Some m => assign_ubi m     (* break *)
          | None => scan_layers rest
          end
        else scan_layers rest
      else scan_layers rest
  end.

Definition resolve_metadata (responseJson : json) : M image_vars unit :=
  metadata <- pure (getitem responseJson "metadata") ;;
  metadataJson <- pure (getitem metadata "v1") ;;
  created <- pure (getitem metadataJson "created") ;;
  modify (fun v => {| createdOn := created; os := os v; ubiName := ubiName v;
                      ubiVersion := ubiVersion v; ubiRelease := ubiRelease v |}) ;;
  scan <- pure (getitem responseJson "scan") ;;
  os_value <- pure (getitem scan "operatingSystem") ;;
  modify (fun v => {| createdOn := createdOn v; os := Obj os_value; ubiName := ubiName v;
                      ubiVersion := ubiVersion v; ubiRelease := ubiRelease v |}) ;;
  is_rhel <- pure (Json.startswith os_value OS_ID_RHEL) ;;
  if is_rhel then
    layers_value <- pure (getitem metadataJson "layers") ;;
    layers <- pure (Json.iter layers_value) ;;
    scan_layers layers ;;
    v <- get ;;
    (if obj_eq_str (ubiName v) "" then
       labels <- pure (getitem metadataJson "labels") ;;
       (if hasattr_url labels then
          url <- pure (getitem labels "url") ;;
          regexResult <- pure (Json.re_search UBI_REGEX url) ;;
          match regexResult with
          | Some m => assign_ubi m
          | None => ret tt
          end
        else ret tt) ;;
       v <- get ;;
       if obj_eq_str (ubiName v) "" then
         name <- pure (getitem labels "name") ;;
         modify (fun v => {| createdOn := createdOn v; os := os v; ubiName := Obj name;
                             ubiVersion := ubiVersion v; ubiRelease := ubiRelease v |}) ;;
         version <- pure (getitem labels "version") ;;
         modify (fun v => {| createdOn := createdOn v; os := os v; ubiName := ubiName v;
                             ubiVersion := version; ubiRelease := ubiRelease v |}) ;;
         release <- pure (getitem labels "release") ;;
         modify (fun v => {| createdOn := createdOn v; os := os v; ubiName := ubiName v;
                             ubiVersion := ubiVersion v; ubiRelease := release |})
       else ret tt
     else ret tt) ;;
    v <- get ;;
    is_ubi <- pure (obj_startswith (ubiName v) UBI_PREFIX) ;;
    if negb is_ubi then
      modify (fun v => {| createdOn := createdOn v; os := os v; ubiName := Obj (JStr "");
                          ubiVersion := JStr ""; ubiRelease := JStr "" |})
    else ret tt
  else ret tt.

(* ---------------------------------------------------------------- *)
(** *** CVE aggregation (lines 231 to 244) *)

(** [if x not in l: l.append(x)] *)
Definition append_if_absent (x : json) (l : list json) : list json :=
  if Json.mem x l then l else l ++ [x].

(** Lines 235 to 244 on the [cveDetails] of the current cluster. *)
Definition merge_cve (namespace imageFullName cveId cve_record : json)
    (details : Dict.dict CveDetail) : Dict.dict CveDetail :=
  let details1 :=
    if Dict.mem cveId details then details
    else Dict.set cveId new_CveDetail details in
  match Dict.get cveId details1 with
  | Some currentCveDetail =>
      Dict.set cveId
        {| cve := cve_record;
           namespaces := append_if_absent namespace (namespaces currentCveDetail);
           images := append_if_absent imageFullName (images currentCveDetail) |}
        details1
  | None => details1
  end.

(** A change of the object [currentClusterDetail] refers to, which is the
    one stored under the cluster's key. *)
Definition update_cluster (key : json) (f : ClusterDetail -> ClusterDetail)
    (d : Dict.dict ClusterDetail) : Dict.dict ClusterDetail :=
  match Dict.get key d with
  | Some detail => Dict.set key (f detail) d
  | None => d
  end.

Definition set_cveDetails (details : Dict.dict CveDetail) (c : ClusterDetail)
  : ClusterDetail :=
  {| clusterId := clusterId c; clusterName := clusterName c;
     clusterEnvironment := clusterEnvironment c;
     clusterDescriptor := clusterDescriptor c; cveDetails := details |}.

Definition merge_vulnerability (key namespace imageFullName cve_record : json)
  : M state unit :=
  cveId <- pure (getitem cve_record "cve") ;;
  (if Json.hashable cveId then ret tt else raise TypeError) ;;
  modify (fun s =>
    set_cvesByCluster
      (update_cluster key
         (fun c => set_cveDetails
                     (merge_cve namespace imageFullName cveId cve_record (cveDetails c)) c)
         (cvesByCluster s)) s).

(** The [finally] block: the CVEs of whatever [responseJson] holds. *)
Definition extract_cves (key namespace imageFullName : json) : M state unit :=
  s <- get ;;
  scan <- pure (getitem (var_responseJson s) "scan") ;;
  components_value <- pure (getitem scan "components") ;;
  components <- pure (Json.iter components_value) ;;
  for_each components (fun component =>
    vulns_value <- pure (getitem component "vulns") ;;
    vulns <- pure (Json.iter vulns_value) ;;
    for_each vulns (merge_vulnerability key namespace imageFullName)).

Section WithServer.

Variable api : server.

Definition getJsonFromRhacsApi (requestPath : string) : M state json :=
  in_world (World.send api (Get (String.append "/v1" requestPath))).

(* -------------------------------------------------------------- *)
(** *** One image (lines 174 to 244) *)

(** The body of the inner [try]. *)
Definition image_detail (imageId : json) : M state unit :=
  path <- pure (Json.concat "/images/" imageId) ;;
  responseJson <- getJsonFromRhacsApi path ;;
  modify (set_responseJson responseJson) ;;
  if Json.is_none responseJson then ret tt
  else in_vars (resolve_metadata responseJson).

(** Its [except Exception as ex] handler. *)
Definition image_error (imageFullName : json) (ex : exn) : M state unit :=
  in_vars (modify (fun v => {| createdOn := createdOn v; os := ExnType ex;
                               ubiName := ExnObj ex; ubiVersion := ubiVersion v;
                               ubiRelease := ubiRelease v |})) ;;
  in_world (World.print (PrintImageError imageFullName ex)).

Definition inspect_image (key namespace imageFullName imageId : json) : M state unit :=
  modify (set_vars image_vars0) ;;
  try_finally
    (try_except (image_detail imageId) (image_error imageFullName))
    (extract_cves key namespace imageFullName).

Definition inspect_container (key namespace container : json) : M state unit :=
  image <- pure (getitem container "image") ;;
  imageId <- pure (getitem image "id") ;;
  name <- pure (getitem image "name") ;;
  imageFullName <- pure (getitem name "fullName") ;;
  inspect_image key namespace imageFullName imageId.

(* -------------------------------------------------------------- *)
(** *** One deployment (lines 129 to 247) *)

(** Lines 147 to 152: a cluster seen for the first time gets a fresh
    [ClusterDetail] under its key, then its identifier, then the label;
    reading [clusterName] raises while that local is unbound. *)
Definition register_cluster (key : json) (l : label) : M state unit :=
  (if Json.hashable key then ret tt else raise TypeError) ;;
  s <- get ;;
  if Dict.mem key (cvesByCluster s) then ret tt
  else
    modify (fun s => set_cvesByCluster
              (Dict.set key (set_clusterId key new_ClusterDetail) (cvesByCluster s)) s) ;;
    match l_name l with
    | None => raise UnboundLocalError
    | Some name =>
        modify (fun s => set_cvesByCluster
                  (update_cluster key (set_label name (l_environment l) (l_descriptor l))
                     (cvesByCluster s)) s)
    end.

(** The body of the outer [try] (lines 165 to 244). *)
Definition deployment_detail (key namespace deploymentId : json) : M state unit :=
  path <- pure (Json.concat "/deployments/" deploymentId) ;;
  responseJson <- getJsonFromRhacsApi path ;;
  modify (set_responseJson responseJson) ;;
  if Json.is_none responseJson then ret tt
  else
    containers_value <- pure (getitem responseJson "containers") ;;
    containers <- pure (Json.iter containers_value) ;;
    for_each containers (inspect_container key namespace).

Definition inspect_deployment (deploymentCount : nat) (deployment : json)
  : M state unit :=
  key <- pure (getitem deployment "clusterId") ;;
  clusterNameRaw <- pure (getitem deployment "cluster") ;;
  s <- get ;;
  let l := parse_cluster_info clusterNameRaw (var_clusterName s) in
  modify (set_clusterName (l_name l)) ;;
  register_cluster key l ;;
  namespace <- pure (getitem deployment "namespace") ;;
  deploymentId <- pure (getitem deployment "id") ;;
  deploymentName <- pure (getitem deployment "name") ;;
  modify (fun s => set_index (S (currentDeploymentIndex s)) s) ;;
  s <- get ;;
  match l_name l with
  | None => raise UnboundLocalError
  | Some name =>
      in_world (World.print
        (PrintInspectingDeployment (currentDeploymentIndex s) deploymentCount
           name namespace deploymentName)) ;;
      try_except
        (deployment_detail key namespace deploymentId)
        (fun ex => in_world (World.print
                     (PrintNotCompletingDeployment name namespace deploymentName ex)))
  end.

(* -------------------------------------------------------------- *)
(** *** The deployments to inspect (line 124) *)

Fixpoint skip_openshift (deployments : list json) : result (list json) :=
  match deployments with
  | [] => Ok []
  | deployment :: rest =>
      match getitem deployment "namespace" with
      | Raise e => Raise e
      | Ok namespace =>
          match Json.startswith namespace "openshift" with
          | Raise e => Raise e
          | Ok is_openshift =>
              match skip_openshift rest with
              | Raise e => Raise e
              | Ok kept => Ok (if negb is_openshift then deployment :: kept else kept)
              end
          end
      end
  end.

Definition deploymentsToBeInspected (deployments : json) : result (list json) :=
  match Json.iter deployments with
  | Raise e => Raise e
  | Ok l => if IS_INCLUDE_OPENSHIFT_NAMESPACE then Ok l else skip_openshift l
  end.

(** Lines 121 to 247: everything done with the decoded list of
    deployments. *)
Definition inspect_all (deployments : json) : M state unit :=
  inspected <- pure (deploymentsToBeInspected deployments) ;;
  for_each inspected (inspect_deployment (List.length inspected)).

(** Lines 116 to 247. *)
Definition collect : M state unit :=
  responseJson <- getJsonFromRhacsApi "/deployments" ;;
  modify (set_responseJson responseJson) ;;
  if Json.is_none responseJson then ret tt
  else
    deployments <- pure (getitem responseJson "deployments") ;;
    inspect_all deployments.

End WithServer.

(* ---------------------------------------------------------------- *)
(** *** The report (lines 249 to 288) *)

(** The order of tuples of two strings: the first components decide unless
    they are equal. *)
Definition key_compare (a b : string * string) : comparison :=
  match String.compare (fst a) (fst b) with
  | Eq => String.compare (snd a) (snd b)
  | c => c
  end.

Definition key_lt (a b : string * string) : bool :=
  match key_compare a b with Lt => true | _ => false end.

Definition key_le (a b : string * string) : Prop := key_lt b a = false.

(** [sorted(l, key=f)]: the stable sort, here by insertion.  An element
    goes before the first one of the sorted rest whose key is not smaller
    than its own. *)
Fixpoint insert_by {X : Type} (f : X -> string * string) (x : X) (l : list X) : list X :=
  match l with
  | [] => [x]
  | y :: l' => if key_lt (f y) (f x) then y :: insert_by f x l' else x :: y :: l'
  end.

Fixpoint sorted {X : Type} (f : X -> string * string) (l : list X) : list X :=
  match l with
  | [] => []
  | x :: l' => insert_by f x (sorted f l')
  end.

(** The key function of line 255. *)
Definition cluster_key (d : Dict.dict ClusterDetail) (key : json) : string * string :=
  match Dict.get key d with
  | Some c => (clusterEnvironment c, clusterName c)
  | None => ("", "")
  end.

Definition newline_string : string := String Chars.newline EmptyString.

(** The cells of lines 270 to 285, evaluated from left to right. *)
Definition cve_row (clusterDetail : ClusterDetail) (cveId : json) (cveDetail : CveDetail)
  : M state row :=
  let cveData := cve cveDetail in
  let severity := World.severity_of cveData in
  fixable <- pure (Json.contains "fixedBy" cveData) ;;
  cvss <- pure (getitem cveData "cvss") ;;
  cvss_cell <- pure (World.format_fixed 1 cvss) ;;
  cvssV3 <- pure (getitem cveData "cvssV3") ;;
  impact_cell <-
    (if negb (Json.is_none cvssV3) then
       cvssV3' <- pure (getitem cveData "cvssV3") ;;
       impactScore <- pure (getitem cvssV3' "impactScore") ;;
       pure (World.format_fixed 2 impactScore)
     else ret (Text "0.00")) ;;
  namespaces_text <- pure (Json.join newline_string (namespaces cveDetail)) ;;
  images_text <- pure (Json.join newline_string (images cveDetail)) ;;
  publishedOn <- pure (getitem cveData "publishedOn") ;;
  publishedOn_cell <-
    (if negb (Json.is_none publishedOn) then
       publishedOn' <- pure (getitem cveData "publishedOn") ;;
       ret (Value publishedOn')
     else ret (Text "")) ;;
  firstSystemOccurrence <- pure (getitem cveData "firstSystemOccurrence") ;;
  link <- pure (getitem cveData "link") ;;
  summary <- pure (getitem cveData "summary") ;;
  ret [ Text (clusterName clusterDetail);
        Text (clusterEnvironment clusterDetail);
        Text (clusterDescriptor clusterDetail);
        Value cveId;
        Text (if fixable then "Fixable" else "Not Fixable");
        Text severity;
        cvss_cell;
        impact_cell;
        Text namespaces_text;
        Text images_text;
        publishedOn_cell;
        Value firstSystemOccurrence;
        Value link;
        Value summary ].

(** The body of the loop of line 259. *)
Definition write_cve (clusterDetail : ClusterDetail) (cveId : json) : M state unit :=
  match Dict.get cveId (cveDetails clusterDetail) with
  | None => raise KeyError
  | Some cveDetail =>
      r <- cve_row clusterDetail cveId cveDetail ;;
      in_world (World.writerow r)
  end.

Definition write_cluster (clusterDetail : ClusterDetail) : M state unit :=
  for_each (Dict.keys (cveDetails clusterDetail)) (write_cve clusterDetail).

Definition sortedByClusterEnvironmentAndName (d : Dict.dict ClusterDetail) : list json :=
  sorted (cluster_key d) (Dict.keys d).

(** The body of the loop of line 256. *)
Definition write_key (d : Dict.dict ClusterDetail) (key : json) : M state unit :=
  match Dict.get key d with
  | None => raise KeyError
  | Some clusterDetail => write_cluster clusterDetail
  end.

Definition write_report : M state unit :=
  in_world World.open_file ;;
  in_world (World.writerow CSV_HEADER) ;;
  s <- get ;;
  for_each (sortedByClusterEnvironmentAndName (cvesByCluster s))
           (write_key (cvesByCluster s)).

Definition main (api : server) : M state unit :=
  collect api ;;
  write_report ;;
  in_world (World.print PrintSuccess).

(** A run of the program: what [main] raises, if anything, and the state
    it leaves. *)
Definition run (api : server) : result unit * state := main api state0.

End ImagePipeline.

(* ================================================================== *)
(** ** generate-cves-by-nodes.py *)

Module NodePipeline.

Definition CSV_HEADER : row :=
  map Text
    [ "Cluster Name"; "Environment"; "Cluster Descriptor"; "Node Name"; "CVE";
      "Fixable"; "Severity"; "CVSS"; "Env. Impact"; "Impact Score";
      "Published On"; "Discovered On"; "Link"; "Summary" ].

Record state : Type := {
  the_world : world;
  currentNodeIndex : nat
}.

Definition state0 : state := {| the_world := world0; currentNodeIndex := 0 |}.

Definition set_world (w : world) (s : state) : state :=
  {| the_world := w; currentNodeIndex := currentNodeIndex s |}.

Definition set_index (n : nat) (s : state) : state :=
  {| the_world := the_world s; currentNodeIndex := n |}.

Definition in_world {A : Type} (m : M world A) : M state A :=
  zoom the_world set_world m.

(* ---------------------------------------------------------------- *)
(** *** The cluster label (lines 109 to 125) *)

(** Here [clusterName] holds the raw name when the parse starts. *)
Record label : Type := {
  l_name : json;
  l_environment : string;
  l_descriptor : string
}.

Definition assign_group (m : captures) (n : nat) (f : string -> label -> label)
  : M label unit :=
  match group m n with
  | Some s => modify (f s)
  | None => ret tt
  end.

Definition parse_cluster_info (clusterName : json) : label :=
  snd (try_except
         (regexResult <- pure (Json.re_search CLUSTER_INFO_REGEX clusterName) ;;
          match regexResult with
          | None => raise AttributeError
          | Some m =>
              assign_group m 1 (fun s l => {| l_name := JStr s;
                   l_environment := l_environment l; l_descriptor := l_descriptor l |}) ;;
              assign_group m 2 (fun s l => {| l_name := l_name l;
                   l_environment := s; l_descriptor := l_descriptor l |}) ;;
              assign_group m 3 (fun s l => {| l_name := l_name l;
                   l_environment := l_environment l; l_descriptor := s |})
          end)
         (fun _ => ret tt)
         {| l_name := clusterName; l_environment := ""; l_descriptor := "" |}).

(* ---------------------------------------------------------------- *)
(** *** One row (lines 152 to 175) *)

Definition cve_row (l : label) (nodeName cve : json) : M state row :=
  let severity := World.severity_of cve in
  cve_id <- pure (getitem cve "cve") ;;
  isFixable <- pure (getitem cve "isFixable") ;;
  cvss <- pure (getitem cve "cvss") ;;
  cvss_cell <- pure (World.format_fixed 1 cvss) ;;
  envImpact <- pure (getitem cve "envImpact") ;;
  envImpact_cell <- pure (World.format_percent envImpact) ;;
  impactScore <- pure (getitem cve "impactScore") ;;
  impact_cell <- pure (World.format_fixed 2 impactScore) ;;
  publishedOn <- pure (getitem cve "publishedOn") ;;
  createdAt <- pure (getitem cve "createdAt") ;;
  link <- pure (getitem cve "link") ;;
  summary <- pure (getitem cve "summary") ;;
  ret [ Value (l_name l);
        Text (l_environment l);
        Text (l_descriptor l);
        Value nodeName;
        Value cve_id;
        Text (if Json.truthy isFixable then "Fixable" else "Not Fixable");
        Text severity;
        cvss_cell;
        envImpact_cell;
        impact_cell;
        Value publishedOn;
        Value createdAt;
        Value link;
        Value summary ].

Section WithServer.

Variable api : server.

Definition getJsonFromRhacsApi (requestPath : string) : M state json :=
  in_world (World.send api (Get (String.append "/v1" requestPath))).

Definition getJsonFromRhacsGraphQl (operationName : string) (clusterId nodeId : json)
  : M state json :=
  in_world (World.send api (GraphQl operationName clusterId nodeId)).

(** The body of the [try] of one node (lines 140 to 176). *)
Definition node_vulnerabilities (l : label) (clusterId nodeId nodeName : json)
  : M state unit :=
  responseJson <- getJsonFromRhacsGraphQl "getNodeNODE_CVE" clusterId nodeId ;;
  if Json.is_none responseJson then ret tt
  else
    data <- pure (getitem responseJson "data") ;;
    result_value <- pure (getitem data "result") ;;
    cves_value <- pure (getitem result_value "nodeVulnerabilities") ;;
    cves <- pure (Json.iter cves_value) ;;
    for_each cves (fun cve =>
      r <- cve_row l nodeName cve ;;
      in_world (World.writerow r)).

(** Lines 132 to 179. *)
Definition inspect_node (l : label) (clusterId : json) (nodeCount : nat) (node : json)
  : M state unit :=
  nodeId <- pure (getitem node "id") ;;
  nodeName <- pure (getitem node "name") ;;
  modify (fun s => set_index (S (currentNodeIndex s)) s) ;;
  s <- get ;;
  in_world (World.print
    (PrintInspectingNode (currentNodeIndex s) nodeCount (l_name l) nodeName)) ;;
  try_except
    (node_vulnerabilities l clusterId nodeId nodeName)
    (fun ex => in_world (World.print (PrintNotCompletingNode (l_name l) nodeName ex))).

(** Lines 127 to 179: the nodes of a cluster whose label is parsed. *)
Definition inspect_nodes (l : label) (clusterId : json) : M state unit :=
  path <- pure (Json.concat "/nodes/" clusterId) ;;
  responseJson <- getJsonFromRhacsApi path ;;
  nodes <- pure (getitem responseJson "nodes") ;;
  nodeCount <- pure (Json.len nodes) ;;
  modify (set_index 0) ;;
  node_list <- pure (Json.iter nodes) ;;
  for_each node_list (inspect_node l clusterId nodeCount).

(** Lines 107 to 179. *)
Definition inspect_cluster (cluster : json) : M state unit :=
  clusterId <- pure (getitem cluster "id") ;;
  clusterName <- pure (getitem cluster "name") ;;
  in_world (World.print (PrintInspectingCluster clusterName)) ;;
  inspect_nodes (parse_cluster_info clusterName) clusterId.

Definition main : M state unit :=
  responseJson <- getJsonFromRhacsApi "/clusters" ;;
  if Json.is_none responseJson then ret tt
  else
    in_world World.open_file ;;
    in_world (World.writerow CSV_HEADER) ;;
    clusters_value <- pure (getitem responseJson "clusters") ;;
    clusters <- pure (Json.iter clusters_value) ;;
    for_each clusters inspect_cluster ;;
    in_world (World.print PrintSuccess).

Definition run : result unit * state := main state0.

End WithServer.

End NodePipeline.

(* ================================================================== *)
(** ** The vocabulary of the statements *)

Module Vocabulary.

(** A run of word characters: not empty, every character a word
    character other than the underscore. *)
Definition word_run (s : string) : Prop :=
  s <> "" /\ Str.all Chars.word_no_underscore s = true.

(** A run of separators: not empty, every character a non-word character
    or an underscore. *)
Definition separator_run (s : string) : Prop :=
  s <> "" /\ Str.all Chars.nonword_or_underscore s = true.

(** What may follow the second separator run and be taken whole: text
    without a newline that does not begin with a separator (the run
    before it is then maximal). *)
Definition descriptor_text (s : string) : Prop :=
  Str.all Chars.dot s = true /\ Str.head_satisfies Chars.nonword_or_underscore s = false.

Definition image_label (name : option string) (environment descriptor : string)
  : ImagePipeline.label :=
  {| ImagePipeline.l_name := name;
     ImagePipeline.l_environment := environment;
     ImagePipeline.l_descriptor := descriptor |}.

Definition node_label (name : json) (environment descriptor : string)
  : NodePipeline.label :=
  {| NodePipeline.l_name := name;
     NodePipeline.l_environment := environment;
     NodePipeline.l_descriptor := descriptor |}.

(** The match fails or raises: the search finds nothing, or the raw name is
    not a string. *)
Definition no_match (raw : json) : Prop :=
  match Json.re_search CLUSTER_INFO_REGEX raw with
  | Ok (Some _) => False
  | _ => True
  end.

(** No entry of the list equals a later one, in the sense of Python's
    [==]. *)
Fixpoint distinct (l : list json) : Prop :=
  match l with
  | [] => True
  | x :: l' => Forall (fun y => Json.eqb x y = false) l' /\ distinct l'
  end.

(** The tracking lists of one CVE hold no entry twice. *)
Definition cve_ok (d : ImagePipeline.CveDetail) : Prop :=
  distinct (ImagePipeline.namespaces d) /\ distinct (ImagePipeline.images d).

(** In one cluster a CVE identifier has one record, and every record is
    well formed. *)
Definition cluster_ok (c : ImagePipeline.ClusterDetail) : Prop :=
  distinct (Dict.keys (ImagePipeline.cveDetails c))
  /\ Forall (fun kv => cve_ok (snd kv)) (ImagePipeline.cveDetails c).

Definition aggregate_ok (d : Dict.dict ImagePipeline.ClusterDetail) : Prop :=
  distinct (Dict.keys d) /\ Forall (fun kv => cluster_ok (snd kv)) d.

(** The namespaces and the images recorded for a CVE before a merge. *)
Definition tracked (f : ImagePipeline.CveDetail -> list json) (cveId : json)
    (details : Dict.dict ImagePipeline.CveDetail) : list json :=
  match Dict.get cveId details with
  | Some r => f r
  | None => []
  end.

(** [l'] is [l] with [x] put at its end unless [l] holds it already. *)
Definition appended_once (x : json) (l l' : list json) : Prop :=
  (Json.mem x l = true /\ l' = l) \/ (Json.mem x l = false /\ l' = l ++ [x]).

(** The three UBI fields are those of a UBI image, or all empty. *)
Definition all_or_nothing (v : ImagePipeline.image_vars) : Prop :=
  (exists s, ImagePipeline.ubiName v = ImagePipeline.Obj (JStr s)
             /\ Str.startswith s ImagePipeline.UBI_PREFIX = true)
  \/ (ImagePipeline.ubiName v = ImagePipeline.Obj (JStr "")
      /\ ImagePipeline.ubiVersion v = JStr ""
      /\ ImagePipeline.ubiRelease v = JStr "").

(** A computation keeps a property of the state, whether it returns or
    raises. *)
Definition preserves {S A : Type} (P : S -> Prop) (m : M S A) : Prop :=
  forall s, P s -> P (snd (m s)).

(** The label a cluster is registered under. *)
Definition labels_of (c : ImagePipeline.ClusterDetail) : string * string * string :=
  (ImagePipeline.clusterName c, ImagePipeline.clusterEnvironment c,
   ImagePipeline.clusterDescriptor c).

Definition cluster_labels (key : json) (d : Dict.dict ImagePipeline.ClusterDetail)
  : option (string * string * string) :=
  option_map labels_of (Dict.get key d).

(** The sort key and the CVE of a row of the image report, read from its
    cells: the environment and the cluster name, and the fourth cell. *)
Definition row_key (r : row) : string * string :=
  match r with
  | Text name :: Text environment :: _ => (environment, name)
  | _ => ("", "")
  end.

Definition row_cve (r : row) : cell := nth 3 r (Text "").

(** The key of a cluster and the CVEs of its mapping, in the order of the
    mapping. *)
Definition cluster_rows (d : Dict.dict ImagePipeline.ClusterDetail) (key : json)
  : list ((string * string) * cell) :=
  match Dict.get key d with
  | Some c =>
      map (fun cveId => (ImagePipeline.cluster_key d key, Value cveId))
          (Dict.keys (ImagePipeline.cveDetails c))
  | None => []
  end.

(** The file holds the header and then some rows. *)
Definition has_header (header : row) (w : world) : Prop :=
  exists rows, file w = Some (header :: rows).

(** The file of the second world is that of the first with rows added. *)
Definition appended (rows : list row) (w w' : world) : Prop :=
  file w' = option_map (fun f => f ++ rows) (file w).

(** The deployment is in a namespace whose name starts with openshift. *)
Definition is_openshift (deployment : json) : bool :=
  match getitem deployment "namespace" with
  | Ok (JStr namespace) => Str.startswith namespace "openshift"
  | _ => false
  end.

(** The list of deployments without those. *)
Definition without_openshift (deployments : list json) : list json :=
  filter (fun d => negb (is_openshift d)) deployments.

(** A namespace that is a string and does not start with openshift. *)
Definition other_namespace (namespace : json) : Prop :=
  exists s, namespace = JStr s /\ Str.startswith s "openshift" = false.

(** No CVE of the aggregate is tracked in an openshift namespace. *)
Definition no_openshift_namespace (d : Dict.dict ImagePipeline.ClusterDetail) : Prop :=
  Forall (fun kc =>
            Forall (fun kr => Forall other_namespace (ImagePipeline.namespaces (snd kr)))
                   (ImagePipeline.cveDetails (snd kc)))
         d.

(** The three UBI fields are empty. *)
Definition ubi_empty (v : ImagePipeline.image_vars) : Prop :=
  ImagePipeline.ubiName v = ImagePipeline.Obj (JStr "")
  /\ ImagePipeline.ubiVersion v = JStr ""
  /\ ImagePipeline.ubiRelease v = JStr "".

(** The aggregate of a state of the image pipeline is well formed. *)
Definition state_ok (s : ImagePipeline.state) : Prop :=
  aggregate_ok (ImagePipeline.cvesByCluster s).

(** What the rest of a deployment keeps: the local [clusterName] and the
    label its cluster is registered under. *)
Definition kept (key : json) (name : option string) (l : option (string * string * string))
    (s : ImagePipeline.state) : Prop :=
  ImagePipeline.var_clusterName s = name
  /\ cluster_labels key (ImagePipeline.cvesByCluster s) = l.

(** The file of the node pipeline holds its header and then some rows. *)
Definition node_header (s : NodePipeline.state) : Prop :=
  has_header NodePipeline.CSV_HEADER (NodePipeline.the_world s).

Definition clean (s : ImagePipeline.state) : Prop :=
  no_openshift_namespace (ImagePipeline.cvesByCluster s).

(** The end of a subject the [$] of a pattern accepts: nothing, or one
    newline. *)
Definition line_end (s : string) : Prop :=
  s = "" \/ s = String Chars.newline "".

(** The text of a version or of a release: a digit, then digits and
    dots. *)
Definition version_text (s : string) : Prop :=
  exists c rest, s = String c rest /\ Chars.digit c = true
                 /\ Str.all Chars.digit_or_dot rest = true.

(** The three groups of a match of the cluster pattern that starts at
    [subject], with what the match covers. *)
Definition cluster_match (m : captures) (subject : string) : Prop :=
  exists name,
    word_run name /\ group m 1 = Some name
    /\ ((exists tail, line_end tail /\ subject = String.append name tail
                      /\ group m 2 = None /\ group m 3 = None)
        \/ exists sep1 env,
             separator_run sep1 /\ word_run env /\ group m 2 = Some env
             /\ ((exists tail, line_end tail
                     /\ subject = String.append name (String.append sep1
                                    (String.append env tail))
                     /\ group m 3 = None)
                 \/ exists sep2 d tail,
                      separator_run sep2 /\ Str.all Chars.dot d = true /\ line_end tail
                      /\ subject = String.append name (String.append sep1
                                     (String.append env (String.append sep2
                                        (String.append d tail))))
                      /\ group m 3 = Some d)).

(** The three groups of a match of the UBI pattern that starts at
    [subject]. *)
Definition ubi_match (m : captures) (subject : string) : Prop :=
  exists path name version release rest,
    path <> "" /\ Str.all Chars.dot path = true
    /\ name <> "" /\ Str.all Chars.not_slash name = true
    /\ version_text version /\ version_text release
    /\ subject = String.append "https://" (String.append path (String.append "/"
                   (String.append name (String.append "/images/"
                      (String.append version (String.append "-"
                         (String.append release rest)))))))
    /\ group m 1 = Some name /\ group m 2 = Some version /\ group m 3 = Some release.

(** A layer the scan passes over without an exception: its instruction is
    not LABEL, or its value does not hold the UBI marker, or it holds the
    marker and the pattern finds nothing in it. *)
Definition layer_passed (layer : json) : Prop :=
  exists instruction,
    getitem layer "instruction" = Ok instruction
    /\ (Json.eqb instruction (JStr "LABEL") = false
        \/ exists value,
             getitem layer "value" = Ok value
             /\ (Json.contains ImagePipeline.UBI_IDENTIFIER_IN_LABEL value = Ok false
                 \/ (Json.contains ImagePipeline.UBI_IDENTIFIER_IN_LABEL value = Ok true
                     /\ Json.re_search UBI_REGEX value = Ok None))).

(** A LABEL layer whose value holds the UBI marker and matches the pattern
    with the groups [m]. *)
Definition layer_decides (layer : json) (m : captures) : Prop :=
  exists value,
    getitem layer "instruction" = Ok (JStr "LABEL")
    /\ getitem layer "value" = Ok value
    /\ Json.contains ImagePipeline.UBI_IDENTIFIER_IN_LABEL value = Ok true
    /\ Json.re_search UBI_REGEX value = Ok (Some m).

(** The detail of an image as far as the resolver reads it before the
    layers: the metadata with its creation date, and the operating system of
    the scan. *)
Definition image_head (responseJson metadataJson created os_value : json) : Prop :=
  exists metadata scan,
    getitem responseJson "metadata" = Ok metadata
    /\ getitem metadata "v1" = Ok metadataJson
    /\ getitem metadataJson "created" = Ok created
    /\ getitem responseJson "scan" = Ok scan
    /\ getitem scan "operatingSystem" = Ok os_value.

(** The per-image locals with the creation date, the operating system and
    the three UBI fields given. *)
Definition image_fields (created os_value name version release : json)
  : ImagePipeline.image_vars :=
  {| ImagePipeline.createdOn := created;
     ImagePipeline.os := ImagePipeline.Obj os_value;
     ImagePipeline.ubiName := ImagePipeline.Obj name;
     ImagePipeline.ubiVersion := version;
     ImagePipeline.ubiRelease := release |}.

(** A deployment of the listing as the image pipeline reads it outside its
    try blocks: a cluster identifier that can be a key, a cluster name, a
    namespace that is a string, an identifier and a name. *)
Definition deployment_fields (deployment : json) : Prop :=
  exists key raw namespace deploymentId deploymentName,
    getitem deployment "clusterId" = Ok key
    /\ Json.hashable key = true
    /\ getitem deployment "cluster" = Ok raw
    /\ getitem deployment "namespace" = Ok (JStr namespace)
    /\ getitem deployment "id" = Ok deploymentId
    /\ getitem deployment "name" = Ok deploymentName.

(** The cluster name of the deployment is a string the pattern matches. *)
Definition label_parses (deployment : json) : Prop :=
  exists raw m,
    getitem deployment "cluster" = Ok (JStr raw)
    /\ search CLUSTER_INFO_REGEX raw = Some m.

(** The local [clusterName] is bound. *)
Definition name_bound (s : ImagePipeline.state) : Prop :=
  exists name, ImagePipeline.var_clusterName s = Some name.

(** The first deployment to inspect, if there is one, has a cluster name
    that parses. *)
Definition first_parses (deployments : list json) : Prop :=
  match without_openshift deployments with
  | [] => True
  | deployment :: _ => label_parses deployment
  end.

(** A node of the listing as the node pipeline reads it outside its try
    block: an identifier and a name. *)
Definition node_fields (node : json) : Prop :=
  exists nodeId nodeName,
    getitem node "id" = Ok nodeId /\ getitem node "name" = Ok nodeName.

(** A row of the node report for a label and a node: as many cells as the
    header, the first four those of the label and the name of the node. *)
Definition node_row (l : NodePipeline.label) (node : json) (r : row) : Prop :=
  List.length r = List.length NodePipeline.CSV_HEADER
  /\ exists nodeName,
       getitem node "name" = Ok nodeName
       /\ firstn 4 r = [ Value (NodePipeline.l_name l);
                         Text (NodePipeline.l_environment l);
                         Text (NodePipeline.l_descriptor l);
                         Value nodeName ].

(** The second state has the file of the first with rows added, each of
    them accepted by [P]. *)
Definition node_rows_added (P : row -> Prop) (s s' : NodePipeline.state) : Prop :=
  exists rows,
    appended rows (NodePipeline.the_world s) (NodePipeline.the_world s')
    /\ Forall P rows.

(** A cluster of the listing of the node pipeline: an identifier that is a
    string, and a name. *)
Definition cluster_fields (cluster : json) : Prop :=
  exists clusterId clusterName,
    getitem cluster "id" = Ok (JStr clusterId)
    /\ getitem cluster "name" = Ok clusterName.

(** The server answers every request for the nodes of the cluster, whatever
    was requested before, with a list of nodes that have their fields. *)
Definition nodes_listed (api : server) (cluster : json) : Prop :=
  forall clusterId before,
    getitem cluster "id" = Ok (JStr clusterId) ->
    exists body nodes,
      api before (Get (String.append "/v1" (String.append "/nodes/" clusterId)))
      = Status 200 (Some body)
      /\ getitem body "nodes" = Ok (JArr nodes)
      /\ Forall node_fields nodes.

(** A number that [format] with a fixed number of decimals accepts: a
    [bool], a [float], or an [int] that converts to a [float]. *)
Definition number (j : json) : bool :=
  match j with
  | JBool _ => true
  | JNum q => negb (World.is_int q) || World.converts (Qnum q)
  | _ => false
  end.

Definition all_strings (l : list json) : bool :=
  forallb (fun j => match j with JStr _ => true | _ => false end) l.

Definition has_key (j : json) (k : string) : bool :=
  match getitem j k with
  | Ok _ => true
  | Raise _ => false
  end.

(** A record of a CVE of which the row can be written: the vulnerability
    has a [cvss] that is such a number, a [cvssV3] that is null or holds an
    [impactScore] that is such a number, and the four other fields of the
    row; the namespaces and the images tracked are strings. *)
Definition reportable (r : ImagePipeline.CveDetail) : bool :=
  let cveData := ImagePipeline.cve r in
  match getitem cveData "cvss", getitem cveData "cvssV3" with
  | Ok cvss, Ok cvssV3 =>
      number cvss
      && (if Json.is_none cvssV3 then true
          else match getitem cvssV3 "impactScore" with
               | Ok impactScore => number impactScore
               | Raise _ => false
               end)
      && all_strings (ImagePipeline.namespaces r)
      && all_strings (ImagePipeline.images r)
      && has_key cveData "publishedOn"
      && has_key cveData "firstSystemOccurrence"
      && has_key cveData "link"
      && has_key cveData "summary"
  | _, _ => false
  end.

(** Every CVE of the cluster, looked up under its identifier, is
    reportable. *)
Definition cluster_reportable (c : ImagePipeline.ClusterDetail) : bool :=
  forallb (fun cveId => match Dict.get cveId (ImagePipeline.cveDetails c) with
                        | Some r => reportable r
                        | None => false
                        end)
          (Dict.keys (ImagePipeline.cveDetails c)).

(** Every cluster of the aggregate, looked up under its key, is. *)
Definition aggregate_reportable (d : Dict.dict ImagePipeline.ClusterDetail) : bool :=
  forallb (fun key => match Dict.get key d with
                      | Some c => cluster_reportable c
                      | None => false
                      end)
          (Dict.keys d).

(** [l'] is [l] with entries added at its end. *)
Definition prefix_of {A : Type} (l l' : list A) : Prop :=
  exists more, l' = l ++ more.

(** [l'] holds, in the order of [l], an entry related to each entry of [l],
    and then the entries added since. *)
Definition extends {A : Type} (R : A -> A -> Prop) (l l' : list A) : Prop :=
  exists head more, l' = head ++ more /\ Forall2 R l head.

(** An entry of a mapping under the same key. *)
Definition entry_le {V : Type} (R : V -> V -> Prop) (a b : json * V) : Prop :=
  fst a = fst b /\ R (snd a) (snd b).

(** The record of a CVE later in the run: the namespaces and the images
    tracked before are still there, in their places. *)
Definition cve_le (r r' : ImagePipeline.CveDetail) : Prop :=
  prefix_of (ImagePipeline.namespaces r) (ImagePipeline.namespaces r')
  /\ prefix_of (ImagePipeline.images r) (ImagePipeline.images r').

(** A cluster later in the run: the same identifier and label, and the CVEs
    recorded before are still there, in their places. *)
Definition cluster_le (c c' : ImagePipeline.ClusterDetail) : Prop :=
  ImagePipeline.clusterId c = ImagePipeline.clusterId c'
  /\ labels_of c = labels_of c'
  /\ extends (entry_le cve_le) (ImagePipeline.cveDetails c) (ImagePipeline.cveDetails c').

Definition aggregate_le (d d' : Dict.dict ImagePipeline.ClusterDetail) : Prop :=
  extends (entry_le cluster_le) d d'.

(** The aggregate of the state holds what [d0] held. *)
Definition since (d0 : Dict.dict ImagePipeline.ClusterDetail) (s : ImagePipeline.state)
  : Prop :=
  aggregate_le d0 (ImagePipeline.cvesByCluster s).

(** Two states of the image pipeline with the same aggregate and the same
    [responseJson]. *)
Definition same_data (s s' : ImagePipeline.state) : Prop :=
  ImagePipeline.cvesByCluster s = ImagePipeline.cvesByCluster s'
  /\ ImagePipeline.var_responseJson s = ImagePipeline.var_responseJson s'.

(** Two states of the image pipeline with the same file. *)
Definition same_file (s s' : ImagePipeline.state) : Prop :=
  file (ImagePipeline.the_world s) = file (ImagePipeline.the_world s').

(** From two related states a computation returns or raises the same and
    leaves related states: it reads of the state no more than the relation
    fixes. *)
Definition in_step {S A : Type} (R : S -> S -> Prop) (m : M S A) : Prop :=
  forall s1 s2, R s1 s2 -> fst (m s1) = fst (m s2) /\ R (snd (m s1)) (snd (m s2)).

(** The file of the state is [f]. *)
Definition file_is (f : option (list row)) (s : ImagePipeline.state) : Prop :=
  file (ImagePipeline.the_world s) = f.

(** The entries of a list whose key is [k], in the order of the list. *)
Definition with_key {X : Type} (f : X -> string * string) (k : string * string)
    (l : list X) : list X :=
  filter (fun x => match ImagePipeline.key_compare (f x) k with
                   | Eq => true
                   | _ => false
                   end) l.

(** The rows the node pipeline writes for the vulnerabilities of a node, in
    their order, up to the first one whose row cannot be computed. *)
Fixpoint rows_written (l : NodePipeline.label) (nodeName : json) (cves : list json)
  : list row :=
  match cves with
  | [] => []
  | cve :: rest =>
      match fst (NodePipeline.cve_row l nodeName cve NodePipeline.state0) with
      | Ok r => r :: rows_written l nodeName rest
      | Raise _ => []
      end
  end.

(** The vulnerabilities of the answer to the request for a node. *)
Definition node_answer (body : json) (cves : list json) : Prop :=
  exists data result_value cves_value,
    getitem body "data" = Ok data
    /\ getitem data "result" = Ok result_value
    /\ getitem result_value "nodeVulnerabilities" = Ok cves_value
    /\ Json.iter cves_value = Ok cves.

(** A row of the node report stands for the vulnerability: its fourth cell
    is the name of the node, its fifth the identifier of the CVE. *)
Definition row_of (nodeName cve : json) (r : row) : Prop :=
  nth 3 r (Text "") = Value nodeName
  /\ exists cveId, getitem cve "cve" = Ok cveId /\ nth 4 r (Text "") = Value cveId.

(** The file of the state holds the header of the image report and then
    rows that have as many cells as the header. *)
Definition rectangular (s : ImagePipeline.state) : Prop :=
  exists rows,
    file (ImagePipeline.the_world s) = Some (ImagePipeline.CSV_HEADER :: rows)
    /\ Forall (fun r => List.length r = List.length ImagePipeline.CSV_HEADER) rows.

(** The listing of the clusters yields data: it is answered with status 200
    and a value that is not null. *)
Definition listing_has_data (api : server) : bool :=
  match api [] (Get "/v1/clusters") with
  | Status code (Some listing) => Nat.eqb code 200 && negb (Json.is_none listing)
  | _ => false
  end.

End Vocabulary.

Import Vocabulary.

(* ================================================================== *)
(** ** Sample documents and servers *)

Module Samples.

Import ImagePipeline.

Definition deployment (clusterId cluster namespace id name : string) : json :=
  JObj [ ("id", JStr id); ("name", JStr name); ("clusterId", JStr clusterId);
         ("cluster", JStr cluster); ("namespace", JStr namespace) ].

Definition container (imageId fullName : string) : json :=
  JObj [ ("image", JObj [ ("id", JStr imageId);
                          ("name", JObj [ ("fullName", JStr fullName) ]) ]) ].

Definition vulnerability (id : string) : json :=
  JObj [ ("cve", JStr id); ("severity", JStr "LOW_VULNERABILITY_SEVERITY");
         ("cvss", JNum 7.5); ("cvssV3", JNull); ("publishedOn", JNull);
         ("firstSystemOccurrence", JStr "2024-01-01T00:00:00Z");
         ("link", JStr "https://access.redhat.com/security/cve"); ("summary", JStr "") ].

Definition scan (operatingSystem : string) (vulns : list json) : json :=
  JObj [ ("operatingSystem", JStr operatingSystem);
         ("components", JArr [ JObj [ ("vulns", JArr vulns) ] ]) ].

Definition ubi_url : string :=
  "https://access.redhat.com/containers/#/registry.access.redhat.com/ubi8/images/8.4-206".

(** The value of a LABEL layer of a UBI base image. *)
Definition ubi_label_value : string :=
  String.append dq (String.append "url" (String.append dq (String.append "="
    (String.append dq (String.append ubi_url dq))))).

(** An image built on UBI 8. *)
Definition ubi_image : json :=
  JObj [ ("metadata", JObj [ ("v1", JObj [
            ("created", JStr "2024-01-01T00:00:00Z");
            ("layers", JArr [ JObj [ ("instruction", JStr "LABEL");
                                     ("value", JStr ubi_label_value) ] ]);
            ("labels", JObj []) ]) ]);
         ("scan", scan "rhel:8" [ vulnerability "CVE-2024-0001" ]) ].

(** A RHEL based image without the LABEL layers of its base, with a [url]
    label that names the base and with labels of its own. *)
Definition url_labelled_image : json :=
  JObj [ ("metadata", JObj [ ("v1", JObj [
            ("created", JStr "2024-01-01T00:00:00Z");
            ("layers", JArr []);
            ("labels", JObj [ ("url", JStr ubi_url); ("name", JStr "my-app");
                              ("version", JStr "1.0"); ("release", JStr "1") ]) ]) ]);
         ("scan", scan "rhel:8" []) ].

(** An image whose detail has a scan but no metadata. *)
Definition image_without_metadata : json :=
  JObj [ ("scan", scan "rhel:8" [ vulnerability "CVE-2024-0001" ]) ].

Definition ok (j : json) : reply := Status 200 (Some j).

(** One deployment of one UBI image. *)
Definition ubi_server : server :=
  fun _ req =>
    match req with
    | Get "/v1/deployments" =>
        ok (JObj [ ("deployments",
                    JArr [ deployment "c1" "ocps4 - uat" "payments" "d1" "api" ]) ])
    | Get "/v1/deployments/d1" =>
        ok (JObj [ ("containers", JArr [ container "sha256:1" "quay.io/acme/api:1" ]) ])
    | Get "/v1/images/sha256:1" => ok ubi_image
    | _ => Fails
    end.

(** One deployment of one image whose detail has no metadata. *)
Definition no_metadata_server : server :=
  fun _ req =>
    match req with
    | Get "/v1/deployments" =>
        ok (JObj [ ("deployments",
                    JArr [ deployment "c1" "ocps4 - uat" "payments" "d1" "api" ]) ])
    | Get "/v1/deployments/d1" =>
        ok (JObj [ ("containers", JArr [ container "sha256:1" "quay.io/acme/api:1" ]) ])
    | Get "/v1/images/sha256:1" => ok image_without_metadata
    | _ => Fails
    end.

(** The state of [main] when the image of that deployment is reached. *)
Definition at_first_image (api : server) : state :=
  snd ((responseJson <- getJsonFromRhacsApi api "/deployments" ;;
        modify (set_responseJson responseJson) ;;
        register_cluster (JStr "c1") (parse_cluster_info (JStr "ocps4 - uat") None) ;;
        responseJson <- getJsonFromRhacsApi api "/deployments/d1" ;;
        modify (set_responseJson responseJson)) state0).

(** One deployment, of a cluster whose name is made of separators. *)
Definition unparsed_first_server : server :=
  fun _ req =>
    match req with
    | Get "/v1/deployments" =>
        ok (JObj [ ("deployments", JArr [ deployment "c1" "---" "payments" "d1" "api" ]) ])
    | Get "/v1/deployments/d1" => ok (JObj [ ("containers", JArr []) ])
    | _ => Fails
    end.

(** Two deployments in two clusters; the name of the second cluster does
    not parse. *)
Definition first_deployment : json := deployment "c1" "ocps4 - uat" "payments" "d1" "api".
Definition second_deployment : json := deployment "c2" "---" "billing" "d2" "web".

Definition unparsed_second_server : server :=
  fun _ req =>
    match req with
    | Get "/v1/deployments" =>
        ok (JObj [ ("deployments", JArr [ first_deployment; second_deployment ]) ])
    | Get "/v1/deployments/d1" => ok (JObj [ ("containers", JArr []) ])
    | Get "/v1/deployments/d2" => ok (JObj [ ("containers", JArr []) ])
    | _ => Fails
    end.

(** The state of [main] after the first of them. *)
Definition after_first_deployment : state :=
  snd ((responseJson <- getJsonFromRhacsApi unparsed_second_server "/deployments" ;;
        modify (set_responseJson responseJson) ;;
        inspect_deployment unparsed_second_server 2 first_deployment) state0).

Definition cluster (id name : string) : json :=
  JObj [ ("id", JStr id); ("name", JStr name) ].

Definition node (id name : string) : json :=
  JObj [ ("id", JStr id); ("name", JStr name) ].

Definition node_vulnerability (id : string) : json :=
  JObj [ ("cve", JStr id); ("severity", JStr "CRITICAL_VULNERABILITY_SEVERITY");
         ("isFixable", JBool true); ("cvss", JNum 9.8); ("envImpact", JNum 0.5);
         ("impactScore", JNum 5.9); ("publishedOn", JStr "2024-01-01T00:00:00Z");
         ("createdAt", JStr "2024-01-02T00:00:00Z");
         ("link", JStr "https://access.redhat.com/security/cve"); ("summary", JStr "") ].

Definition two_clusters : json :=
  JObj [ ("clusters", JArr [ cluster "c1" "ocps4 - uat"; cluster "c2" "ocps5 - prod" ]) ].

(** Two clusters; the nodes of the first are answered with status 204, the
    second has one node with one vulnerability. *)
Definition nodes_unavailable_server : server :=
  fun _ req =>
    match req with
    | Get "/v1/clusters" => ok two_clusters
    | Get "/v1/nodes/c1" => Status 204 None
    | Get "/v1/nodes/c2" => ok (JObj [ ("nodes", JArr [ node "n1" "worker-1" ]) ])
    | GraphQl _ _ _ =>
        ok (JObj [ ("data", JObj [ ("result", JObj [
                     ("nodeVulnerabilities", JArr [ node_vulnerability "CVE-2024-0002" ])
                   ]) ]) ])
    | _ => Fails
    end.

(** The same clusters, the nodes of both answered. *)
Definition nodes_server : server :=
  fun _ req =>
    match req with
    | Get "/v1/clusters" => ok two_clusters
    | Get "/v1/nodes/c1" => ok (JObj [ ("nodes", JArr []) ])
    | Get "/v1/nodes/c2" => ok (JObj [ ("nodes", JArr [ node "n1" "worker-1" ]) ])
    | GraphQl _ _ _ =>
        ok (JObj [ ("data", JObj [ ("result", JObj [
                     ("nodeVulnerabilities", JArr [ node_vulnerability "CVE-2024-0002" ])
                   ]) ]) ])
    | _ => Fails
    end.

(** The list of clusters is answered with status 204. *)
Definition no_listing_server : server :=
  fun _ req =>
    match req with
    | Get "/v1/clusters" => Status 204 None
    | Get "/v1/deployments" => Status 204 None
    | _ => Fails
    end.

Definition layer (instruction value : string) : json :=
  JObj [ ("instruction", JStr instruction); ("value", JStr value) ].

(** The layers of an image built on UBI 8: two layers of its own, the LABEL
    layer of the base, and a layer that is not even a mapping. *)
Definition layers_with_base : list json :=
  [ layer "RUN" "microdnf install -y java-17-openjdk";
    layer "LABEL" "maintainer=acme";
    layer "LABEL" ubi_label_value;
    JNull ].

(** A RHEL based image without a layer of a base, with labels of its own
    that name a UBI image. *)
Definition labels_only_labels : json :=
  JObj [ ("name", JStr "ubi8-minimal"); ("version", JStr "8.9"); ("release", JNum 1018) ].

Definition labels_only_v1 : json :=
  JObj [ ("created", JStr "2024-01-01T00:00:00Z");
         ("layers", JArr [ layer "RUN" "microdnf install -y java-17-openjdk" ]);
         ("labels", labels_only_labels) ].

Definition labels_only_image : json :=
  JObj [ ("metadata", JObj [ ("v1", labels_only_v1) ]); ("scan", scan "rhel:8" []) ].

(** An image that is not RHEL based and has neither layers nor labels. *)
Definition alpine_image : json :=
  JObj [ ("metadata", JObj [ ("v1", JObj [ ("created", JStr "2024-01-01T00:00:00Z") ]) ]);
         ("scan", scan "alpine:v3.19" []) ].

(** One deployment with two containers; the detail of the second image
    cannot be fetched. *)
Definition second_image_fails_server : server :=
  fun _ req =>
    match req with
    | Get "/v1/deployments" =>
        ok (JObj [ ("deployments",
                    JArr [ deployment "c1" "ocps4 - uat" "payments" "d1" "api" ]) ])
    | Get "/v1/deployments/d1" =>
        ok (JObj [ ("containers", JArr [ container "sha256:1" "quay.io/acme/api:1";
                                         container "sha256:2" "quay.io/acme/proxy:7" ]) ])
    | Get "/v1/images/sha256:1" => ok ubi_image
    | _ => Fails
    end.

(** The same deployment; the detail of the first image is answered with
    status 204. *)
Definition first_image_unavailable_server : server :=
  fun _ req =>
    match req with
    | Get "/v1/deployments" =>
        ok (JObj [ ("deployments",
                    JArr [ deployment "c1" "ocps4 - uat" "payments" "d1" "api" ]) ])
    | Get "/v1/deployments/d1" =>
        ok (JObj [ ("containers", JArr [ container "sha256:1" "quay.io/acme/api:1";
                                         container "sha256:2" "quay.io/acme/proxy:7" ]) ])
    | Get "/v1/images/sha256:1" => Status 204 None
    | Get "/v1/images/sha256:2" => ok ubi_image
    | _ => Fails
    end.

(** One cluster with two nodes; the vulnerabilities of the first node
    cannot be fetched, the second vulnerability of the second node has no
    score. *)
Definition second_node_partial_server : server :=
  fun _ req =>
    match req with
    | Get "/v1/clusters" => ok (JObj [ ("clusters", JArr [ cluster "c1" "ocps4 - uat" ]) ])
    | Get "/v1/nodes/c1" =>
        ok (JObj [ ("nodes", JArr [ node "n1" "worker-1"; node "n2" "worker-2" ]) ])
    | GraphQl _ _ (JStr "n2") =>
        ok (JObj [ ("data", JObj [ ("result", JObj [
                     ("nodeVulnerabilities",
                      JArr [ node_vulnerability "CVE-2024-0002";
                             JObj [ ("cve", JStr "CVE-2024-0003") ];
                             node_vulnerability "CVE-2024-0004" ])
                   ]) ]) ])
    | _ => Fails
    end.

(** The state of the node pipeline when its file has been opened and the
    header written. *)
Definition open_node_state : NodePipeline.state :=
  {| NodePipeline.the_world :=
       {| calls := []; console := []; file := Some [NodePipeline.CSV_HEADER] |};
     NodePipeline.currentNodeIndex := 0 |}.

(** One deployment of one image with one vulnerability, whose score is the
    int 10^400. *)
Definition huge_score : json :=
  JObj [ ("cve", JStr "CVE-2024-0005"); ("severity", JStr "LOW_VULNERABILITY_SEVERITY");
         ("cvss", JNum (inject_Z (10 ^ 400))); ("cvssV3", JNull); ("publishedOn", JNull);
         ("firstSystemOccurrence", JStr "2024-01-01T00:00:00Z");
         ("link", JStr "https://access.redhat.com/security/cve"); ("summary", JStr "") ].

Definition huge_score_server : server :=
  fun _ req =>
    match req with
    | Get "/v1/deployments" =>
        ok (JObj [ ("deployments",
                    JArr [ deployment "c1" "ocps4 - uat" "payments" "d1" "api" ]) ])
    | Get "/v1/deployments/d1" =>
        ok (JObj [ ("containers", JArr [ container "sha256:1" "quay.io/acme/api:1" ]) ])
    | Get "/v1/images/sha256:1" =>
        ok (JObj [ ("scan", scan "rhel:8" [ huge_score ]) ])
    | _ => Fails
    end.

End Samples.

(* ================================================================== *)
(** * Properties *)

(** ** Strings and the matcher *)

Module StrFacts.

Lemma length_append (a b : string) :
  String.length (String.append a b) = String.length a + String.length b.
Proof. induction a as [|c a IH]; simpl; [reflexivity | now rewrite IH]. Qed.

Lemma take_append (a b : string) : Str.take (String.length a) (String.append a b) = a.
Proof. induction a as [|c a IH]; simpl; [now destruct b | now rewrite IH]. Qed.

Lemma consumed_append (a b : string) : Str.consumed (String.append a b) b = a.
Proof.
  unfold Str.consumed. rewrite length_append.
  replace (String.length a + String.length b - String.length b)
    with (String.length a) by lia.
  apply take_append.
Qed.

Lemma append_empty_r (a : string) : String.append a "" = a.
Proof. induction a as [|c a IH]; simpl; [reflexivity | now rewrite IH]. Qed.

Lemma head_append (p : ascii -> bool) (a b : string) :
  a <> "" -> Str.head_satisfies p (String.append a b) = Str.head_satisfies p a.
Proof. destruct a; [congruence | reflexivity]. Qed.

(** A run of one class does not begin with a character of a class
    disjoint from it. *)
Lemma run_head (p q : ascii -> bool) (a : string) :
  (forall c, p c = true -> q c = false) ->
  Str.all p a = true -> Str.head_satisfies q a = false.
Proof.
  intros Hpq. destruct a as [|c a]; simpl; [reflexivity|].
  unfold Str.all; simpl. intros H. apply andb_prop in H. now apply Hpq.
Qed.

Lemma word_not_separator (c : ascii) :
  Chars.word_no_underscore c = true -> Chars.nonword_or_underscore c = false.
Proof.
  unfold Chars.word_no_underscore, Chars.nonword_or_underscore.
  now destruct (negb (Chars.is_word c) || Ascii.eqb c Chars.underscore).
Qed.

Lemma separator_not_word (c : ascii) :
  Chars.nonword_or_underscore c = true -> Chars.word_no_underscore c = false.
Proof.
  unfold Chars.word_no_underscore, Chars.nonword_or_underscore.
  now destruct (negb (Chars.is_word c) || Ascii.eqb c Chars.underscore).
Qed.

End StrFacts.

Module ReFacts.

(** The greedy star takes a whole run when the rest of the pattern
    accepts what follows the run. *)
Lemma star_k_greedy (p : ascii -> bool) (k : string -> option captures)
      (a b : string) (m : captures) :
  Str.all p a = true ->
  Str.head_satisfies p b = false ->
  k b = Some m ->
  star_k p k (String.append a b) = Some m.
Proof.
  induction a as [|c a IH]; simpl; intros Ha Hb Hk.
  - destruct b as [|c b]; simpl in *; [assumption | now rewrite Hb].
  - unfold Str.all in Ha; simpl in Ha. apply andb_prop in Ha as [Hc Ha].
    rewrite Hc. now rewrite IH.
Qed.

Lemma plus_greedy (p : ascii -> bool) (k : cont) (caps : captures)
      (a b : string) (m : captures) :
  a <> "" ->
  Str.all p a = true ->
  Str.head_satisfies p b = false ->
  k b caps = Some m ->
  match_re (Plus p) (String.append a b) caps k = Some m.
Proof.
  destruct a as [|c a]; [congruence|]. intros _ Ha Hb Hk. simpl.
  unfold Str.all in Ha; simpl in Ha. apply andb_prop in Ha as [Hc Ha].
  rewrite Hc. now apply star_k_greedy.
Qed.

Lemma star_greedy (p : ascii -> bool) (k : cont) (caps : captures)
      (a b : string) (m : captures) :
  Str.all p a = true ->
  Str.head_satisfies p b = false ->
  k b caps = Some m ->
  match_re (Star p) (String.append a b) caps k = Some m.
Proof. intros. simpl. now apply star_k_greedy. Qed.

Lemma search_here (r : regex) (s : string) (m : captures) :
  match_here r s = Some m -> search r s = Some m.
Proof. intros H. destruct s; simpl; now rewrite H. Qed.

Lemma word_run_head (s t : string) :
  word_run s ->
  Str.head_satisfies Chars.nonword_or_underscore (String.append s t) = false.
Proof.
  intros [Hne Hall]. rewrite StrFacts.head_append by assumption.
  now apply (StrFacts.run_head Chars.word_no_underscore), Hall;
    apply StrFacts.word_not_separator.
Qed.

Lemma separator_run_head (s t : string) :
  separator_run s ->
  Str.head_satisfies Chars.word_no_underscore (String.append s t) = false.
Proof.
  intros [Hne Hall]. rewrite StrFacts.head_append by assumption.
  now apply (StrFacts.run_head Chars.nonword_or_underscore), Hall;
    apply StrFacts.separator_not_word.
Qed.

Lemma seq_eq (r1 r2 : regex) (s : string) (caps : captures) (k : cont) :
  match_re (Seq r1 r2) s caps k
  = match_re r1 s caps (fun s' caps' => match_re r2 s' caps' k).
Proof. reflexivity. Qed.

Lemma grp_eq (n : nat) (r : regex) (s : string) (caps : captures) (k : cont) :
  match_re (Grp n r) s caps k
  = match_re r s caps (fun s' caps' => k s' ((n, Str.consumed s s') :: caps')).
Proof. reflexivity. Qed.

Lemma opt_taken (r : regex) (s : string) (caps : captures) (k : cont) (m : captures) :
  match_re r s caps k = Some m -> match_re (Opt r) s caps k = Some m.
Proof. intros H. simpl. now rewrite H. Qed.

Lemma opt_at_end (p : ascii -> bool) (r : regex) (caps : captures) (k : cont) :
  match_re (Opt (Seq (Plus p) r)) "" caps k = k "" caps.
Proof. reflexivity. Qed.

Lemma eos_at_end (caps : captures) (k : cont) :
  match_re Eos "" caps k = k "" caps.
Proof. reflexivity. Qed.

Lemma consumed_all (s : string) : Str.consumed s "" = s.
Proof.
  rewrite <- (StrFacts.append_empty_r s) at 1. apply StrFacts.consumed_append.
Qed.

Ltac whole_run H :=
  match goal with
  | |- match_re (Plus _) ?s _ _ = _ =>
      rewrite <- (StrFacts.append_empty_r s);
      apply plus_greedy; [apply H | apply H | reflexivity | cbv beta]
  end.

Ltac run_then H Hnext :=
  apply plus_greedy; [apply H | apply H | apply Hnext | cbv beta].

Lemma match_name (name : string) :
  word_run name ->
  search CLUSTER_INFO_REGEX name = Some [(1, name)].
Proof.
  intros Hn. apply search_here. unfold match_here, CLUSTER_INFO_REGEX.
  rewrite seq_eq, grp_eq. whole_run Hn.
  rewrite consumed_all, seq_eq, opt_at_end. reflexivity.
Qed.

Lemma match_name_env (name sep1 env : string) :
  word_run name -> separator_run sep1 -> word_run env ->
  search CLUSTER_INFO_REGEX (String.append name (String.append sep1 env))
  = Some [(2, env); (1, name)].
Proof.
  intros Hn Hs He. apply search_here. unfold match_here, CLUSTER_INFO_REGEX.
  rewrite seq_eq, grp_eq. run_then Hn (separator_run_head sep1 env Hs).
  rewrite StrFacts.consumed_append, seq_eq. apply opt_taken.
  rewrite seq_eq.
  apply plus_greedy; [apply Hs | apply Hs | | cbv beta].
  { rewrite <- (StrFacts.append_empty_r env). now apply word_run_head. }
  rewrite seq_eq, grp_eq. whole_run He.
  rewrite consumed_all, opt_at_end. reflexivity.
Qed.

Lemma match_name_env_descriptor (name sep1 env sep2 d : string) :
  word_run name -> separator_run sep1 -> word_run env -> separator_run sep2 ->
  descriptor_text d ->
  search CLUSTER_INFO_REGEX
    (String.append name (String.append sep1 (String.append env (String.append sep2 d))))
  = Some [(3, d); (2, env); (1, name)].
Proof.
  intros Hn Hs1 He Hs2 [Hd1 Hd2]. apply search_here.
  unfold match_here, CLUSTER_INFO_REGEX.
  rewrite seq_eq, grp_eq.
  run_then Hn (separator_run_head sep1 (String.append env (String.append sep2 d)) Hs1).
  rewrite StrFacts.consumed_append, seq_eq. apply opt_taken.
  rewrite seq_eq. run_then Hs1 (word_run_head env (String.append sep2 d) He).
  rewrite seq_eq, grp_eq. run_then He (separator_run_head sep2 d Hs2).
  rewrite StrFacts.consumed_append. apply opt_taken.
  rewrite seq_eq.
  apply plus_greedy; [apply Hs2 | apply Hs2 | exact Hd2 | cbv beta].
  rewrite grp_eq.
  rewrite <- (StrFacts.append_empty_r d) at 1.
  apply star_greedy; [exact Hd1 | reflexivity | cbv beta].
  rewrite ?StrFacts.append_empty_r, consumed_all. reflexivity.
Qed.

End ReFacts.

(** ** The cluster label *)

Module ClusterLabel.

Import ReFacts.

Lemma image_label_of_match (raw : string) (m : captures) (before : option string) :
  search CLUSTER_INFO_REGEX raw = Some m ->
  ImagePipeline.parse_cluster_info (JStr raw) before
  = image_label (match group m 1 with Some s => Some s | None => before end)
                (match group m 2 with Some s => s | None => "" end)
                (match group m 3 with Some s => s | None => "" end).
Proof.
  intros H. unfold ImagePipeline.parse_cluster_info, Json.re_search, try_except, bind, pure.
  rewrite H. unfold ImagePipeline.assign_group.
  destruct (group m 1), (group m 2), (group m 3); reflexivity.
Qed.

Lemma node_label_of_match (raw : string) (m : captures) :
  search CLUSTER_INFO_REGEX raw = Some m ->
  NodePipeline.parse_cluster_info (JStr raw)
  = node_label (match group m 1 with Some s => JStr s | None => JStr raw end)
               (match group m 2 with Some s => s | None => "" end)
               (match group m 3 with Some s => s | None => "" end).
Proof.
  intros H. unfold NodePipeline.parse_cluster_info, Json.re_search, try_except, bind, pure.
  rewrite H. unfold NodePipeline.assign_group.
  destruct (group m 1), (group m 2), (group m 3); reflexivity.
Qed.

Lemma image_label_of_no_match (raw : json) (before : option string) :
  no_match raw ->
  ImagePipeline.parse_cluster_info raw before = image_label before "" "".
Proof.
  unfold no_match, ImagePipeline.parse_cluster_info, try_except, bind, pure.
  destruct (Json.re_search CLUSTER_INFO_REGEX raw) as [[m|]|e]; simpl;
    [contradiction | reflexivity | reflexivity].
Qed.

Lemma node_label_of_no_match (raw : json) :
  no_match raw ->
  NodePipeline.parse_cluster_info raw = node_label raw "" "".
Proof.
  unfold no_match, NodePipeline.parse_cluster_info, try_except, bind, pure.
  destruct (Json.re_search CLUSTER_INFO_REGEX raw) as [[m|]|e]; simpl;
    [contradiction | reflexivity | reflexivity].
Qed.

(** C1, as amended.  A raw cluster string of one of the shapes name,
    name sep env, name sep env sep descriptor, where name and env are runs
    of word characters other than the underscore, each sep is a run of
    non-word characters or underscores, and the descriptor holds no newline
    and starts after the whole separator run, parses to (name, env,
    descriptor) in both programs, the groups that did not take part left
    empty; the descriptor is returned whole, with its separators. *)
Theorem cluster_label_of_shape (name sep1 env sep2 d : string) (before : option string) :
  word_run name -> separator_run sep1 -> word_run env -> separator_run sep2 ->
  descriptor_text d ->
  let two := String.append name (String.append sep1 env) in
  let three :=
    String.append name (String.append sep1 (String.append env (String.append sep2 d))) in
  ImagePipeline.parse_cluster_info (JStr name) before = image_label (Some name) "" ""
  /\ ImagePipeline.parse_cluster_info (JStr two) before = image_label (Some name) env ""
  /\ ImagePipeline.parse_cluster_info (JStr three) before = image_label (Some name) env d
  /\ NodePipeline.parse_cluster_info (JStr name) = node_label (JStr name) "" ""
  /\ NodePipeline.parse_cluster_info (JStr two) = node_label (JStr name) env ""
  /\ NodePipeline.parse_cluster_info (JStr three) = node_label (JStr name) env d.
Proof.
  intros Hn Hs1 He Hs2 Hd two three.
  pose proof (match_name name Hn) as H1.
  pose proof (match_name_env name sep1 env Hn Hs1 He) as H2.
  pose proof (match_name_env_descriptor name sep1 env sep2 d Hn Hs1 He Hs2 Hd) as H3.
  repeat split.
  - now rewrite (image_label_of_match _ _ _ H1).
  - subst two. now rewrite (image_label_of_match _ _ _ H2).
  - subst three. now rewrite (image_label_of_match _ _ _ H3).
  - now rewrite (node_label_of_match _ _ H1).
  - subst two. now rewrite (node_label_of_match _ _ H2).
  - subst three. now rewrite (node_label_of_match _ _ H3).
Qed.

(** The three labels of the comment above the pattern. *)
Lemma cluster_label_of_shape_witness :
  ImagePipeline.parse_cluster_info (JStr "ocps4") None = image_label (Some "ocps4") "" ""
  /\ ImagePipeline.parse_cluster_info (JStr "ocps4 - uat") None
     = image_label (Some "ocps4") "uat" ""
  /\ ImagePipeline.parse_cluster_info (JStr "ocps4 - uat_abc_def123") None
     = image_label (Some "ocps4") "uat" "abc_def123"
  /\ NodePipeline.parse_cluster_info (JStr "ocps4") = node_label (JStr "ocps4") "" ""
  /\ NodePipeline.parse_cluster_info (JStr "ocps4 - uat") = node_label (JStr "ocps4") "uat" ""
  /\ NodePipeline.parse_cluster_info (JStr "ocps4 - uat_abc_def123")
     = node_label (JStr "ocps4") "uat" "abc_def123".
Proof.
  apply (cluster_label_of_shape "ocps4" " - " "uat" "_" "abc_def123" None);
    split; solve [discriminate | reflexivity].
Defined.

(** A descriptor with a newline in it is not returned whole: the match
    starts further right and the three fields are other ones.  A descriptor
    that begins with a separator loses it to the separator run before
    it. *)
Lemma descriptor_with_newline_is_resplit :
  let d := String.append "c" (String Chars.newline "d") in
  let raw := String.append "a" (String.append "-" (String.append "b" (String.append "-" d))) in
  word_run "a" /\ separator_run "-" /\ word_run "b"
  /\ ImagePipeline.parse_cluster_info (JStr raw) None = image_label (Some "b") "c" "d"
  /\ ImagePipeline.parse_cluster_info (JStr raw) None <> image_label (Some "a") "b" d
  /\ NodePipeline.parse_cluster_info (JStr raw) = node_label (JStr "b") "c" "d"
  /\ NodePipeline.parse_cluster_info (JStr raw) <> node_label (JStr "a") "b" d
  /\ ImagePipeline.parse_cluster_info (JStr "a-b--c") None = image_label (Some "a") "b" "c"
  /\ ImagePipeline.parse_cluster_info (JStr "a-b--c") None <> image_label (Some "a") "b" "-c".
Proof.
  repeat split; solve [discriminate | reflexivity].
Qed.

End ClusterLabel.

(** ** The monad *)

Module MonadFacts.

Lemma bind_ok {S A B : Type} (m : M S A) (k : A -> M S B) (s s' : S) (b : B) :
  bind m k s = (Ok b, s') ->
  exists a s1, m s = (Ok a, s1) /\ k a s1 = (Ok b, s').
Proof.
  unfold bind. destruct (m s) as [[a|e] s1]; intros H; [eauto | discriminate].
Qed.

Lemma pure_ok {S A : Type} (r : result A) (s s' : S) (a : A) :
  pure r s = (Ok a, s') -> r = Ok a /\ s' = s.
Proof. unfold pure. intros H. now inversion H. Qed.

Lemma zoom_eq {S T A : Type} (proj : S -> T) (inj : T -> S -> S) (m : M T A) (s : S) :
  zoom proj inj m s = (fst (m (proj s)), inj (snd (m (proj s))) s).
Proof. unfold zoom. now destruct (m (proj s)). Qed.

Lemma bind_pure {S A B : Type} (r : result A) (a : A) (k : A -> M S B) (s : S) :
  r = Ok a -> bind (pure r) k s = k a s.
Proof. intros ->. reflexivity. Qed.

Lemma bind_get {S B : Type} (k : S -> M S B) (s : S) : bind get k s = k s s.
Proof. reflexivity. Qed.

Lemma bind_modify {S B : Type} (f : S -> S) (k : unit -> M S B) (s : S) :
  bind (modify f) k s = k tt (f s).
Proof. reflexivity. Qed.

Lemma bind_returns {S A B : Type} (m : M S A) (k : A -> M S B) (s : S) (a : A) :
  fst (m s) = Ok a -> bind m k s = k a (snd (m s)).
Proof. unfold bind. destruct (m s) as [r s1]. simpl. now intros ->. Qed.

Lemma for_each_raises {S X : Type} (x : X) (l : list X) (body : X -> M S unit) (s : S)
      (e : exn) :
  fst (body x s) = Raise e -> fst (for_each (x :: l) body s) = Raise e.
Proof. simpl. unfold bind. destruct (body x s) as [[u|e'] s1]; simpl; congruence. Qed.

(** A try block whose handler only prints does not raise. *)
Lemma try_print_returns {S : Type} (m : M S unit) (h : exn -> M S unit) (s : S) :
  (forall e s1, fst (h e s1) = Ok tt) -> fst (try_except m h s) = Ok tt.
Proof.
  intros Hh. unfold try_except. destruct (m s) as [[[]|e] s1]; [reflexivity | apply Hh].
Qed.

Section Preserves.

Context {S : Type} (P : S -> Prop).

Lemma preserves_ret {A : Type} (a : A) : preserves P (ret a).
Proof. now intros s H. Qed.

Lemma preserves_raise {A : Type} (e : exn) : preserves P (@raise S A e).
Proof. now intros s H. Qed.

Lemma preserves_pure {A : Type} (r : result A) : preserves P (pure r).
Proof. now intros s H. Qed.

Lemma preserves_get : preserves P get.
Proof. now intros s H. Qed.

Lemma preserves_modify (f : S -> S) :
  (forall s, P s -> P (f s)) -> preserves P (modify f).
Proof. intros Hf s H. now apply Hf. Qed.

Lemma preserves_bind {A B : Type} (m : M S A) (k : A -> M S B) :
  preserves P m -> (forall a, preserves P (k a)) -> preserves P (bind m k).
Proof.
  intros Hm Hk s H. unfold bind. specialize (Hm s H).
  destruct (m s) as [[a|e] s1]; simpl in Hm; [now apply Hk | assumption].
Qed.

Lemma preserves_try_except {A : Type} (m : M S A) (h : exn -> M S A) :
  preserves P m -> (forall e, preserves P (h e)) -> preserves P (try_except m h).
Proof.
  intros Hm Hh s H. unfold try_except. specialize (Hm s H).
  destruct (m s) as [[a|e] s1]; simpl in Hm; [assumption | now apply Hh].
Qed.

Lemma preserves_try_finally {A : Type} (m : M S A) (f : M S unit) :
  preserves P m -> preserves P f -> preserves P (try_finally m f).
Proof.
  intros Hm Hf s H. unfold try_finally. specialize (Hm s H).
  destruct (m s) as [r s1]; simpl in Hm. specialize (Hf s1 Hm).
  now destruct (f s1) as [[u|e] s2].
Qed.

Lemma preserves_for_each {X : Type} (l : list X) (body : X -> M S unit) :
  (forall x, In x l -> preserves P (body x)) -> preserves P (for_each l body).
Proof.
  induction l as [|x l IH]; intros Hb; simpl.
  - apply preserves_ret.
  - apply preserves_bind; [apply Hb; now left|].
    intros _. apply IH. intros y Hy. apply Hb. now right.
Qed.

(** A computation on a part of the state that the property does not
    read. *)
Lemma preserves_zoom_out {T A : Type} (proj : S -> T) (inj : T -> S -> S) (m : M T A) :
  (forall t s, P s -> P (inj t s)) -> preserves P (zoom proj inj m).
Proof. intros Hi s H. rewrite zoom_eq. now apply Hi. Qed.

(** A computation on the part of the state that the property reads. *)
Lemma preserves_zoom_in {T A : Type} (Q : T -> Prop)
      (proj : S -> T) (inj : T -> S -> S) (m : M T A) :
  (forall s, P s -> Q (proj s)) ->
  (forall t s, Q t -> P (inj t s)) ->
  preserves Q m -> preserves P (zoom proj inj m).
Proof. intros Hp Hi Hm s H. rewrite zoom_eq. apply Hi, Hm, Hp, H. Qed.

(** The continuation of a pure step knows what the step returned. *)
Lemma preserves_bind_pure {A B : Type} (r : result A) (k : A -> M S B) :
  (forall a, r = Ok a -> preserves P (k a)) -> preserves P (bind (pure r) k).
Proof.
  intros Hk s H. unfold bind, pure. destruct r as [a|e]; [now apply Hk | exact H].
Qed.

End Preserves.

(** The steps that need no thought. *)
Ltac preserve_step :=
  first
    [ apply preserves_ret
    | apply preserves_raise
    | apply preserves_pure
    | apply preserves_get
    | apply preserves_bind; [|intro]
    | apply preserves_try_except; [|intro]
    | apply preserves_try_finally
    | apply preserves_for_each; intros ? ?
    | match goal with
      | |- preserves _ (if ?b then _ else _) => destruct b
      | |- preserves _ (match ?x with _ => _ end) => destruct x
      end ].

Ltac preserve := repeat preserve_step.

(** The steps on a part of the state that the property does not read. *)
Ltac untouched :=
  first
    [ apply preserves_zoom_out; let H := fresh in intros ? ? H; exact H
    | apply preserves_modify; let H := fresh in intros ? H; exact H ].

(** From a bind that returned to its two halves. *)
Ltac bind_inv H :=
  let a := fresh "a" in
  let s1 := fresh "v" in
  let H1 := fresh "E" in
  apply bind_ok in H; destruct H as (a & s1 & H1 & H).


End MonadFacts.

(** ** Dictionaries and lists without duplicates *)

Module DictFacts.

Lemma mem_false (x : json) (l : list json) :
  Json.mem x l = false <-> Forall (fun y => Json.eqb y x = false) l.
Proof.
  unfold Json.mem. induction l as [|y l IH]; simpl.
  - split; [constructor | reflexivity].
  - rewrite orb_false_iff, IH. split.
    + intros [H1 H2]. now constructor.
    + intros H. now inversion H.
Qed.

Lemma distinct_snoc (x : json) (l : list json) :
  distinct l -> Json.mem x l = false -> distinct (l ++ [x]).
Proof.
  induction l as [|y l IH]; simpl; intros Hd Hm.
  - split; [constructor | exact I].
  - destruct Hd as [Hy Hd]. unfold Json.mem in Hm. simpl in Hm.
    apply orb_false_iff in Hm as [Hyx Hm]. split.
    + apply Forall_app. split; [assumption | now constructor].
    + now apply IH.
Qed.

(** For strings this is the absence of duplicates. *)
Lemma distinct_strings (l : list string) : distinct (map JStr l) -> NoDup l.
Proof.
  induction l as [|x l IH]; simpl; intros H; [constructor|].
  destruct H as [Hx Hl]. constructor; [|now apply IH].
  intros Hin. rewrite Forall_forall in Hx.
  specialize (Hx (JStr x) (in_map JStr l x Hin)). simpl in Hx.
  now rewrite String.eqb_refl in Hx.
Qed.

Lemma append_if_absent_distinct (x : json) (l : list json) :
  distinct l -> distinct (ImagePipeline.append_if_absent x l).
Proof.
  intros Hd. unfold ImagePipeline.append_if_absent.
  destruct (Json.mem x l) eqn:Hm; [assumption | now apply distinct_snoc].
Qed.

Lemma append_if_absent_once (x : json) (l : list json) :
  appended_once x l (ImagePipeline.append_if_absent x l).
Proof.
  unfold appended_once, ImagePipeline.append_if_absent.
  destruct (Json.mem x l); [now left | now right].
Qed.

Section Dicts.

Context {V : Type}.

Lemma mem_keys (k : json) (d : Dict.dict V) :
  Dict.mem k d = Json.mem k (Dict.keys d).
Proof.
  unfold Dict.mem, Json.mem. induction d as [|[k' v] d IH]; simpl; [reflexivity|].
  destruct (Json.eqb k' k); simpl; [reflexivity | exact IH].
Qed.

Lemma keys_set (k : json) (v : V) (d : Dict.dict V) :
  Dict.keys (Dict.set k v d) = if Dict.mem k d then Dict.keys d else Dict.keys d ++ [k].
Proof.
  unfold Dict.mem. induction d as [|[k' v'] d IH]; simpl; [reflexivity|].
  destruct (Json.eqb k' k); simpl; [reflexivity|].
  rewrite IH. now destruct (Dict.get k d).
Qed.

Lemma distinct_keys_set (k : json) (v : V) (d : Dict.dict V) :
  distinct (Dict.keys d) -> distinct (Dict.keys (Dict.set k v d)).
Proof.
  intros Hd. rewrite keys_set. destruct (Dict.mem k d) eqn:Hm; [assumption|].
  apply distinct_snoc; [assumption | now rewrite <- mem_keys].
Qed.

Lemma Forall_set (P : V -> Prop) (k : json) (v : V) (d : Dict.dict V) :
  Forall (fun kv => P (snd kv)) d -> P v ->
  Forall (fun kv => P (snd kv)) (Dict.set k v d).
Proof.
  intros Hd Hv. induction d as [|[k' v'] d IH]; simpl.
  - now constructor.
  - inversion Hd; subst. destruct (Json.eqb k' k); constructor; auto.
Qed.

Lemma Forall_get (P : V -> Prop) (k : json) (v : V) (d : Dict.dict V) :
  Forall (fun kv => P (snd kv)) d -> Dict.get k d = Some v -> P v.
Proof.
  intros Hd. induction d as [|[k' v'] d IH]; simpl; [discriminate|].
  inversion Hd; subst. destruct (Json.eqb k' k); [|now apply IH].
  intros H. now inversion H; subst.
Qed.

Lemma get_set_present (k : json) (v x : V) (d : Dict.dict V) :
  Dict.get k d = Some x -> Dict.get k (Dict.set k v d) = Some v.
Proof.
  induction d as [|[k' v'] d IH]; simpl; [discriminate|].
  destruct (Json.eqb k' k) eqn:E; simpl; rewrite E; [reflexivity | exact IH].
Qed.

Lemma hashable_eqb_refl (k : json) : Json.hashable k = true -> Json.eqb k k = true.
Proof.
  destruct k; simpl; try discriminate; intros _.
  - reflexivity.
  - now destruct b.
  - apply Qeq_bool_iff. reflexivity.
  - apply String.eqb_refl.
Qed.

Lemma get_set_absent (k : json) (v : V) (d : Dict.dict V) :
  Json.hashable k = true -> Dict.get k d = None ->
  Dict.get k (Dict.set k v d) = Some v.
Proof.
  intros Hk. induction d as [|[k' v'] d IH]; simpl.
  - now rewrite hashable_eqb_refl.
  - destruct (Json.eqb k' k) eqn:E; simpl; [discriminate|]. now rewrite E.
Qed.

Lemma get_set_same (k : json) (v : V) (d : Dict.dict V) :
  Json.hashable k = true -> Dict.get k (Dict.set k v d) = Some v.
Proof.
  intros Hk. destruct (Dict.get k d) eqn:E;
    [eapply get_set_present; eassumption | now apply get_set_absent].
Qed.

End Dicts.

End DictFacts.

(** ** The aggregation of the image pipeline *)

Module Aggregation.

Import ImagePipeline MonadFacts DictFacts.

Lemma new_CveDetail_ok : cve_ok new_CveDetail.
Proof. split; exact I. Qed.

Lemma merge_cve_keys (namespace imageFullName cveId cve_record : json)
      (details : Dict.dict CveDetail) :
  distinct (Dict.keys details) ->
  distinct (Dict.keys (merge_cve namespace imageFullName cveId cve_record details)).
Proof.
  intros Hd. unfold merge_cve.
  set (details1 := if Dict.mem cveId details then details
                   else Dict.set cveId new_CveDetail details).
  assert (H1 : distinct (Dict.keys details1)).
  { subst details1. destruct (Dict.mem cveId details);
      [assumption | now apply distinct_keys_set]. }
  destruct (Dict.get cveId details1); [now apply distinct_keys_set | assumption].
Qed.

Lemma merge_cve_records (namespace imageFullName cveId cve_record : json)
      (details : Dict.dict CveDetail) :
  Forall (fun kv => cve_ok (snd kv)) details ->
  Forall (fun kv => cve_ok (snd kv))
         (merge_cve namespace imageFullName cveId cve_record details).
Proof.
  intros Hd. unfold merge_cve.
  set (details1 := if Dict.mem cveId details then details
                   else Dict.set cveId new_CveDetail details).
  assert (H1 : Forall (fun kv => cve_ok (snd kv)) details1).
  { subst details1. destruct (Dict.mem cveId details); [assumption|].
    apply Forall_set; [assumption | exact new_CveDetail_ok]. }
  destruct (Dict.get cveId details1) as [r|] eqn:E; [|assumption].
  apply Forall_set; [assumption|].
  destruct (Forall_get cve_ok _ _ _ H1 E) as [Hn Hi].
  split; simpl; now apply append_if_absent_distinct.
Qed.

Lemma merge_cve_ok (namespace imageFullName cveId cve_record : json) (c : ClusterDetail) :
  cluster_ok c ->
  cluster_ok (set_cveDetails
                (merge_cve namespace imageFullName cveId cve_record (cveDetails c)) c).
Proof.
  intros [Hk Hr]. split; simpl; [now apply merge_cve_keys | now apply merge_cve_records].
Qed.

(** After the merge the CVE has its record, with the latest vulnerability
    and with the namespace and the image appended once. *)
Lemma merge_cve_record (namespace imageFullName cveId cve_record : json)
      (details : Dict.dict CveDetail) :
  Json.hashable cveId = true ->
  Dict.get cveId (merge_cve namespace imageFullName cveId cve_record details)
  = Some {| cve := cve_record;
            namespaces := append_if_absent namespace (tracked namespaces cveId details);
            images := append_if_absent imageFullName (tracked images cveId details) |}.
Proof.
  intros Hk. unfold merge_cve, tracked, Dict.mem.
  destruct (Dict.get cveId details) as [r|] eqn:E.
  - rewrite E. eapply get_set_present; eassumption.
  - rewrite (get_set_absent _ _ _ Hk E). now apply get_set_same.
Qed.

Lemma update_cluster_ok (key : json) (f : ClusterDetail -> ClusterDetail)
      (d : Dict.dict ClusterDetail) :
  (forall c, cluster_ok c -> cluster_ok (f c)) ->
  aggregate_ok d -> aggregate_ok (update_cluster key f d).
Proof.
  intros Hf [Hk Hc]. unfold update_cluster.
  destruct (Dict.get key d) as [c|] eqn:E; [|now split].
  split; [now apply distinct_keys_set|].
  apply Forall_set; [assumption|]. apply Hf. exact (Forall_get cluster_ok _ _ _ Hc E).
Qed.

Ltac aggregate := repeat first [ preserve_step | untouched ].

(** The same, with a lemma for the computations already dealt with. *)
Ltac aggregate_by lem := repeat first [ apply lem | preserve_step | untouched ].

Lemma merge_vulnerability_ok (key namespace imageFullName cve_record : json) :
  preserves state_ok (merge_vulnerability key namespace imageFullName cve_record).
Proof.
  unfold merge_vulnerability. aggregate.
  apply preserves_modify. intros s H. unfold state_ok; simpl.
  apply update_cluster_ok; [|exact H]. intros c. apply merge_cve_ok.
Qed.

Lemma extract_cves_ok (key namespace imageFullName : json) :
  preserves state_ok (extract_cves key namespace imageFullName).
Proof. unfold extract_cves. aggregate_by merge_vulnerability_ok. Qed.

Lemma inspect_image_ok (api : server) (key namespace imageFullName imageId : json) :
  preserves state_ok (inspect_image api key namespace imageFullName imageId).
Proof.
  unfold inspect_image, image_detail, image_error, getJsonFromRhacsApi, in_world, in_vars.
  aggregate_by extract_cves_ok.
Qed.

Lemma fresh_cluster_ok (key : json) (d : Dict.dict ClusterDetail) :
  aggregate_ok d -> aggregate_ok (Dict.set key (set_clusterId key new_ClusterDetail) d).
Proof.
  intros [Hk Hc]. split; [now apply distinct_keys_set|].
  apply Forall_set; [assumption|]. split; [exact I | constructor].
Qed.

Lemma register_cluster_ok (key : json) (l : label) :
  preserves state_ok (register_cluster key l).
Proof.
  unfold register_cluster. aggregate;
    apply preserves_modify; intros st Hst; unfold state_ok; simpl;
    solve [ now apply fresh_cluster_ok
          | apply update_cluster_ok; [now intros c | exact Hst] ].
Qed.

Lemma inspect_deployment_ok (api : server) (deploymentCount : nat) (deployment : json) :
  preserves state_ok (inspect_deployment api deploymentCount deployment).
Proof.
  unfold inspect_deployment, deployment_detail, inspect_container, getJsonFromRhacsApi,
    in_world.
  repeat first [ apply register_cluster_ok | apply inspect_image_ok
               | preserve_step | untouched ].
Qed.

Lemma collect_ok (api : server) : preserves state_ok (collect api).
Proof.
  unfold collect, inspect_all, getJsonFromRhacsApi, in_world.
  aggregate_by inspect_deployment_ok.
Qed.

Lemma write_report_ok : preserves state_ok write_report.
Proof.
  unfold write_report, write_key, write_cluster, write_cve, cve_row, in_world. aggregate.
Qed.

Lemma main_ok (api : server) : preserves state_ok (main api).
Proof.
  unfold main, in_world.
  repeat first [ apply collect_ok | apply write_report_ok | preserve_step | untouched ].
Qed.

(** What a merge does to the cluster it is made in. *)
Lemma merge_vulnerability_cluster (key namespace imageFullName cve_record cveId : json)
      (s : state) (c : ClusterDetail) :
  getitem cve_record "cve" = Ok cveId ->
  Json.hashable cveId = true ->
  Dict.get key (cvesByCluster s) = Some c ->
  Dict.get key
    (cvesByCluster (snd (merge_vulnerability key namespace imageFullName cve_record s)))
  = Some (set_cveDetails
            (merge_cve namespace imageFullName cveId cve_record (cveDetails c)) c).
Proof.
  intros Hid Hh Hc. unfold merge_vulnerability.
  rewrite (bind_pure _ _ _ _ Hid), Hh. unfold bind, ret, modify. simpl.
  unfold update_cluster. rewrite Hc. now apply (get_set_present _ _ c).
Qed.

(** C5.  The aggregate of the image pipeline is well formed in every state
    the aggregation reaches: the clusters and, in each of them, the CVE
    identifiers are keys without duplicates, so an identifier has one
    record, and the namespaces and the images of a record hold no entry
    twice.  The empty aggregate is well formed; the registration of a
    cluster, every merge of a vulnerability, the inspection of an image and
    of a deployment, and a whole run keep the aggregate well formed,
    whether they return or raise.  A merge into a registered cluster leaves
    the label of the cluster as it was and the CVE with one record, which
    holds the vulnerability just seen and whose namespaces and images are
    those recorded before, in their order, with the current namespace and
    image full name put at the end when they were absent. *)
Theorem aggregation_invariant (api : server) (count : nat) (l : label)
        (deployment key namespace imageFullName imageId cve_record cveId : json)
        (s : state) :
  aggregate_ok (cvesByCluster s) ->
  getitem cve_record "cve" = Ok cveId ->
  Json.hashable cveId = true ->
  aggregate_ok (cvesByCluster state0)
  /\ aggregate_ok (cvesByCluster (snd (register_cluster key l s)))
  /\ aggregate_ok
       (cvesByCluster (snd (merge_vulnerability key namespace imageFullName cve_record s)))
  /\ aggregate_ok
       (cvesByCluster (snd (inspect_image api key namespace imageFullName imageId s)))
  /\ aggregate_ok (cvesByCluster (snd (inspect_deployment api count deployment s)))
  /\ aggregate_ok (cvesByCluster (snd (main api s)))
  /\ aggregate_ok (cvesByCluster (snd (run api)))
  /\ forall c,
       Dict.get key (cvesByCluster s) = Some c ->
       exists c' r,
         Dict.get key
           (cvesByCluster (snd (merge_vulnerability key namespace imageFullName cve_record s)))
         = Some c'
         /\ labels_of c' = labels_of c
         /\ Dict.get cveId (cveDetails c') = Some r
         /\ cve r = cve_record
         /\ appended_once namespace (tracked namespaces cveId (cveDetails c)) (namespaces r)
         /\ appended_once imageFullName (tracked images cveId (cveDetails c)) (images r).
Proof.
  intros Hs Hid Hh.
  assert (H0 : state_ok state0) by (split; [exact I | constructor]).
  split; [exact H0|].
  split; [exact (register_cluster_ok key l s Hs)|].
  split; [exact (merge_vulnerability_ok key namespace imageFullName cve_record s Hs)|].
  split; [exact (inspect_image_ok api key namespace imageFullName imageId s Hs)|].
  split; [exact (inspect_deployment_ok api count deployment s Hs)|].
  split; [exact (main_ok api s Hs)|].
  split; [exact (main_ok api state0 H0)|].
  intros c Hc. do 2 eexists.
  split; [exact (merge_vulnerability_cluster _ _ _ _ _ s c Hid Hh Hc)|].
  split; [reflexivity|].
  split; [simpl; now apply merge_cve_record|].
  simpl. repeat split; apply append_if_absent_once.
Qed.

End Aggregation.

(** ** UBI metadata *)

Module Ubi.

Import ImagePipeline MonadFacts.

(** After the gate of lines 219 to 222 the name starts with the prefix or
    the three fields are empty, whatever they held before it. *)
Lemma gate (v v' : image_vars) :
  (is_ubi <- pure (obj_startswith (ubiName v) UBI_PREFIX) ;;
   if negb is_ubi then
     modify (fun v => {| createdOn := createdOn v; os := os v; ubiName := Obj (JStr "");
                         ubiVersion := JStr ""; ubiRelease := JStr "" |})
   else ret tt) v = (Ok tt, v') ->
  all_or_nothing v'.
Proof.
  intros H. bind_inv H. apply pure_ok in E as [E ->].
  destruct a; simpl in H; inversion H; subst; clear H.
  - left. unfold obj_startswith in E. destruct (ubiName v') as [j| |]; try discriminate.
    destruct j; try discriminate. simpl in E. inversion E. eauto.
  - right. repeat split.
Qed.

Lemma resolve_metadata_all_or_nothing (responseJson : json) (v v' : image_vars) :
  ubi_empty v ->
  resolve_metadata responseJson v = (Ok tt, v') ->
  all_or_nothing v'.
Proof.
  intros (Hn & Hv & Hr) H. unfold resolve_metadata in H.
  do 8 bind_inv H.
  repeat match goal with
         | E : pure _ _ = (Ok _, _) |- _ => apply pure_ok in E as [? ->]
         | E : modify _ _ = (Ok _, _) |- _ => inversion E; subst; clear E
         end.
  destruct a6.
  - do 6 bind_inv H.
    repeat match goal with
           | E : get _ = (Ok _, _) |- _ => inversion E; subst; clear E
           end.
    now apply gate in H.
  - inversion H; subst. right. now simpl.
Qed.

(** C6.  When the inner try block of an image ends without an exception,
    the three UBI fields are all or nothing: the name starts with the
    prefix ubi, or the name, the version and the release are all the empty
    string.  This covers the image whose detail could not be had, the image
    that is not RHEL based and the image whose resolved name fails the
    gate. *)
Theorem ubi_fields_all_or_nothing (api : server) (imageId : json) (s s' : state) :
  vars s = image_vars0 ->
  image_detail api imageId s = (Ok tt, s') ->
  all_or_nothing (vars s').
Proof.
  intros Hv H. unfold image_detail in H.
  do 3 bind_inv H.
  apply pure_ok in E as [_ ->].
  unfold getJsonFromRhacsApi, in_world in E0. rewrite zoom_eq in E0.
  inversion E0; subst; clear E0. inversion E1; subst; clear E1.
  destruct (Json.is_none _).
  - inversion H; subst. simpl. rewrite Hv. right. now repeat split.
  - unfold in_vars in H. rewrite zoom_eq in H. inversion H; subst; clear H.
    simpl in *.
    match goal with
    | H : fst (resolve_metadata ?j ?v) = Ok tt |- all_or_nothing (snd ?r) =>
        destruct r as [r0 v'] eqn:Er; simpl in *; subst r0;
        eapply (resolve_metadata_all_or_nothing j v v'); [|exact Er]
    end.
    rewrite Hv. now repeat split.
Qed.

End Ubi.

Module UbiFailures.

Import ImagePipeline MonadFacts.

(** The image of the sample deployment is a UBI image. *)
Lemma ubi_fields_all_or_nothing_witness :
  all_or_nothing
    (vars (snd (image_detail Samples.ubi_server (JStr "sha256:1")
                  (set_vars image_vars0 (Samples.at_first_image Samples.ubi_server))))).
Proof.
  apply (Ubi.ubi_fields_all_or_nothing Samples.ubi_server (JStr "sha256:1")
           (set_vars image_vars0 (Samples.at_first_image Samples.ubi_server)));
    reflexivity.
Defined.

(** C2, the code at the failing input.  The image has no LABEL layer with
    the UBI marker and its labels have a [url] key whose value the pattern
    matches with (ubi8, 8.4, 206); the resolver does not look at it, takes
    the discrete labels and, the name not being a UBI one, ends with the
    three fields empty. *)
Lemma url_label_is_not_consulted :
  (forall labels, hasattr_url labels = false)
  /\ Json.re_search UBI_REGEX (JStr Samples.ubi_url)
     = Ok (Some [(3, "206"); (2, "8.4"); (1, "ubi8")])
  /\ resolve_metadata Samples.url_labelled_image image_vars0
     = (Ok tt, {| createdOn := JStr "2024-01-01T00:00:00Z"; os := Obj (JStr "rhel:8");
                  ubiName := Obj (JStr ""); ubiVersion := JStr "";
                  ubiRelease := JStr "" |}).
Proof. repeat split. Qed.

Lemma extract_cves_keeps_vars (key namespace imageFullName : json) (v : image_vars) :
  preserves (fun s => vars s = v) (extract_cves key namespace imageFullName).
Proof.
  unfold extract_cves, merge_vulnerability.
  repeat first [ preserve_step
               | apply preserves_modify; let H := fresh in intros ? H; exact H ].
Qed.

Lemma image_error_returns (imageFullName : json) (ex : exn) (s : state) :
  fst (image_error imageFullName ex s) = Ok tt.
Proof. unfold image_error, bind, in_vars, in_world. rewrite !zoom_eq. reflexivity. Qed.

(** C7.  When the inner try block of an image raises, whatever the
    exception, the handler runs: the local [os] holds the type of the
    exception, and [responseJson] and the aggregate are as the try block
    left them.  Then the [finally] block runs: what the image step returns
    or raises, and the state it leaves, are those of the CVE extraction
    from [responseJson] in that state, so the extraction is not skipped;
    [os] still holds the type of the exception afterwards. *)
Theorem image_failure_still_extracts (api : server)
        (key namespace imageFullName imageId : json) (s s1 : state) (ex : exn) :
  image_detail api imageId (set_vars image_vars0 s) = (Raise ex, s1) ->
  let s2 := snd (image_error imageFullName ex s1) in
  inspect_image api key namespace imageFullName imageId s
  = extract_cves key namespace imageFullName s2
  /\ os (vars s2) = ExnType ex
  /\ var_responseJson s2 = var_responseJson s1
  /\ cvesByCluster s2 = cvesByCluster s1
  /\ os (vars (snd (inspect_image api key namespace imageFullName imageId s))) = ExnType ex.
Proof.
  intros H s2.
  assert (Hrun : inspect_image api key namespace imageFullName imageId s
                 = extract_cves key namespace imageFullName s2).
  { unfold inspect_image, bind, modify, try_finally, try_except. rewrite H.
    subst s2. rewrite (surjective_pairing (image_error imageFullName ex s1)).
    rewrite image_error_returns. simpl.
    match goal with |- context [extract_cves ?a ?b ?c ?st] =>
      destruct (extract_cves a b c st) as [[[]|e] s3] end; reflexivity. }
  assert (Hos : os (vars s2) = ExnType ex).
  { subst s2. unfold image_error, bind, in_vars, in_world. rewrite !zoom_eq. reflexivity. }
  split; [exact Hrun|]. split; [exact Hos|].
  split; [subst s2; unfold image_error, bind, in_vars, in_world;
          rewrite !zoom_eq; reflexivity|].
  split; [subst s2; unfold image_error, bind, in_vars, in_world;
          rewrite !zoom_eq; reflexivity|].
  rewrite Hrun.
  pose proof (extract_cves_keeps_vars key namespace imageFullName (vars s2) s2 eq_refl) as Hk.
  simpl in Hk. now rewrite Hk.
Qed.

(** The image detail of the sample has no metadata: the try block raises
    [KeyError], and the CVE of the scan reaches the aggregate. *)
Lemma image_failure_still_extracts_witness :
  let s := Samples.at_first_image Samples.no_metadata_server in
  let r := inspect_image Samples.no_metadata_server (JStr "c1") (JStr "payments")
             (JStr "quay.io/acme/api:1") (JStr "sha256:1") s in
  os (vars (snd r)) = ExnType KeyError
  /\ option_map (fun c => Dict.keys (cveDetails c))
       (Dict.get (JStr "c1") (cvesByCluster (snd r)))
     = Some [JStr "CVE-2024-0001"].
Proof.
  intros s r.
  destruct (image_failure_still_extracts Samples.no_metadata_server
              (JStr "c1") (JStr "payments") (JStr "quay.io/acme/api:1") (JStr "sha256:1")
              s (snd (image_detail Samples.no_metadata_server (JStr "sha256:1")
                        (set_vars image_vars0 s))) KeyError eq_refl)
    as (_ & _ & _ & _ & Hos).
  split; [exact Hos | reflexivity].
Defined.

End UbiFailures.

(** ** A cluster label that does not parse *)

Module Unparsed.

Import MonadFacts DictFacts.

Section Image.

Import ImagePipeline.

Lemma labels_update_same (key : json) (f : ClusterDetail -> ClusterDetail)
      (d : Dict.dict ClusterDetail) :
  (forall c, labels_of (f c) = labels_of c) ->
  cluster_labels key (update_cluster key f d) = cluster_labels key d.
Proof.
  intros Hf. unfold cluster_labels, update_cluster.
  destruct (Dict.get key d) as [c|] eqn:E; [|now rewrite E].
  rewrite (get_set_present _ _ _ _ E). simpl. now rewrite Hf.
Qed.

Lemma merge_vulnerability_kept (key namespace imageFullName cve_record : json)
      (name : option string) (l : option (string * string * string)) :
  preserves (kept key name l) (merge_vulnerability key namespace imageFullName cve_record).
Proof.
  unfold merge_vulnerability. repeat first [ preserve_step | untouched ].
  apply preserves_modify. intros st [Hn Hl]. split; [exact Hn|]. simpl.
  now rewrite labels_update_same.
Qed.

Lemma deployment_detail_kept (api : server) (key namespace deploymentId : json)
      (name : option string) (l : option (string * string * string)) :
  preserves (kept key name l) (deployment_detail api key namespace deploymentId).
Proof.
  unfold deployment_detail, inspect_container, inspect_image, image_detail, image_error,
    extract_cves, getJsonFromRhacsApi, in_world, in_vars.
  repeat first [ apply merge_vulnerability_kept | preserve_step | untouched ].
Qed.

Lemma register_cluster_labels (key : json) (name : string) (lab : label) (s : state) :
  Json.hashable key = true ->
  l_name lab = Some name ->
  let r := register_cluster key lab s in
  fst r = Ok tt
  /\ var_clusterName (snd r) = var_clusterName s
  /\ cluster_labels key (cvesByCluster (snd r))
     = Some match cluster_labels key (cvesByCluster s) with
            | Some l => l
            | None => (name, l_environment lab, l_descriptor lab)
            end.
Proof.
  intros Hk Hn r.
  assert (Hrun : r = (Ok tt,
                      if Dict.mem key (cvesByCluster s) then s
                      else set_cvesByCluster
                             (update_cluster key
                                (set_label name (l_environment lab) (l_descriptor lab))
                                (Dict.set key (set_clusterId key new_ClusterDetail)
                                   (cvesByCluster s))) s)).
  { subst r. unfold register_cluster. rewrite Hk, Hn. unfold bind, ret, get, modify.
    now destruct (Dict.mem key (cvesByCluster s)). }
  rewrite Hrun. clear Hrun r. simpl fst. simpl snd.
  unfold cluster_labels, Dict.mem.
  destruct (Dict.get key (cvesByCluster s)) as [c|] eqn:E.
  - rewrite E. now repeat split.
  - simpl. repeat split. unfold update_cluster.
    rewrite (get_set_absent _ _ _ Hk E). now rewrite get_set_same.
Qed.

Lemma print_returns (e : event) (s : state) : fst (in_world (World.print e) s) = Ok tt.
Proof. unfold in_world. now rewrite zoom_eq. Qed.

Lemma inspect_deployment_unparsed (api : server) (count : nat)
      (deployment key raw namespace deploymentId deploymentName : json)
      (before : string) (s : state) :
  no_match raw ->
  getitem deployment "clusterId" = Ok key ->
  Json.hashable key = true ->
  getitem deployment "cluster" = Ok raw ->
  getitem deployment "namespace" = Ok namespace ->
  getitem deployment "id" = Ok deploymentId ->
  getitem deployment "name" = Ok deploymentName ->
  var_clusterName s = Some before ->
  let r := inspect_deployment api count deployment s in
  fst r = Ok tt
  /\ kept key (Some before)
          (Some match cluster_labels key (cvesByCluster s) with
                | Some l => l
                | None => (before, "", "")
                end)
          (snd r).
Proof.
  intros Hno Hkey Hh Hraw Hns Hid Hname Hbefore.
  unfold inspect_deployment.
  rewrite (bind_pure _ _ _ _ Hkey), (bind_pure _ _ _ _ Hraw), bind_get, Hbefore.
  rewrite (ClusterLabel.image_label_of_no_match raw (Some before) Hno).
  rewrite bind_modify.
  destruct (register_cluster_labels key before (image_label (Some before) "" "")
              (set_clusterName (Some before) s) Hh eq_refl) as (Hr1 & Hr2 & Hr3).
  rewrite (bind_returns _ _ _ tt Hr1).
  set (s1 := snd (register_cluster key (image_label (Some before) "" "")
                    (set_clusterName (Some before) s))) in *.
  rewrite (bind_pure _ _ _ _ Hns), (bind_pure _ _ _ _ Hid), (bind_pure _ _ _ _ Hname).
  rewrite bind_modify, bind_get.
  change (l_name (image_label (Some before) "" "")) with (Some before). cbv iota.
  rewrite (bind_returns _ _ _ tt (print_returns _ _)).
  set (s2 := snd (in_world (World.print _) _)).
  assert (Hs2 : kept key (Some before)
                  (Some match cluster_labels key (cvesByCluster s) with
                        | Some l => l
                        | None => (before, "", "")
                        end) s2).
  { split; [exact Hr2 | exact Hr3]. }
  split.
  - apply try_print_returns. intros e st. apply print_returns.
  - revert Hs2. apply preserves_try_except; [apply deployment_detail_kept|].
    intros e. untouched.
Qed.

(** Without a name from an earlier deployment the local [clusterName] is
    unbound after a parse that fails: the registration of a cluster seen for
    the first time reads it at line 150, outside every try block, and
    [UnboundLocalError] leaves the inspection of the deployment, whatever
    the server. *)
Lemma unparsed_first_label_raises (api : server) (count : nat)
      (deployment key raw : json) (s : state) :
  no_match raw ->
  getitem deployment "clusterId" = Ok key ->
  Json.hashable key = true ->
  getitem deployment "cluster" = Ok raw ->
  var_clusterName s = None ->
  Dict.mem key (cvesByCluster s) = false ->
  fst (inspect_deployment api count deployment s) = Raise UnboundLocalError.
Proof.
  intros Hno Hkey Hh Hraw Hunbound Hnew. unfold inspect_deployment.
  rewrite (bind_pure _ _ _ _ Hkey), (bind_pure _ _ _ _ Hraw), bind_get, Hunbound.
  rewrite (ClusterLabel.image_label_of_no_match raw None Hno), bind_modify.
  unfold register_cluster. rewrite Hh. unfold bind, ret, get, modify, raise. simpl.
  now rewrite Hnew.
Qed.

End Image.

(** What the two programs do with a cluster name that does not parse, when
    the image pipeline holds a name from an earlier deployment.  The
    environment and the descriptor are the empty string and the name is
    left as it was: in the node pipeline it is the raw name, and the nodes
    of the cluster are inspected under that label; in the image pipeline it
    is the name the earlier deployment left, whatever its cluster, the
    deployment is inspected without an exception reaching the loop, a
    cluster seen for the first time is registered under that name with an
    empty environment and descriptor, and a cluster registered before keeps
    its label. *)
Theorem unparsed_label_defaults (api : server) (count : nat)
        (deployment key raw namespace deploymentId deploymentName : json)
        (cluster clusterId : json) (before : string)
        (s : ImagePipeline.state) (t : NodePipeline.state) :
  no_match raw ->
  getitem deployment "clusterId" = Ok key ->
  Json.hashable key = true ->
  getitem deployment "cluster" = Ok raw ->
  getitem deployment "namespace" = Ok namespace ->
  getitem deployment "id" = Ok deploymentId ->
  getitem deployment "name" = Ok deploymentName ->
  ImagePipeline.var_clusterName s = Some before ->
  getitem cluster "id" = Ok clusterId ->
  getitem cluster "name" = Ok raw ->
  let r := ImagePipeline.inspect_deployment api count deployment s in
  ImagePipeline.parse_cluster_info raw (Some before) = image_label (Some before) "" ""
  /\ NodePipeline.parse_cluster_info raw = node_label raw "" ""
  /\ fst r = Ok tt
  /\ ImagePipeline.var_clusterName (snd r) = Some before
  /\ cluster_labels key (ImagePipeline.cvesByCluster (snd r))
     = Some match cluster_labels key (ImagePipeline.cvesByCluster s) with
            | Some l => l
            | None => (before, "", "")
            end
  /\ NodePipeline.inspect_cluster api cluster t
     = NodePipeline.inspect_nodes api (node_label raw "" "") clusterId
         (snd (NodePipeline.in_world (World.print (PrintInspectingCluster raw)) t)).
Proof.
  intros Hno Hkey Hh Hraw Hns Hid Hname Hbefore Hcid Hcname r.
  destruct (inspect_deployment_unparsed api count deployment key raw namespace
              deploymentId deploymentName before s Hno Hkey Hh Hraw Hns Hid Hname Hbefore)
    as (Hr & Hn & Hl).
  split; [now apply ClusterLabel.image_label_of_no_match|].
  split; [now apply ClusterLabel.node_label_of_no_match|].
  split; [exact Hr|]. split; [exact Hn|]. split; [exact Hl|].
  unfold NodePipeline.inspect_cluster.
  rewrite (bind_pure _ _ _ _ Hcid), (bind_pure _ _ _ _ Hcname).
  rewrite (ClusterLabel.node_label_of_no_match raw Hno).
  unfold bind at 1, NodePipeline.in_world. rewrite !zoom_eq. reflexivity.
Qed.

End Unparsed.

(** ** The order of the image report *)

Module KeyOrder.

Import ImagePipeline.

Lemma string_compare_trans (a b c : string) :
  String.compare a b = Lt -> String.compare b c = Lt -> String.compare a c = Lt.
Proof.
  intros H1 H2. apply String_as_OT.cmp_lt.
  apply String_as_OT.cmp_lt in H1. apply String_as_OT.cmp_lt in H2.
  eapply String_as_OT.lt_trans; eassumption.
Qed.

Lemma string_compare_eq (a b : string) : String.compare a b = Eq <-> a = b.
Proof. apply String_as_OT.cmp_eq. Qed.

Lemma string_compare_refl (a : string) : String.compare a a = Eq.
Proof. now apply string_compare_eq. Qed.

Lemma key_compare_eq (a b : string * string) : key_compare a b = Eq -> a = b.
Proof.
  destruct a as [a1 a2], b as [b1 b2]. unfold key_compare. simpl.
  destruct (String.compare a1 b1) eqn:E1; try discriminate.
  intros E2. apply string_compare_eq in E1, E2. now subst.
Qed.

Lemma key_compare_refl (a : string * string) : key_compare a a = Eq.
Proof. unfold key_compare. now rewrite !string_compare_refl. Qed.

Lemma key_compare_antisym (a b : string * string) :
  key_compare a b = CompOpp (key_compare b a).
Proof.
  unfold key_compare. rewrite (String.compare_antisym (fst b) (fst a)).
  destruct (String.compare (fst a) (fst b)); simpl; trivial.
  apply String.compare_antisym.
Qed.

Lemma key_compare_trans (a b c : string * string) :
  key_compare a b = Lt -> key_compare b c = Lt -> key_compare a c = Lt.
Proof.
  destruct a as [a1 a2], b as [b1 b2], c as [c1 c2]. unfold key_compare. simpl.
  destruct (String.compare a1 b1) eqn:E1; try discriminate;
    destruct (String.compare b1 c1) eqn:E2; try discriminate; intros H1 H2.
  - apply string_compare_eq in E1, E2. subst. rewrite string_compare_refl.
    eapply string_compare_trans; eassumption.
  - apply string_compare_eq in E1. subst. now rewrite E2.
  - apply string_compare_eq in E2. subst. now rewrite E1.
  - now rewrite (string_compare_trans _ _ _ E1 E2).
Qed.

Lemma key_le_refl (a : string * string) : key_le a a.
Proof. unfold key_le, key_lt. now rewrite key_compare_refl. Qed.

Lemma key_lt_le (a b : string * string) : key_lt a b = true -> key_le a b.
Proof.
  unfold key_le, key_lt. rewrite (key_compare_antisym b a).
  now destruct (key_compare a b).
Qed.

Lemma key_le_trans (a b c : string * string) : key_le a b -> key_le b c -> key_le a c.
Proof.
  unfold key_le, key_lt. intros H1 H2.
  destruct (key_compare c a) eqn:E; trivial. exfalso.
  destruct (key_compare b a) eqn:E1; try discriminate.
  - apply key_compare_eq in E1. subst. now rewrite E in H2.
  - rewrite key_compare_antisym in E1.
    destruct (key_compare a b) eqn:E1'; try discriminate.
    rewrite (key_compare_trans _ _ _ E E1') in H2. discriminate.
Qed.

Section Sorting.

Context {X : Type} (f : X -> string * string).

Lemma insert_by_In (x y : X) (l : list X) :
  In y (insert_by f x l) <-> y = x \/ In y l.
Proof.
  induction l as [|z l IH]; simpl.
  - intuition.
  - destruct (key_lt (f z) (f x)); simpl; [rewrite IH|]; intuition.
Qed.

Lemma insert_by_sorted (x : X) (l : list X) :
  StronglySorted key_le (map f l) -> StronglySorted key_le (map f (insert_by f x l)).
Proof.
  induction l as [|y l IH]; simpl; intros Hs.
  - repeat constructor.
  - inversion Hs as [|? ? Hl Hy]; subst.
    destruct (key_lt (f y) (f x)) eqn:E; simpl.
    + constructor; [now apply IH|].
      apply Forall_forall. intros k Hk. apply in_map_iff in Hk as (z & <- & Hz).
      apply insert_by_In in Hz as [->|Hz]; [now apply key_lt_le|].
      rewrite Forall_forall in Hy. apply Hy. now apply in_map.
    + constructor; [assumption|]. constructor; [exact E|].
      eapply Forall_impl; [|exact Hy]. intros k Hk. eapply key_le_trans; [exact E | exact Hk].
Qed.

Lemma sorted_sorted (l : list X) : StronglySorted key_le (map f (sorted f l)).
Proof.
  induction l as [|x l IH]; simpl; [constructor | now apply insert_by_sorted].
Qed.

Lemma insert_by_perm (x : X) (l : list X) : Permutation (x :: l) (insert_by f x l).
Proof.
  induction l as [|y l IH]; simpl; [reflexivity|].
  destruct (key_lt (f y) (f x)); [|reflexivity].
  rewrite perm_swap. now constructor.
Qed.

Lemma sorted_perm (l : list X) : Permutation l (sorted f l).
Proof.
  induction l as [|x l IH]; simpl; [reflexivity|].
  rewrite <- insert_by_perm. now constructor.
Qed.

End Sorting.

(** Rows with one key, then rows sorted with keys that are not smaller. *)
Lemma sorted_after_constant (k : string * string) (ks1 ks2 : list (string * string)) :
  Forall (fun x => x = k) ks1 ->
  StronglySorted key_le ks2 ->
  Forall (key_le k) ks2 ->
  StronglySorted key_le (ks1 ++ ks2).
Proof.
  intros H1 H2 H3. induction ks1 as [|x ks1 IH]; simpl; [assumption|].
  inversion H1; subst. constructor; [now apply IH|].
  apply Forall_app. split; [|assumption].
  eapply Forall_impl; [|eassumption]. intros y ->. apply key_le_refl.
Qed.

End KeyOrder.

Module Report.

Import ImagePipeline MonadFacts KeyOrder.

Lemma cve_row_state (c : ClusterDetail) (cveId : json) (cd : CveDetail) (s : state) :
  snd (cve_row c cveId cd s) = s.
Proof.
  assert (H : preserves (fun s' => s' = s) (cve_row c cveId cd))
    by (unfold cve_row; preserve).
  now apply H.
Qed.

Lemma cve_row_cells (c : ClusterDetail) (cveId : json) (cd : CveDetail) (s s' : state)
      (r : row) :
  cve_row c cveId cd s = (Ok r, s') ->
  row_key r = (clusterEnvironment c, clusterName c) /\ row_cve r = Value cveId.
Proof.
  intros H. unfold cve_row in H. do 12 bind_inv H.
  inversion H; subst. split; reflexivity.
Qed.

Lemma appended_refl (w : world) : appended [] w w.
Proof. unfold appended. destruct (file w); simpl; [now rewrite app_nil_r | reflexivity]. Qed.

Lemma appended_trans (r1 r2 : list row) (w1 w2 w3 : world) :
  appended r1 w1 w2 -> appended r2 w2 w3 -> appended (r1 ++ r2) w1 w3.
Proof.
  unfold appended. intros H1 H2. rewrite H2, H1.
  destruct (file w1); simpl; [now rewrite app_assoc | reflexivity].
Qed.

Lemma writerow_appended (r : row) (s : state) :
  in_world (World.writerow r) s = (Ok tt, snd (in_world (World.writerow r) s))
  /\ appended [r] (the_world s) (the_world (snd (in_world (World.writerow r) s))).
Proof.
  unfold in_world. rewrite zoom_eq. split; [reflexivity|].
  unfold appended. simpl. now destruct (file (the_world s)).
Qed.

(** The rows of the CVEs [ids] of one cluster. *)
Lemma write_ids (c : ClusterDetail) (ids : list json) (s : state) :
  exists rows,
    appended rows (the_world s) (the_world (snd (for_each ids (write_cve c) s)))
    /\ Forall (fun r => row_key r = (clusterEnvironment c, clusterName c)) rows
    /\ (fst (for_each ids (write_cve c) s) = Ok tt -> map row_cve rows = map Value ids).
Proof.
  revert s. induction ids as [|cveId ids IH]; intros s; simpl.
  - exists []. split; [apply appended_refl|]. now split.
  - unfold bind, write_cve at 1 3.
    destruct (Dict.get cveId (cveDetails c)) as [cd|].
    2:{ exists []. split; [apply appended_refl|].
        split; [apply Forall_nil | unfold raise; simpl; discriminate]. }
    unfold bind.
    pose proof (cve_row_state c cveId cd s) as Hst.
    destruct (cve_row c cveId cd s) as [[r|e] s1] eqn:Er; simpl in Hst; subst s1.
    2:{ exists []. split; [apply appended_refl|].
        split; [apply Forall_nil | simpl; discriminate]. }
    destruct (cve_row_cells _ _ _ _ _ _ Er) as [Hk Hc].
    destruct (writerow_appended r s) as [Hw Ha]. rewrite Hw.
    destruct (IH (snd (in_world (World.writerow r) s))) as (rows & Hrows & Hkeys & Hok).
    exists (r :: rows). split; [exact (appended_trans [r] rows _ _ _ Ha Hrows)|].
    split; [now constructor|].
    intros Hres. simpl. rewrite Hc. now rewrite Hok.
Qed.

Lemma write_cluster_rows (c : ClusterDetail) (s : state) :
  exists rows,
    appended rows (the_world s) (the_world (snd (write_cluster c s)))
    /\ Forall (fun r => row_key r = (clusterEnvironment c, clusterName c)) rows
    /\ (fst (write_cluster c s) = Ok tt
        -> map row_cve rows = map Value (Dict.keys (cveDetails c))).
Proof. apply write_ids. Qed.

(** The rows of the clusters [keys], which come in the order of their
    keys. *)
Lemma write_clusters (d : Dict.dict ClusterDetail) (keys : list json) (s : state) :
  StronglySorted key_le (map (cluster_key d) keys) ->
  exists rows,
    appended rows (the_world s) (the_world (snd (for_each keys (write_key d) s)))
    /\ Forall (fun r => In (row_key r) (map (cluster_key d) keys)) rows
    /\ StronglySorted key_le (map row_key rows)
    /\ (fst (for_each keys (write_key d) s) = Ok tt ->
        map (fun r => (row_key r, row_cve r)) rows = flat_map (cluster_rows d) keys).
Proof.
  intros Hs. revert s. induction keys as [|key keys IH]; intros s; simpl.
  - exists []. split; [apply appended_refl|]. repeat split; constructor.
  - inversion Hs as [|? ? Hs' Hle]; subst.
    unfold bind, write_key at 1 3. unfold cluster_rows at 1.
    assert (Hstop : forall (rows : list row),
               Forall (fun r => row_key r = cluster_key d key) rows ->
               Forall (fun r => In (row_key r)
                                   (cluster_key d key :: map (cluster_key d) keys)) rows
               /\ StronglySorted key_le (map row_key rows)).
    { intros rows Hr. split.
      - eapply Forall_impl; [|exact Hr]. intros r ->. now left.
      - rewrite <- (app_nil_r (map row_key rows)).
        apply (sorted_after_constant (cluster_key d key)); try constructor.
        apply Forall_forall. intros k Hk. apply in_map_iff in Hk as (r & <- & Hin).
        rewrite Forall_forall in Hr. now apply Hr. }
    destruct (Dict.get key d) as [c|] eqn:Ec.
    2:{ exists []. split; [apply appended_refl|].
        split; [apply Forall_nil|].
        split; [apply SSorted_nil | unfold raise; simpl; discriminate]. }
    assert (Hkey : cluster_key d key = (clusterEnvironment c, clusterName c))
      by (unfold cluster_key; now rewrite Ec).
    destruct (write_cluster_rows c s) as (rows1 & Ha1 & Hk1 & Hok1).
    rewrite <- Hkey in Hk1.
    destruct (write_cluster c s) as [[[]|e] s1] eqn:Ew; simpl in *.
    2:{ exists rows1. split; [exact Ha1|]. destruct (Hstop rows1 Hk1) as [H1 H2].
        split; [exact H1|]. split; [exact H2 | unfold raise; simpl; discriminate]. }
    destruct (IH Hs' s1) as (rows2 & Ha2 & Hin2 & Hs2 & Hok2).
    exists (rows1 ++ rows2). split; [exact (appended_trans _ _ _ _ _ Ha1 Ha2)|].
    split; [|split].
    + apply Forall_app. split.
      * eapply Forall_impl; [|exact Hk1]. intros r ->. now left.
      * eapply Forall_impl; [|exact Hin2]. intros r Hr. now right.
    + rewrite map_app. apply (sorted_after_constant (cluster_key d key)).
      * apply Forall_forall. intros k Hk. apply in_map_iff in Hk as (r & <- & Hin).
        rewrite Forall_forall in Hk1. now apply Hk1.
      * exact Hs2.
      * apply Forall_forall. intros k Hk. apply in_map_iff in Hk as (r & <- & Hin).
        rewrite Forall_forall in Hin2, Hle. apply Hle. now apply Hin2.
    + intros Hres. rewrite map_app, (Hok2 Hres). f_equal.
      specialize (Hok1 eq_refl).
      clear - Hk1 Hok1. revert Hok1. generalize (Dict.keys (cveDetails c)).
      induction rows1 as [|r rows1 IHr]; intros [|id ids]; simpl; try discriminate;
        [reflexivity|].
      intros H. inversion H. inversion Hk1; subst. f_equal; [congruence | now apply IHr].
Qed.

Lemma write_report_rows (s : state) :
  exists rows,
    file (the_world (snd (write_report s))) = Some (CSV_HEADER :: rows)
    /\ StronglySorted key_le (map row_key rows)
    /\ (fst (write_report s) = Ok tt ->
        map (fun r => (row_key r, row_cve r)) rows
        = flat_map (cluster_rows (cvesByCluster s))
                   (sortedByClusterEnvironmentAndName (cvesByCluster s))).
Proof.
  pose proof (sorted_sorted (cluster_key (cvesByCluster s)) (Dict.keys (cvesByCluster s)))
    as Hsorted.
  set (s0 := snd ((in_world World.open_file ;;
                   in_world (World.writerow CSV_HEADER)) s)).
  assert (E : write_report s
              = for_each (sortedByClusterEnvironmentAndName (cvesByCluster s))
                         (write_key (cvesByCluster s)) s0) by reflexivity.
  rewrite E.
  destruct (write_clusters (cvesByCluster s)
              (sortedByClusterEnvironmentAndName (cvesByCluster s)) s0 Hsorted)
    as (rows & Ha & _ & Hs & Hok).
  exists rows. split; [exact Ha | split; [exact Hs | exact Hok]].
Qed.

(** C8.  The data rows of the image report come after the header in the
    order of the key (environment, cluster name): of two rows, the one
    written first has the key that is not greater.  The clusters are taken
    in the order the stable sort of their keys gives, and when the report is
    written to its end the rows are, cluster after cluster in that order,
    the CVEs of the cluster in the order of its mapping.  Between clusters
    of equal key the statement promises nothing. *)
Theorem report_rows_in_key_order (s : state) :
  let d := cvesByCluster s in
  let res := write_report s in
  StronglySorted key_le (map (cluster_key d) (sortedByClusterEnvironmentAndName d))
  /\ Permutation (Dict.keys d) (sortedByClusterEnvironmentAndName d)
  /\ exists rows,
       file (the_world (snd res)) = Some (CSV_HEADER :: rows)
       /\ StronglySorted key_le (map row_key rows)
       /\ (fst res = Ok tt ->
           map (fun r => (row_key r, row_cve r)) rows
           = flat_map (cluster_rows d) (sortedByClusterEnvironmentAndName d)).
Proof.
  intros d res. split; [apply sorted_sorted|]. split; [apply sorted_perm|].
  apply write_report_rows.
Qed.

End Report.

(** ** The output file *)

Module OutputFile.

Import MonadFacts.

Lemma writerow_keeps_header (header r : row) :
  preserves (has_header header) (World.writerow r).
Proof.
  intros w [rows H]. unfold has_header. simpl. rewrite H. now exists (rows ++ [r]).
Qed.

Lemma print_keeps_header (header : row) (e : event) :
  preserves (has_header header) (World.print e).
Proof. now intros w H. Qed.

Lemma send_keeps_header (header : row) (api : server) (req : request) :
  preserves (has_header header) (World.send api req).
Proof.
  intros w H. unfold World.send.
  destruct (api (calls w) req) as [|code [j|]]; try exact H; destruct (Nat.eqb code 200);
    exact H.
Qed.

Section Node.

Import NodePipeline.

Ltac in_the_world lem :=
  apply (preserves_zoom_in node_header (has_header CSV_HEADER));
    [ let H := fresh in intros ? H; exact H
    | let H := fresh in intros ? ? H; exact H
    | apply lem ].

Ltac keep :=
  repeat first
    [ in_the_world writerow_keeps_header
    | in_the_world print_keeps_header
    | in_the_world send_keeps_header
    | apply preserves_modify; let H := fresh in intros ? H; exact H
    | preserve_step ].

Lemma inspect_cluster_keeps_header (api : server) (cluster : json) :
  preserves node_header (inspect_cluster api cluster).
Proof.
  unfold inspect_cluster, inspect_nodes, inspect_node, node_vulnerabilities, cve_row,
    getJsonFromRhacsApi, getJsonFromRhacsGraphQl, in_world.
  keep.
Qed.

Lemma node_run_has_header (api : server) (listing : json) :
  api [] (Get "/v1/clusters") = Status 200 (Some listing) ->
  Json.is_none listing = false ->
  node_header (snd (run api)).
Proof.
  intros Hapi Hsome. unfold run, main.
  unfold bind at 1. unfold getJsonFromRhacsApi at 1, in_world at 1.
  rewrite zoom_eq. unfold World.send. simpl. rewrite Hapi. simpl. rewrite Hsome.
  match goal with
  | |- node_header (snd ((?a ;; ?b ;; ?rest) ?s0)) =>
      change ((a ;; b ;; rest) s0) with (rest (snd ((a ;; b) s0)));
      assert (H1 : node_header (snd ((a ;; b) s0))) by (now exists []);
      assert (Hp : preserves node_header rest)
        by (repeat first [ apply inspect_cluster_keeps_header | keep ]);
      exact (Hp _ H1)
  end.
Qed.

End Node.

Section Image.

Import ImagePipeline.

Lemma image_run_has_header (api : server) :
  fst (collect api state0) = Ok tt ->
  has_header CSV_HEADER (the_world (snd (run api))).
Proof.
  intros Hc. unfold run, main. rewrite (bind_returns _ _ _ tt Hc).
  set (s1 := snd (collect api state0)).
  destruct (Report.write_report_rows s1) as (rows & Hf & _).
  unfold bind. destruct (write_report s1) as [[[]|e] s2]; simpl in *.
  - unfold in_world. rewrite ?zoom_eq. simpl. now exists rows.
  - now exists rows.
Qed.

End Image.

(** Without data from the listing of the clusters the node pipeline never
    reaches the line that opens the file. *)
Lemma node_run_without_data (api : server) :
  listing_has_data api = false ->
  file (NodePipeline.the_world (snd (NodePipeline.run api))) = None.
Proof.
  unfold listing_has_data, NodePipeline.run, NodePipeline.main,
    NodePipeline.getJsonFromRhacsApi, NodePipeline.in_world.
  unfold bind at 1. rewrite zoom_eq. unfold World.send. simpl.
  destruct (api [] (Get "/v1/clusters")) as [|code [listing|]]; simpl;
    [reflexivity | | now destruct (Nat.eqb code 200)].
  destruct (Nat.eqb code 200); simpl; [|reflexivity].
  destruct (Json.is_none listing); [reflexivity | discriminate].
Qed.

(** C9, as amended.  The image pipeline writes the file, with the header as
    its first row, whenever the collection of the CVEs ends without an
    uncaught exception, which includes the listing of the deployments that
    gives no data or no deployment; the rows of the report may then stop
    short, the header is there.  The node pipeline writes the file, with the
    header as its first row, whenever the listing of the clusters is
    answered with status 200 and a value that is not null, which includes
    the listing without a cluster, and whatever happens afterwards.  For
    every server, when that listing yields no data (it is answered with
    another status or with null, or the request fails) the node pipeline
    creates no file. *)
Theorem header_row_written (image_api node_api : server) (listing : json) :
  fst (ImagePipeline.collect image_api ImagePipeline.state0) = Ok tt ->
  node_api [] (Get "/v1/clusters") = Status 200 (Some listing) ->
  Json.is_none listing = false ->
  has_header ImagePipeline.CSV_HEADER
             (ImagePipeline.the_world (snd (ImagePipeline.run image_api)))
  /\ has_header NodePipeline.CSV_HEADER
                (NodePipeline.the_world (snd (NodePipeline.run node_api)))
  /\ forall api : server,
       listing_has_data api = false ->
       file (NodePipeline.the_world (snd (NodePipeline.run api))) = None.
Proof.
  intros Hc Hapi Hsome. split; [|split].
  - now apply image_run_has_header.
  - now apply (node_run_has_header node_api listing).
  - exact node_run_without_data.
Qed.

(** The image pipeline when the listing of the deployments gives no data,
    the node pipeline when the nodes of a cluster cannot be had, and the
    node pipeline when the listing of the clusters gives no data. *)
Lemma header_row_written_witness :
  has_header ImagePipeline.CSV_HEADER
             (ImagePipeline.the_world (snd (ImagePipeline.run Samples.no_listing_server)))
  /\ has_header NodePipeline.CSV_HEADER
                (NodePipeline.the_world
                   (snd (NodePipeline.run Samples.nodes_unavailable_server)))
  /\ file (NodePipeline.the_world (snd (NodePipeline.run Samples.no_listing_server)))
     = None.
Proof.
  destruct (header_row_written Samples.no_listing_server Samples.nodes_unavailable_server
              Samples.two_clusters eq_refl eq_refl eq_refl) as (Himage & Hnode & Hnone).
  split; [exact Himage|]. split; [exact Hnode|]. apply Hnone. reflexivity.
Defined.

(** The node pipeline when the listing of the clusters is answered with a
    status other than 200: the run ends without an exception and there is no
    file, so no header row. *)
Lemma no_listing_no_file :
  fst (NodePipeline.run Samples.no_listing_server) = Ok tt
  /\ file (NodePipeline.the_world (snd (NodePipeline.run Samples.no_listing_server))) = None
  /\ ~ has_header NodePipeline.CSV_HEADER
         (NodePipeline.the_world (snd (NodePipeline.run Samples.no_listing_server))).
Proof.
  split; [reflexivity|]. split; [reflexivity|]. intros [rows H]. discriminate.
Qed.

(** Whatever the server and the cluster, a status other than 200 for the
    nodes of the cluster makes the inspection of its nodes raise, and an
    exception of the body of a loop ends the loop. *)
Lemma nodes_non200_raises (api : server) (l : NodePipeline.label) (clusterId : string)
      (s : NodePipeline.state) (code : nat) (body : option json) :
  api (calls (NodePipeline.the_world s)) (Get (String.append "/v1/nodes/" clusterId))
  = Status code body ->
  code <> 200 ->
  fst (NodePipeline.inspect_nodes api l (JStr clusterId) s) = Raise TypeError.
Proof.
  intros Hapi Hcode. unfold NodePipeline.inspect_nodes, NodePipeline.getJsonFromRhacsApi.
  unfold bind at 1. simpl. unfold bind at 1. unfold NodePipeline.in_world.
  rewrite zoom_eq. unfold World.send. simpl in *. rewrite Hapi.
  apply Nat.eqb_neq in Hcode. rewrite Hcode. reflexivity.
Qed.

(** C4, the code at the failing input.  The nodes of the first of two
    clusters are answered with status 204: the status is printed, the fetch
    gives [None], reading its nodes raises [TypeError] outside every try
    block and the run ends there; the second cluster is never asked for, and
    the file holds the header only. *)
Lemma nodes_non200_ends_the_run :
  let r := NodePipeline.run Samples.nodes_unavailable_server in
  fst r = Raise TypeError
  /\ calls (NodePipeline.the_world (snd r)) = [Get "/v1/clusters"; Get "/v1/nodes/c1"]
  /\ console (NodePipeline.the_world (snd r))
     = [PrintInspectingCluster (JStr "ocps4 - uat"); PrintHttpError 204 (Get "/v1/nodes/c1")]
  /\ file (NodePipeline.the_world (snd r)) = Some [NodePipeline.CSV_HEADER].
Proof. repeat split. Qed.

End OutputFile.

(** ** Deployments in openshift namespaces *)

Module Openshift.

Import ImagePipeline MonadFacts DictFacts.

Lemma result_eta {A : Type} (r : result A) :
  match r with Raise e => Raise e | Ok a => Ok a end = r.
Proof. now destruct r. Qed.

(** Filtering twice is filtering once, exceptions included. *)
Lemma skip_openshift_without (deployments : list json) :
  skip_openshift (without_openshift deployments) = skip_openshift deployments.
Proof.
  induction deployments as [|d l IH]; simpl; [reflexivity|].
  unfold is_openshift.
  destruct (getitem d "namespace") as [namespace|e] eqn:En; simpl.
  2:{ now rewrite En. }
  destruct namespace; simpl; try (now rewrite En).
  destruct (Str.startswith s "openshift") eqn:Es; simpl.
  - rewrite IH. symmetry. apply result_eta.
  - rewrite En. simpl. rewrite Es. simpl. now rewrite IH.
Qed.

(** What the filter keeps, when it raises nothing. *)
Lemma skip_openshift_kept (deployments kept : list json) :
  skip_openshift deployments = Ok kept ->
  kept = without_openshift deployments
  /\ Forall (fun d => exists namespace,
                 getitem d "namespace" = Ok namespace /\ other_namespace namespace) kept.
Proof.
  revert kept. induction deployments as [|d l IH]; simpl; intros kept H.
  - inversion H. split; [reflexivity | constructor].
  - unfold is_openshift.
    destruct (getitem d "namespace") as [namespace|e] eqn:En; [|discriminate].
    destruct namespace; simpl in H; try discriminate.
    destruct (skip_openshift l) as [kept'|e]; [|discriminate].
    destruct (IH kept' eq_refl) as [-> Hall].
    destruct (Str.startswith s "openshift") eqn:Es; simpl in *; inversion H; subst.
    + now split.
    + split; [reflexivity|]. constructor; [|assumption].
      exists (JStr s). split; [exact En|]. now exists s.
Qed.

Lemma merge_cve_clean (namespace imageFullName cveId cve_record : json)
      (details : Dict.dict CveDetail) :
  other_namespace namespace ->
  Forall (fun kr => Forall other_namespace (namespaces (snd kr))) details ->
  Forall (fun kr => Forall other_namespace (namespaces (snd kr)))
         (merge_cve namespace imageFullName cveId cve_record details).
Proof.
  intros Hns Hd. unfold merge_cve.
  set (details1 := if Dict.mem cveId details then details
                   else Dict.set cveId new_CveDetail details).
  assert (H1 : Forall (fun kr => Forall other_namespace (namespaces (snd kr))) details1).
  { subst details1. destruct (Dict.mem cveId details); [assumption|].
    apply (Forall_set (fun r => Forall other_namespace (namespaces r)));
      [assumption | constructor]. }
  destruct (Dict.get cveId details1) as [r|] eqn:E; [|assumption].
  apply (Forall_set (fun r => Forall other_namespace (namespaces r))); [assumption|].
  pose proof (Forall_get (fun r => Forall other_namespace (namespaces r)) _ _ _ H1 E) as Hr.
  simpl. unfold append_if_absent. destruct (Json.mem namespace (namespaces r));
    [assumption|]. apply Forall_app. split; [assumption | now constructor].
Qed.

Lemma update_cluster_clean (key : json) (f : ClusterDetail -> ClusterDetail)
      (d : Dict.dict ClusterDetail) :
  (forall c,
      Forall (fun kr => Forall other_namespace (namespaces (snd kr))) (cveDetails c) ->
      Forall (fun kr => Forall other_namespace (namespaces (snd kr))) (cveDetails (f c))) ->
  no_openshift_namespace d -> no_openshift_namespace (update_cluster key f d).
Proof.
  intros Hf Hd. unfold update_cluster, no_openshift_namespace in *.
  destruct (Dict.get key d) as [c|] eqn:E; [|assumption].
  apply (Forall_set (fun c => Forall (fun kr => Forall other_namespace (namespaces (snd kr)))
                                     (cveDetails c))); [assumption|].
  apply Hf.
  exact (Forall_get (fun c => Forall (fun kr => Forall other_namespace (namespaces (snd kr)))
                                     (cveDetails c)) _ _ _ Hd E).
Qed.

Lemma merge_vulnerability_clean (key namespace imageFullName cve_record : json) :
  other_namespace namespace ->
  preserves clean (merge_vulnerability key namespace imageFullName cve_record).
Proof.
  intros Hns. unfold merge_vulnerability. repeat first [ preserve_step | untouched ].
  apply preserves_modify. intros st Hst. unfold clean. simpl.
  apply update_cluster_clean; [|exact Hst]. intros c Hc. simpl.
  now apply merge_cve_clean.
Qed.

Lemma register_cluster_clean (key : json) (l : label) :
  preserves clean (register_cluster key l).
Proof.
  unfold register_cluster. repeat first [ preserve_step | untouched ];
    apply preserves_modify; intros st Hst; unfold clean; simpl;
    solve [ apply update_cluster_clean; [now intros c | exact Hst]
          | apply (Forall_set (fun c => Forall (fun kr => Forall other_namespace
                                                                 (namespaces (snd kr)))
                                               (cveDetails c)));
            [exact Hst | constructor] ].
Qed.

Lemma deployment_detail_clean (api : server) (key namespace deploymentId : json) :
  other_namespace namespace ->
  preserves clean (deployment_detail api key namespace deploymentId).
Proof.
  intros Hns.
  unfold deployment_detail, inspect_container, inspect_image, image_detail, image_error,
    extract_cves, getJsonFromRhacsApi, in_world, in_vars.
  repeat first [ apply (merge_vulnerability_clean _ _ _ _ Hns) | preserve_step | untouched ].
Qed.

Lemma inspect_deployment_clean (api : server) (count : nat) (deployment : json) :
  (exists namespace,
      getitem deployment "namespace" = Ok namespace /\ other_namespace namespace) ->
  preserves clean (inspect_deployment api count deployment).
Proof.
  intros (namespace & Hget & Hns). unfold inspect_deployment.
  do 2 (apply preserves_bind; [apply preserves_pure | intro]).
  apply preserves_bind; [apply preserves_get | intro].
  apply preserves_bind; [untouched | intro].
  apply preserves_bind; [apply register_cluster_clean | intro].
  apply preserves_bind_pure. intros namespace' Hget'.
  rewrite Hget in Hget'. inversion Hget'; subst namespace'.
  unfold in_world.
  repeat first [ apply (deployment_detail_clean _ _ _ _ Hns) | preserve_step | untouched ].
Qed.

Lemma inspect_all_clean (api : server) (deployments : json) :
  preserves clean (inspect_all api deployments).
Proof.
  unfold inspect_all. apply preserves_bind_pure. intros inspected Hi.
  apply preserves_for_each. intros d Hd. apply inspect_deployment_clean.
  unfold deploymentsToBeInspected in Hi.
  destruct (Json.iter deployments) as [l|e]; [|discriminate]. simpl in Hi.
  destruct (skip_openshift_kept l inspected Hi) as [_ Hall].
  rewrite Forall_forall in Hall. now apply Hall.
Qed.

Lemma run_clean (api : server) : clean (snd (run api)).
Proof.
  assert (H : preserves clean (main api)).
  { unfold main, collect, write_report, write_key, write_cluster, write_cve, cve_row,
      getJsonFromRhacsApi, in_world.
    repeat first [ apply inspect_all_clean | preserve_step | untouched ]. }
  apply H. constructor.
Qed.

(** C10.  With the flag as compiled in, the deployments in a namespace
    whose name starts with openshift are dropped before anything is
    inspected.  The list to inspect is the list of deployments without them.
    Everything done with the list of deployments (the requests for the
    deployment and image details, what is printed, the aggregate) is what it
    would be, had the list come without them.  No CVE of the aggregate a run
    ends with is tracked in such a namespace. *)
Theorem openshift_deployments_are_skipped (api : server) (deployments : list json)
        (s : state) :
  IS_INCLUDE_OPENSHIFT_NAMESPACE = false
  /\ (forall inspected,
        deploymentsToBeInspected (JArr deployments) = Ok inspected ->
        inspected = without_openshift deployments
        /\ Forall (fun d => is_openshift d = false) inspected)
  /\ inspect_all api (JArr deployments) s
     = inspect_all api (JArr (without_openshift deployments)) s
  /\ no_openshift_namespace (cvesByCluster (snd (run api))).
Proof.
  split; [reflexivity|]. split; [|split].
  - intros inspected H. unfold deploymentsToBeInspected in H. simpl in H.
    destruct (skip_openshift_kept deployments inspected H) as [-> _].
    split; [reflexivity|]. apply Forall_forall. intros d Hd.
    apply filter_In in Hd as [_ Hd]. now destruct (is_openshift d).
  - unfold inspect_all, deploymentsToBeInspected. simpl.
    now rewrite skip_openshift_without.
  - apply run_clean.
Qed.

End Openshift.

(** ** The theorems at the sample inputs *)

Module AtSamples.

Import ImagePipeline.

(** The second of two deployments is in a cluster whose name does not
    parse: it is inspected, and its cluster is registered under the name the
    first deployment left, that of another cluster. *)
Lemma unparsed_label_defaults_witness :
  let r := inspect_deployment Samples.unparsed_second_server 2 Samples.second_deployment
             Samples.after_first_deployment in
  parse_cluster_info (JStr "---") (Some "ocps4") = image_label (Some "ocps4") "" ""
  /\ NodePipeline.parse_cluster_info (JStr "---") = node_label (JStr "---") "" ""
  /\ fst r = Ok tt
  /\ var_clusterName (snd r) = Some "ocps4"
  /\ cluster_labels (JStr "c2") (cvesByCluster (snd r)) = Some ("ocps4", "", "")
  /\ NodePipeline.inspect_cluster Samples.unparsed_second_server
       (Samples.cluster "c2" "---") NodePipeline.state0
     = NodePipeline.inspect_nodes Samples.unparsed_second_server
         (node_label (JStr "---") "" "")
         (JStr "c2")
         (snd (NodePipeline.in_world (World.print (PrintInspectingCluster (JStr "---")))
                 NodePipeline.state0)).
Proof.
  apply (Unparsed.unparsed_label_defaults Samples.unparsed_second_server 2
           Samples.second_deployment (JStr "c2") (JStr "---") (JStr "billing")
           (JStr "d2") (JStr "web") (Samples.cluster "c2" "---") (JStr "c2") "ocps4"
           Samples.after_first_deployment NodePipeline.state0);
    solve [ exact I | reflexivity ].
Defined.

(** C3, the code at the failing inputs.  The cluster of the first
    deployment has a name that does not parse (it is made of separators; a
    name that ends in a run of separators does not parse either): the local
    [clusterName] is unbound when the cluster is registered, the exception
    is not caught, the run ends and no file is written.  When the second of
    two deployments has such a name, its cluster, seen for the first time,
    is registered under the name of the cluster of the first deployment.  In
    the node pipeline the name of such a cluster is the raw name, not the
    empty string. *)
Lemma unparsed_first_label_ends_the_run :
  no_match (JStr "---")
  /\ no_match (JStr "ocps4 - ")
  /\ fst (run Samples.unparsed_first_server) = Raise UnboundLocalError
  /\ file (the_world (snd (run Samples.unparsed_first_server))) = None
  /\ fst (run Samples.unparsed_second_server) = Ok tt
  /\ cluster_labels (JStr "c1") (cvesByCluster (snd (run Samples.unparsed_second_server)))
     = Some ("ocps4", "uat", "")
  /\ cluster_labels (JStr "c2") (cvesByCluster (snd (run Samples.unparsed_second_server)))
     = Some ("ocps4", "", "")
  /\ NodePipeline.l_name (NodePipeline.parse_cluster_info (JStr "---")) = JStr "---"
  /\ NodePipeline.l_name (NodePipeline.parse_cluster_info (JStr "---")) <> JStr "".
Proof.
  split; [exact I|]. split; [exact I|]. split; [reflexivity|]. split; [reflexivity|].
  split; [reflexivity|]. split; [reflexivity|]. split; [reflexivity|].
  split; [reflexivity | discriminate].
Qed.

(** A vulnerability merged into the aggregate of a run. *)
Lemma aggregation_invariant_witness :
  let api := Samples.ubi_server in
  let s := snd (run api) in
  let cve_record := Samples.vulnerability "CVE-2024-0001" in
  let l := parse_cluster_info (JStr "ocps5 - prod") None in
  let d := Samples.deployment "c1" "ocps4 - uat" "billing" "d1" "api" in
  aggregate_ok (cvesByCluster state0)
  /\ aggregate_ok (cvesByCluster (snd (register_cluster (JStr "c1") l s)))
  /\ aggregate_ok
       (cvesByCluster
          (snd (merge_vulnerability (JStr "c1") (JStr "billing")
                  (JStr "quay.io/acme/web:2") cve_record s)))
  /\ aggregate_ok
       (cvesByCluster
          (snd (inspect_image api (JStr "c1") (JStr "billing")
                  (JStr "quay.io/acme/web:2") (JStr "sha256:1") s)))
  /\ aggregate_ok (cvesByCluster (snd (inspect_deployment api 1 d s)))
  /\ aggregate_ok (cvesByCluster (snd (main api s)))
  /\ aggregate_ok (cvesByCluster (snd (run api)))
  /\ forall c,
       Dict.get (JStr "c1") (cvesByCluster s) = Some c ->
       exists c' r,
         Dict.get (JStr "c1")
           (cvesByCluster
              (snd (merge_vulnerability (JStr "c1") (JStr "billing")
                      (JStr "quay.io/acme/web:2") cve_record s)))
         = Some c'
         /\ labels_of c' = labels_of c
         /\ Dict.get (JStr "CVE-2024-0001") (cveDetails c') = Some r
         /\ cve r = cve_record
         /\ appended_once (JStr "billing")
              (tracked namespaces (JStr "CVE-2024-0001") (cveDetails c)) (namespaces r)
         /\ appended_once (JStr "quay.io/acme/web:2")
              (tracked images (JStr "CVE-2024-0001") (cveDetails c)) (images r).
Proof.
  intros api s cve_record l d.
  apply (Aggregation.aggregation_invariant api 1 l d (JStr "c1") (JStr "billing")
           (JStr "quay.io/acme/web:2") (JStr "sha256:1") cve_record
           (JStr "CVE-2024-0001") s);
    [ | reflexivity | reflexivity ].
  vm_compute. repeat constructor.
Defined.

End AtSamples.

(* ================================================================== *)
(** * Further properties of the two programs *)

(** ** What a match of the two patterns says about the subject *)

Module ReSound.

Import StrFacts ReFacts.

Lemma star_k_inv (p : ascii -> bool) (k : string -> option captures) (s : string)
      (m : captures) :
  star_k p k s = Some m ->
  exists a b, s = String.append a b /\ Str.all p a = true /\ k b = Some m.
Proof.
  induction s as [|c s IH]; simpl; intros H.
  - exists "", "". now repeat split.
  - destruct (p c) eqn:Hc.
    + destruct (star_k p k s) as [m'|] eqn:Hs.
      * inversion H; subst. destruct (IH eq_refl) as (a & b & -> & Ha & Hk).
        exists (String c a), b. repeat split; [|exact Hk].
        unfold Str.all in *. simpl. now rewrite Hc.
      * exists "", (String c s). now repeat split.
    + exists "", (String c s). now repeat split.
Qed.

Lemma star_inv (p : ascii -> bool) (s : string) (caps : captures) (k : cont)
      (m : captures) :
  match_re (Star p) s caps k = Some m ->
  exists a b, s = String.append a b /\ Str.all p a = true /\ k b caps = Some m.
Proof. simpl. apply star_k_inv. Qed.

Lemma plus_inv (p : ascii -> bool) (s : string) (caps : captures) (k : cont)
      (m : captures) :
  match_re (Plus p) s caps k = Some m ->
  exists a b, s = String.append a b /\ a <> "" /\ Str.all p a = true
              /\ k b caps = Some m.
Proof.
  simpl. destruct s as [|c s]; [discriminate|]. destruct (p c) eqn:Hc; [|discriminate].
  intros H. apply star_k_inv in H as (a & b & -> & Ha & Hk).
  exists (String c a), b. repeat split; [discriminate | | exact Hk].
  unfold Str.all in *. simpl. now rewrite Hc.
Qed.

Lemma chr_inv (c : ascii) (s : string) (caps : captures) (k : cont) (m : captures) :
  match_re (Chr c) s caps k = Some m ->
  exists s', s = String c s' /\ k s' caps = Some m.
Proof.
  simpl. destruct s as [|c' s]; [discriminate|].
  destruct (Ascii.eqb c c') eqn:E; [|discriminate]. apply Ascii.eqb_eq in E. subst.
  intros H. now exists s.
Qed.

Lemma cls_inv (p : ascii -> bool) (s : string) (caps : captures) (k : cont)
      (m : captures) :
  match_re (Cls p) s caps k = Some m ->
  exists c s', s = String c s' /\ p c = true /\ k s' caps = Some m.
Proof.
  simpl. destruct s as [|c s]; [discriminate|]. destruct (p c) eqn:E; [|discriminate].
  intros H. now exists c, s.
Qed.

Lemma lit_inv (l s : string) (caps : captures) (k : cont) (m : captures) :
  match_re (lit l) s caps k = Some m ->
  exists s', s = String.append l s' /\ k s' caps = Some m.
Proof.
  revert s. induction l as [|c l IH]; intros s H.
  - now exists s.
  - simpl lit in H. rewrite seq_eq in H. apply chr_inv in H as (s1 & -> & H).
    apply IH in H as (s' & -> & H). now exists s'.
Qed.

Lemma opt_inv (r : regex) (s : string) (caps : captures) (k : cont) (m : captures) :
  match_re (Opt r) s caps k = Some m ->
  match_re r s caps k = Some m \/ k s caps = Some m.
Proof. simpl. destruct (match_re r s caps k); intros H; [now left | now right]. Qed.

Lemma eos_inv (s : string) (caps : captures) (k : cont) (m : captures) :
  match_re Eos s caps k = Some m -> line_end s /\ k s caps = Some m.
Proof.
  simpl. destruct s as [|c [|c' s]]; try discriminate.
  - intros H. split; [now left | exact H].
  - destruct (Ascii.eqb c Chars.newline) eqn:E; [|discriminate].
    apply Ascii.eqb_eq in E. subst. intros H. split; [now right | exact H].
Qed.

Lemma search_inv (r : regex) (s : string) (m : captures) :
  search r s = Some m ->
  exists before subject, s = String.append before subject /\ match_here r subject = Some m.
Proof.
  induction s as [|c s IH]; simpl.
  - destruct (match_here r "") eqn:E; [|discriminate]. intros H. inversion H; subst.
    now exists "", "".
  - destruct (match_here r (String c s)) eqn:E.
    + intros H. inversion H; subst. now exists "", (String c s).
    + intros H. destruct (IH H) as (before & subject & -> & Hm).
      now exists (String c before), subject.
Qed.

Lemma append_assoc (a b c : string) :
  String.append (String.append a b) c = String.append a (String.append b c).
Proof. induction a as [|x a IH]; simpl; [reflexivity | now rewrite IH]. Qed.

Lemma consumed_two (a b c : string) :
  Str.consumed (String.append a (String.append b c)) c = String.append a b.
Proof. rewrite <- append_assoc. apply consumed_append. Qed.

Lemma cluster_match_here (subject : string) (m : captures) :
  match_here CLUSTER_INFO_REGEX subject = Some m -> cluster_match m subject.
Proof.
  unfold match_here, CLUSTER_INFO_REGEX. rewrite seq_eq, grp_eq. intros H.
  apply plus_inv in H as (name & t1 & -> & Hn1 & Hn2 & H).
  rewrite consumed_append, seq_eq in H.
  exists name. split; [now split|].
  apply opt_inv in H as [H|H].
  - rewrite seq_eq in H. apply plus_inv in H as (sep1 & t2 & -> & Hs1 & Hs2 & H).
    rewrite seq_eq, grp_eq in H. apply plus_inv in H as (env & t3 & -> & He1 & He2 & H).
    rewrite consumed_append in H. apply opt_inv in H as [H|H].
    + rewrite seq_eq in H. apply plus_inv in H as (sep2 & t4 & -> & Hp1 & Hp2 & H).
      rewrite grp_eq in H. apply star_inv in H as (d & tail & -> & Hd & H).
      rewrite consumed_append in H. apply eos_inv in H as [Ht H].
      inversion H; subst. split; [reflexivity|]. right.
      exists sep1, env. repeat split; try assumption. right.
      exists sep2, d, tail. now repeat split.
    + apply eos_inv in H as [Ht H]. inversion H; subst. split; [reflexivity|]. right.
      exists sep1, env. repeat split; try assumption. left.
      exists t3. now repeat split.
  - apply eos_inv in H as [Ht H]. inversion H; subst. split; [reflexivity|]. left.
    exists t1. now repeat split.
Qed.

Lemma ubi_match_here (subject : string) (m : captures) :
  match_here UBI_REGEX subject = Some m -> ubi_match m subject.
Proof.
  unfold match_here, UBI_REGEX. rewrite seq_eq. intros H.
  apply lit_inv in H as (t0 & -> & H). rewrite seq_eq in H.
  apply plus_inv in H as (path & t1 & -> & Hp1 & Hp2 & H). rewrite seq_eq in H.
  apply chr_inv in H as (t2 & -> & H). rewrite seq_eq, grp_eq in H.
  apply plus_inv in H as (name & t3 & -> & Hn1 & Hn2 & H).
  rewrite consumed_append, seq_eq in H.
  apply lit_inv in H as (t4 & -> & H). rewrite seq_eq, grp_eq, seq_eq in H.
  apply cls_inv in H as (c2 & t5 & -> & Hc2 & H).
  apply star_inv in H as (v & t6 & -> & Hv & H).
  change (String c2 (String.append v t6)) with (String.append (String c2 v) t6) in H.
  rewrite consumed_append, seq_eq in H.
  apply chr_inv in H as (t7 & -> & H). rewrite grp_eq, seq_eq in H.
  apply cls_inv in H as (c3 & t8 & -> & Hc3 & H).
  apply star_inv in H as (r & rest & -> & Hr & H).
  change (String c3 (String.append r rest)) with (String.append (String c3 r) rest) in H.
  rewrite consumed_append in H. inversion H; subst.
  exists path, name, (String c2 v), (String c3 r), rest.
  repeat split; try assumption; try (now exists c2, v); try (now exists c3, r).
Qed.

End ReSound.

Module Patterns.

Import ReSound.

(** X1.  Whatever the raw cluster name, the parse of both programs either
    finds no match and leaves the name as it was, with an empty environment
    and descriptor, or gives a name that is a run of word characters other
    than the underscore taken from the raw name, an environment that is
    empty or such a run, and a descriptor without a newline, which is empty
    when the environment is. *)
Theorem parsed_label_is_well_formed (raw : string) (before : option string) :
  (search CLUSTER_INFO_REGEX raw = None
   /\ ImagePipeline.parse_cluster_info (JStr raw) before = image_label before "" ""
   /\ NodePipeline.parse_cluster_info (JStr raw) = node_label (JStr raw) "" "")
  \/ exists name env d,
       ImagePipeline.parse_cluster_info (JStr raw) before = image_label (Some name) env d
       /\ NodePipeline.parse_cluster_info (JStr raw) = node_label (JStr name) env d
       /\ word_run name
       /\ (env = "" \/ word_run env)
       /\ (env = "" -> d = "")
       /\ Str.all Chars.dot d = true
       /\ exists text_before text_after,
            raw = String.append text_before (String.append name text_after).
Proof.
  destruct (search CLUSTER_INFO_REGEX raw) as [m|] eqn:Hs.
  - right. destruct (search_inv _ _ _ Hs) as (text_before & subject & Hraw & Hm).
    apply cluster_match_here in Hm.
    rewrite (ClusterLabel.image_label_of_match raw m before Hs).
    rewrite (ClusterLabel.node_label_of_match raw m Hs).
    destruct Hm as (name & Hname & G1 & [Hm|Hm]).
    + destruct Hm as (tail & Ht & Hsub & G2 & G3). rewrite G1, G2, G3.
      exists name, "", "".
      split; [reflexivity|]. split; [reflexivity|]. split; [exact Hname|].
      split; [now left|]. split; [reflexivity|]. split; [reflexivity|].
      exists text_before, tail. now rewrite Hraw, Hsub.
    + destruct Hm as (sep1 & env & Hs1 & Henv & G2 & [Hm|Hm]).
      * destruct Hm as (tail & Ht & Hsub & G3). rewrite G1, G2, G3.
        exists name, env, "".
        split; [reflexivity|]. split; [reflexivity|]. split; [exact Hname|].
        split; [now right|]. split; [reflexivity|]. split; [reflexivity|].
        eexists text_before, _. rewrite Hraw, Hsub. reflexivity.
      * destruct Hm as (sep2 & d & tail & Hs2 & Hd & Ht & Hsub & G3). rewrite G1, G2, G3.
        exists name, env, d.
        split; [reflexivity|]. split; [reflexivity|]. split; [exact Hname|].
        split; [now right|]. split; [intros ->; now destruct Henv|]. split; [exact Hd|].
        eexists text_before, _. rewrite Hraw, Hsub. reflexivity.
  - left. split; [reflexivity|].
    assert (Hno : no_match (JStr raw)) by (unfold no_match; simpl; now rewrite Hs).
    split; [now apply ClusterLabel.image_label_of_no_match
           | now apply ClusterLabel.node_label_of_no_match].
Qed.

(** X2.  When the UBI pattern matches a value, the three fields assigned
    from the match are strings: a name that is not empty and has no slash,
    and a version and a release that are a digit followed by digits and
    dots; and the value holds them in the form https://, a path, a slash,
    the name, /images/, the version, a hyphen, the release. *)
Theorem ubi_fields_of_a_match (value : json) (m : captures) (v : ImagePipeline.image_vars) :
  Json.re_search UBI_REGEX value = Ok (Some m) ->
  exists name version release,
    ImagePipeline.assign_ubi m v
    = (Ok tt, {| ImagePipeline.createdOn := ImagePipeline.createdOn v;
                 ImagePipeline.os := ImagePipeline.os v;
                 ImagePipeline.ubiName := ImagePipeline.Obj (JStr name);
                 ImagePipeline.ubiVersion := JStr version;
                 ImagePipeline.ubiRelease := JStr release |})
    /\ name <> "" /\ Str.all Chars.not_slash name = true
    /\ version_text version /\ version_text release
    /\ exists text_before path text_after,
         path <> "" /\ Str.all Chars.dot path = true
         /\ value = JStr (String.append text_before
                      (String.append "https://" (String.append path (String.append "/"
                         (String.append name (String.append "/images/"
                            (String.append version (String.append "-"
                               (String.append release text_after))))))))).
Proof.
  intros H. destruct value; try discriminate. simpl in H. inversion H as [Hs].
  destruct (search_inv _ _ _ Hs) as (text_before & subject & -> & Hm).
  apply ubi_match_here in Hm.
  destruct Hm as (path & name & version & release & rest & Hp1 & Hp2 & Hn1 & Hn2
                  & Hv & Hr & -> & G1 & G2 & G3).
  exists name, version, release.
  split.
  { unfold ImagePipeline.assign_ubi, ImagePipeline.group_value, modify.
    now rewrite G1, G2, G3. }
  repeat split; try assumption.
  exists text_before, path, rest. now repeat split.
Qed.

(** The LABEL value of the sample UBI image. *)
Lemma ubi_fields_of_a_match_witness :
  exists name version release,
    ImagePipeline.assign_ubi [(3, "206"); (2, "8.4"); (1, "ubi8")] ImagePipeline.image_vars0
    = (Ok tt, {| ImagePipeline.createdOn := JStr "";
                 ImagePipeline.os := ImagePipeline.Obj (JStr "");
                 ImagePipeline.ubiName := ImagePipeline.Obj (JStr name);
                 ImagePipeline.ubiVersion := JStr version;
                 ImagePipeline.ubiRelease := JStr release |})
    /\ name <> "" /\ Str.all Chars.not_slash name = true
    /\ version_text version /\ version_text release
    /\ exists text_before path text_after,
         path <> "" /\ Str.all Chars.dot path = true
         /\ JStr Samples.ubi_label_value
            = JStr (String.append text_before
                      (String.append "https://" (String.append path (String.append "/"
                         (String.append name (String.append "/images/"
                            (String.append version (String.append "-"
                               (String.append release text_after))))))))).
Proof.
  apply (ubi_fields_of_a_match (JStr Samples.ubi_label_value)
           [(3, "206"); (2, "8.4"); (1, "ubi8")] ImagePipeline.image_vars0).
  reflexivity.
Defined.

End Patterns.

(** ** The three steps of the UBI resolver *)

Module Resolver.

Import ImagePipeline MonadFacts.

Lemma scan_layers_passed (layers : list json) (v : image_vars) :
  Forall layer_passed layers -> scan_layers layers v = (Ok tt, v).
Proof.
  induction layers as [|layer rest IH]; intros H; [reflexivity|].
  inversion H as [|? ? Hl Hrest]; subst. specialize (IH Hrest).
  destruct Hl as (instruction & Hi & Hl). simpl.
  rewrite (bind_pure _ _ _ _ Hi).
  destruct Hl as [Hl | (value & Hv & Hl)].
  - now rewrite Hl.
  - destruct (Json.eqb instruction (JStr "LABEL")); [|exact IH].
    rewrite (bind_pure _ _ _ _ Hv).
    destruct Hl as [Hc | [Hc Hr]].
    + now rewrite (bind_pure _ _ _ _ Hc).
    + now rewrite (bind_pure _ _ _ _ Hc), (bind_pure _ _ _ _ Hr).
Qed.

(** X3.  The scan of the layers is decided by the first LABEL layer that
    holds the UBI marker and matches the pattern: when the layers before it
    are passed over, the three fields are those of its match, and the layers
    after it are not looked at, whatever they are.  When every layer is
    passed over the scan changes nothing. *)
Theorem first_matching_layer_decides (before after : list json) (layer : json)
        (m : captures) (v : image_vars) :
  Forall layer_passed before ->
  layer_decides layer m ->
  scan_layers (before ++ layer :: after) v = assign_ubi m v
  /\ scan_layers before v = (Ok tt, v).
Proof.
  intros Hb (value & Hi & Hv & Hc & Hr). split; [|now apply scan_layers_passed].
  induction before as [|l rest IH]; simpl.
  - rewrite (bind_pure _ _ _ _ Hi). simpl.
    now rewrite (bind_pure _ _ _ _ Hv), (bind_pure _ _ _ _ Hc), (bind_pure _ _ _ _ Hr).
  - inversion Hb as [|? ? Hl Hrest]; subst. specialize (IH Hrest).
    destruct Hl as (instruction & Hi' & Hl). rewrite (bind_pure _ _ _ _ Hi').
    destruct Hl as [Hl | (value' & Hv' & Hl)].
    + now rewrite Hl.
    + destruct (Json.eqb instruction (JStr "LABEL")); [|exact IH].
      rewrite (bind_pure _ _ _ _ Hv').
      destruct Hl as [Hc' | [Hc' Hr']].
      * now rewrite (bind_pure _ _ _ _ Hc').
      * now rewrite (bind_pure _ _ _ _ Hc'), (bind_pure _ _ _ _ Hr').
Qed.

(** The layers of the sample: the third decides, the fourth is never
    read. *)
Lemma first_matching_layer_decides_witness :
  scan_layers Samples.layers_with_base image_vars0
  = assign_ubi [(3, "206"); (2, "8.4"); (1, "ubi8")] image_vars0
  /\ scan_layers [ Samples.layer "RUN" "microdnf install -y java-17-openjdk";
                   Samples.layer "LABEL" "maintainer=acme" ] image_vars0
     = (Ok tt, image_vars0).
Proof.
  apply (first_matching_layer_decides
           [ Samples.layer "RUN" "microdnf install -y java-17-openjdk";
             Samples.layer "LABEL" "maintainer=acme" ]
           [ JNull ] (Samples.layer "LABEL" Samples.ubi_label_value)
           [(3, "206"); (2, "8.4"); (1, "ubi8")] image_vars0).
  - repeat constructor.
    + exists (JStr "RUN"). split; [reflexivity | now left].
    + exists (JStr "LABEL"). split; [reflexivity|]. right.
      exists (JStr "maintainer=acme"). split; [reflexivity | now left].
  - exists (JStr Samples.ubi_label_value). repeat split.
Defined.

Lemma resolve_head (responseJson metadataJson created os_value : json)
      (v : image_vars) (is_rhel : bool) :
  image_head responseJson metadataJson created os_value ->
  Json.startswith os_value OS_ID_RHEL = Ok is_rhel ->
  resolve_metadata responseJson v
  = (if is_rhel then
       layers_value <- pure (getitem metadataJson "layers") ;;
       layers <- pure (Json.iter layers_value) ;;
       scan_layers layers ;;
       v <- get ;;
       (if obj_eq_str (ubiName v) "" then
          labels <- pure (getitem metadataJson "labels") ;;
          (if hasattr_url labels then
             url <- pure (getitem labels "url") ;;
             regexResult <- pure (Json.re_search UBI_REGEX url) ;;
             match regexResult with
             | Some m => assign_ubi m
             | None => ret tt
             end
           else ret tt) ;;
          v <- get ;;
          if obj_eq_str (ubiName v) "" then
            name <- pure (getitem labels "name") ;;
            modify (fun v => {| createdOn := createdOn v; os := os v; ubiName := Obj name;
                                ubiVersion := ubiVersion v; ubiRelease := ubiRelease v |}) ;;
            version <- pure (getitem labels "version") ;;
            modify (fun v => {| createdOn := createdOn v; os := os v; ubiName := ubiName v;
                                ubiVersion := version; ubiRelease := ubiRelease v |}) ;;
            release <- pure (getitem labels "release") ;;
            modify (fun v => {| createdOn := createdOn v; os := os v; ubiName := ubiName v;
                                ubiVersion := ubiVersion v; ubiRelease := release |})
          else ret tt
        else ret tt) ;;
       v <- get ;;
       is_ubi <- pure (obj_startswith (ubiName v) UBI_PREFIX) ;;
       if negb is_ubi then
         modify (fun v => {| createdOn := createdOn v; os := os v; ubiName := Obj (JStr "");
                             ubiVersion := JStr ""; ubiRelease := JStr "" |})
       else ret tt
     else ret tt)
      {| createdOn := created; os := Obj os_value; ubiName := ubiName v;
         ubiVersion := ubiVersion v; ubiRelease := ubiRelease v |}.
Proof.
  intros (metadata & scan & H1 & H2 & H3 & H4 & H5) Hos. unfold resolve_metadata.
  rewrite (bind_pure _ _ _ _ H1), (bind_pure _ _ _ _ H2), (bind_pure _ _ _ _ H3).
  rewrite bind_modify, (bind_pure _ _ _ _ H4), (bind_pure _ _ _ _ H5), bind_modify.
  now rewrite (bind_pure _ _ _ _ Hos).
Qed.

(** X4.  For a RHEL based image none of whose layers decides, the resolver
    does not look at a [url] label: it takes the labels [name], [version]
    and [release] as they are, whatever the last two hold, when the name is
    a string that starts with ubi, and leaves the three fields empty when
    the name is another string. *)
Theorem labels_decide_without_layer (responseJson metadataJson created os_value : json)
        (os_text : string) (layers_value labels version release : json)
        (layers : list json) (name : string) :
  image_head responseJson metadataJson created os_value ->
  os_value = JStr os_text ->
  Str.startswith os_text OS_ID_RHEL = true ->
  getitem metadataJson "layers" = Ok layers_value ->
  Json.iter layers_value = Ok layers ->
  Forall layer_passed layers ->
  getitem metadataJson "labels" = Ok labels ->
  getitem labels "name" = Ok (JStr name) ->
  getitem labels "version" = Ok version ->
  getitem labels "release" = Ok release ->
  resolve_metadata responseJson image_vars0
  = (Ok tt,
     if Str.startswith name UBI_PREFIX
     then image_fields created os_value (JStr name) version release
     else image_fields created os_value (JStr "") (JStr "") (JStr "")).
Proof.
  intros Hhead -> Hos Hlv Hl Hpassed Hlabels Hname Hversion Hrelease.
  rewrite (resolve_head _ _ _ _ image_vars0 true Hhead)
    by (simpl; now rewrite Hos).
  rewrite (bind_pure _ _ _ _ Hlv), (bind_pure _ _ _ _ Hl).
  unfold bind at 1. rewrite (scan_layers_passed _ _ Hpassed).
  unfold bind, pure, get, modify, ret, hasattr_url, obj_eq_str, obj_startswith,
    image_fields, Json.startswith, Str.startswith. simpl.
  rewrite Hlabels, Hname, Hversion, Hrelease. simpl.
  now destruct (String.prefix UBI_PREFIX name).
Qed.

(** The sample image with labels of its own: the release is a number and
    is taken as it is. *)
Lemma labels_decide_without_layer_witness :
  resolve_metadata Samples.labels_only_image image_vars0
  = (Ok tt,
     image_fields (JStr "2024-01-01T00:00:00Z") (JStr "rhel:8") (JStr "ubi8-minimal")
                  (JStr "8.9") (JNum 1018)).
Proof.
  apply (labels_decide_without_layer Samples.labels_only_image Samples.labels_only_v1
           (JStr "2024-01-01T00:00:00Z") (JStr "rhel:8") "rhel:8"
           (JArr [ Samples.layer "RUN" "microdnf install -y java-17-openjdk" ])
           Samples.labels_only_labels (JStr "8.9") (JNum 1018)
           [ Samples.layer "RUN" "microdnf install -y java-17-openjdk" ] "ubi8-minimal");
    try reflexivity.
  - do 2 eexists. repeat split.
  - repeat constructor. exists (JStr "RUN"). split; [reflexivity | now left].
Defined.

(** X5.  For an image whose operating system is a string that does not
    start with rhel the resolver stops after the creation date and the
    operating system: the three UBI fields stay empty and neither the layers
    nor the labels are read, so their absence raises nothing. *)
Theorem other_os_is_not_resolved (responseJson metadataJson created : json)
        (os_text : string) :
  image_head responseJson metadataJson created (JStr os_text) ->
  Str.startswith os_text OS_ID_RHEL = false ->
  resolve_metadata responseJson image_vars0
  = (Ok tt, image_fields created (JStr os_text) (JStr "") (JStr "") (JStr "")).
Proof.
  intros Hhead Hos.
  rewrite (resolve_head _ _ _ _ image_vars0 false Hhead)
    by (simpl; now rewrite Hos).
  reflexivity.
Qed.

Lemma other_os_is_not_resolved_witness :
  resolve_metadata Samples.alpine_image image_vars0
  = (Ok tt, image_fields (JStr "2024-01-01T00:00:00Z") (JStr "alpine:v3.19")
                         (JStr "") (JStr "") (JStr "")).
Proof.
  apply (other_os_is_not_resolved Samples.alpine_image
           (JObj [ ("created", JStr "2024-01-01T00:00:00Z") ])
           (JStr "2024-01-01T00:00:00Z") "alpine:v3.19"); [|reflexivity].
  do 2 eexists. repeat split.
Defined.

End Resolver.

(** ** An image whose detail cannot be had *)

Module ImageFetch.

Import ImagePipeline MonadFacts.

(** The loop stops at the element whose body raises. *)
Lemma for_each_stops {S X : Type} (x : X) (l : list X) (body : X -> M S unit) (s : S)
      (e : exn) :
  fst (body x s) = Raise e -> for_each (x :: l) body s = body x s.
Proof. simpl. unfold bind. destruct (body x s) as [[u|e'] s1]; simpl; congruence. Qed.

(** X6.  When the request for the detail of an image raises, [responseJson]
    is not assigned: after the handler has put the type of the exception in
    [os] and printed its line, the CVE extraction of the [finally] block
    reads the response of the request before (the detail of the deployment
    or of the image before), and adds the current namespace and image full
    name to the CVEs it finds there. *)
Theorem failed_fetch_reads_previous_response (api : server)
        (key namespace imageFullName : json) (imageId : string) (s : state) :
  api (calls (the_world s)) (Get (String.append "/v1/images/" imageId)) = Fails ->
  exists s',
    inspect_image api key namespace imageFullName (JStr imageId) s
    = extract_cves key namespace imageFullName s'
    /\ var_responseJson s' = var_responseJson s
    /\ cvesByCluster s' = cvesByCluster s
    /\ os (vars s') = ExnType URLError
    /\ calls (the_world s')
       = calls (the_world s) ++ [Get (String.append "/v1/images/" imageId)]
    /\ console (the_world s')
       = console (the_world s) ++ [PrintImageError imageFullName URLError].
Proof.
  intros Hapi.
  set (s1 := set_world {| calls := calls (the_world s)
                                   ++ [Get (String.append "/v1/images/" imageId)];
                          console := console (the_world s);
                          file := file (the_world s) |}
                       (set_vars image_vars0 s)).
  assert (Htry : image_detail api (JStr imageId) (set_vars image_vars0 s)
                 = (Raise URLError, s1)).
  { unfold image_detail, getJsonFromRhacsApi, in_world. simpl.
    unfold bind at 1. unfold pure at 1. unfold bind at 1. rewrite zoom_eq.
    unfold World.send. simpl in *. now rewrite Hapi. }
  exists (snd (image_error imageFullName URLError s1)). split.
  - unfold inspect_image, bind, modify, try_finally, try_except. rewrite Htry.
    rewrite (surjective_pairing (image_error imageFullName URLError s1)).
    rewrite UbiFailures.image_error_returns. cbn [fst snd]. cbv iota.
    destruct (extract_cves key namespace imageFullName
                (snd (image_error imageFullName URLError s1))) as [[[]|e] s3];
      reflexivity.
  - unfold image_error, bind, in_vars, in_world. rewrite !zoom_eq. simpl.
    now repeat split.
Qed.

(** The second image of the sample deployment cannot be fetched: the CVE of
    the first image is recorded for the second image as well. *)
Lemma failed_fetch_reads_previous_response_witness :
  let api := Samples.second_image_fails_server in
  let s := snd (inspect_image api (JStr "c1") (JStr "payments")
                  (JStr "quay.io/acme/api:1") (JStr "sha256:1")
                  (Samples.at_first_image api)) in
  (exists s',
      inspect_image api (JStr "c1") (JStr "payments") (JStr "quay.io/acme/proxy:7")
        (JStr "sha256:2") s
      = extract_cves (JStr "c1") (JStr "payments") (JStr "quay.io/acme/proxy:7") s'
      /\ var_responseJson s' = var_responseJson s
      /\ cvesByCluster s' = cvesByCluster s
      /\ os (vars s') = ExnType URLError
      /\ calls (the_world s')
         = calls (the_world s) ++ [Get (String.append "/v1/images/" "sha256:2")]
      /\ console (the_world s')
         = console (the_world s)
           ++ [PrintImageError (JStr "quay.io/acme/proxy:7") URLError])
  /\ option_map (fun c => map (fun kr => (fst kr, images (snd kr))) (cveDetails c))
       (Dict.get (JStr "c1") (cvesByCluster (snd (collect api state0))))
     = Some [ (JStr "CVE-2024-0001",
               [ JStr "quay.io/acme/api:1"; JStr "quay.io/acme/proxy:7" ]) ].
Proof.
  intros api s. split; [|reflexivity].
  apply (failed_fetch_reads_previous_response api (JStr "c1") (JStr "payments")
           (JStr "quay.io/acme/proxy:7") "sha256:2" s).
  reflexivity.
Defined.

(** X7.  When the detail of an image is answered with a status other than
    200, nothing is caught at the image: the [finally] block reads the CVEs
    of [None] and raises [TypeError].  The loop over the containers stops
    there, with one request made and the aggregate as it was: the containers
    after this one are not inspected. *)
Theorem unavailable_image_ends_the_containers (api : server)
        (key namespace container image name imageFullName : json) (imageId : string)
        (others : list json) (code : nat) (body : option json) (s : state) :
  getitem container "image" = Ok image ->
  getitem image "id" = Ok (JStr imageId) ->
  getitem image "name" = Ok name ->
  getitem name "fullName" = Ok imageFullName ->
  api (calls (the_world s)) (Get (String.append "/v1/images/" imageId))
  = Status code body ->
  code <> 200 ->
  let r := for_each (container :: others) (inspect_container api key namespace) s in
  fst r = Raise TypeError
  /\ cvesByCluster (snd r) = cvesByCluster s
  /\ var_responseJson (snd r) = JNull
  /\ calls (the_world (snd r))
     = calls (the_world s) ++ [Get (String.append "/v1/images/" imageId)]
  /\ console (the_world (snd r))
     = console (the_world s)
       ++ [PrintHttpError code (Get (String.append "/v1/images/" imageId))].
Proof.
  intros Himage Hid Hname Hfull Hapi Hcode r.
  assert (Hrun : inspect_container api key namespace container s
                 = (Raise TypeError,
                    set_responseJson JNull
                      (set_world
                         {| calls := calls (the_world s)
                                     ++ [Get (String.append "/v1/images/" imageId)];
                            console := console (the_world s)
                                       ++ [PrintHttpError code
                                             (Get (String.append "/v1/images/" imageId))];
                            file := file (the_world s) |}
                         (set_vars image_vars0 s)))).
  { unfold inspect_container.
    rewrite (bind_pure _ _ _ _ Himage), (bind_pure _ _ _ _ Hid).
    rewrite (bind_pure _ _ _ _ Hname), (bind_pure _ _ _ _ Hfull).
    unfold inspect_image, image_detail, getJsonFromRhacsApi, in_world, extract_cves.
    unfold bind, modify, try_finally, try_except, pure, get, zoom, World.send.
    simpl in *. rewrite Hapi.
    apply Nat.eqb_neq in Hcode. rewrite Hcode. reflexivity. }
  subst r. rewrite (for_each_stops _ _ _ _ TypeError) by (now rewrite Hrun).
  rewrite Hrun. now repeat split.
Qed.

(** The first image of the sample deployment is answered with status 204:
    the second image is never requested. *)
Lemma unavailable_image_ends_the_containers_witness :
  let s := Samples.at_first_image Samples.first_image_unavailable_server in
  let r := for_each [ Samples.container "sha256:1" "quay.io/acme/api:1";
                      Samples.container "sha256:2" "quay.io/acme/proxy:7" ]
             (inspect_container Samples.first_image_unavailable_server (JStr "c1")
                (JStr "payments")) s in
  fst r = Raise TypeError
  /\ cvesByCluster (snd r) = cvesByCluster s
  /\ var_responseJson (snd r) = JNull
  /\ calls (the_world (snd r))
     = calls (the_world s) ++ [Get (String.append "/v1/images/" "sha256:1")]
  /\ console (the_world (snd r))
     = console (the_world s)
       ++ [PrintHttpError 204 (Get (String.append "/v1/images/" "sha256:1"))].
Proof.
  apply (unavailable_image_ends_the_containers Samples.first_image_unavailable_server
           (JStr "c1") (JStr "payments") (Samples.container "sha256:1" "quay.io/acme/api:1")
           (JObj [ ("id", JStr "sha256:1");
                   ("name", JObj [ ("fullName", JStr "quay.io/acme/api:1") ]) ])
           (JObj [ ("fullName", JStr "quay.io/acme/api:1") ])
           (JStr "quay.io/acme/api:1") "sha256:1"
           [ Samples.container "sha256:2" "quay.io/acme/proxy:7" ] 204 None
           (Samples.at_first_image Samples.first_image_unavailable_server));
    solve [ reflexivity | discriminate ].
Defined.

End ImageFetch.

(** ** Failures that stay inside a deployment *)

Module Deployments.

Import ImagePipeline MonadFacts.

Lemma parsed_name (raw : json) (before : option string) :
  (exists name, before = Some name)
  \/ (exists s m, raw = JStr s /\ search CLUSTER_INFO_REGEX s = Some m) ->
  exists name, l_name (parse_cluster_info raw before) = Some name.
Proof.
  intros H.
  assert (Hparsed : forall s m, raw = JStr s -> search CLUSTER_INFO_REGEX s = Some m ->
                                exists name, l_name (parse_cluster_info raw before)
                                             = Some name).
  { intros s m -> Hs. rewrite (ClusterLabel.image_label_of_match s m before Hs).
    destruct (ReSound.search_inv _ _ _ Hs) as (b & subject & _ & Hm).
    apply ReSound.cluster_match_here in Hm as (name & _ & G1 & _).
    rewrite G1. now exists name. }
  destruct H as [[name ->] | (s & m & Hraw & Hs)]; [|now apply (Hparsed s m)].
  destruct raw as [| | |s| |];
    try (rewrite ClusterLabel.image_label_of_no_match by exact I; now exists name).
  destruct (search CLUSTER_INFO_REGEX s) as [m|] eqn:Hs; [now apply (Hparsed s m)|].
  rewrite ClusterLabel.image_label_of_no_match; [now exists name|].
  unfold no_match. simpl. now rewrite Hs.
Qed.

(** A deployment with its fields is inspected without an exception
    reaching the loop, and leaves [clusterName] bound, as soon as the local
    is bound before it or its cluster name parses. *)
Lemma inspect_deployment_returns (api : server) (count : nat) (deployment : json)
      (s : state) :
  deployment_fields deployment ->
  name_bound s \/ label_parses deployment ->
  fst (inspect_deployment api count deployment s) = Ok tt
  /\ name_bound (snd (inspect_deployment api count deployment s)).
Proof.
  intros (key & raw & namespace & deploymentId & deploymentName
          & Hkey & Hh & Hraw & Hns & Hid & Hname) Hbound.
  assert (Hl : exists name, l_name (parse_cluster_info raw (var_clusterName s)) = Some name).
  { apply parsed_name. destruct Hbound as [Hb | (raw' & m & Hraw' & Hs)]; [now left|].
    right. exists raw', m. split; [congruence | exact Hs]. }
  destruct Hl as [name Hl].
  unfold inspect_deployment.
  rewrite (bind_pure _ _ _ _ Hkey), (bind_pure _ _ _ _ Hraw), bind_get.
  set (l := parse_cluster_info raw (var_clusterName s)) in *.
  rewrite bind_modify.
  destruct (Unparsed.register_cluster_labels key name l (set_clusterName (l_name l) s)
              Hh Hl) as (Hr1 & Hr2 & _).
  rewrite (bind_returns _ _ _ tt Hr1).
  set (s1 := snd (register_cluster key l (set_clusterName (l_name l) s))) in *.
  rewrite (bind_pure _ _ _ _ Hns), (bind_pure _ _ _ _ Hid), (bind_pure _ _ _ _ Hname).
  rewrite bind_modify, bind_get, Hl.
  rewrite (bind_returns _ _ _ tt (Unparsed.print_returns _ _)).
  set (s2 := snd (in_world (World.print _) _)).
  split.
  - apply try_print_returns. intros e st. apply Unparsed.print_returns.
  - assert (Hs2 : kept key (Some name) (cluster_labels key (cvesByCluster s2)) s2).
    { split; [|reflexivity]. simpl in Hr2. now rewrite <- Hl. }
    assert (Hp : preserves (kept key (Some name) (cluster_labels key (cvesByCluster s2)))
                   (try_except (deployment_detail api key (JStr namespace) deploymentId)
                      (fun ex => in_world (World.print
                         (PrintNotCompletingDeployment name (JStr namespace)
                            deploymentName ex))))).
    { apply preserves_try_except; [apply Unparsed.deployment_detail_kept|].
      intros e. untouched. }
    exists name. exact (proj1 (Hp s2 Hs2)).
Qed.

Lemma for_each_returns {S X : Type} (I : S -> Prop) (l : list X) (body : X -> M S unit)
      (s : S) :
  (forall x s, In x l -> I s -> fst (body x s) = Ok tt /\ I (snd (body x s))) ->
  I s ->
  fst (for_each l body s) = Ok tt /\ I (snd (for_each l body s)).
Proof.
  revert s. induction l as [|x l IH]; intros s Hb Hs; simpl; [now split|].
  destruct (Hb x s (or_introl eq_refl) Hs) as [H1 H2].
  rewrite (bind_returns _ _ _ tt H1). apply IH; [|exact H2].
  intros y t Hy. apply Hb. now right.
Qed.

Lemma skip_openshift_returns (deployments : list json) :
  Forall deployment_fields deployments ->
  skip_openshift deployments = Ok (without_openshift deployments).
Proof.
  induction deployments as [|d l IH]; intros H; [reflexivity|].
  inversion H as [|? ? Hd Hl]; subst. simpl. unfold is_openshift.
  destruct Hd as (key & raw & namespace & i & n & _ & _ & _ & Hns & _).
  rewrite Hns. simpl. rewrite (IH Hl). now destruct (Str.startswith namespace "openshift").
Qed.

Lemma inspect_all_returns (api : server) (deployments : list json) (s : state) :
  Forall deployment_fields deployments ->
  name_bound s \/ first_parses deployments ->
  fst (inspect_all api (JArr deployments) s) = Ok tt.
Proof.
  intros Hall Hfirst. unfold inspect_all, deploymentsToBeInspected. simpl.
  rewrite (bind_pure _ _ _ _ (skip_openshift_returns deployments Hall)).
  assert (Hkept : Forall deployment_fields (without_openshift deployments)).
  { apply Forall_forall. intros d Hd. apply filter_In in Hd as [Hd _].
    rewrite Forall_forall in Hall. now apply Hall. }
  unfold first_parses in Hfirst.
  set (count := List.length (without_openshift deployments)).
  clearbody count.
  destruct (without_openshift deployments) as [|d l]; [reflexivity|].
  inversion Hkept as [|? ? Hd Hl]; subst. simpl.
  destruct (inspect_deployment_returns api count d s Hd Hfirst) as [H1 H2].
  rewrite (bind_returns _ _ _ tt H1).
  apply (for_each_returns name_bound); [|exact H2].
  intros x t Hx Ht. apply inspect_deployment_returns; [|now left].
  rewrite Forall_forall in Hl. now apply Hl.
Qed.

(** X8.  When the listing of the deployments is a list of deployments that
    have their fields (a cluster identifier that can be a key, a cluster
    name, a string namespace, an identifier and a name) and the cluster name
    of the first deployment to inspect parses, no exception leaves the
    collection, whatever the server answers to the requests for the
    deployment and image details, and the report file is written with its
    header. *)
Theorem well_formed_listing_is_collected (api : server) (listing : json)
        (deployments : list json) :
  api [] (Get "/v1/deployments") = Status 200 (Some listing) ->
  getitem listing "deployments" = Ok (JArr deployments) ->
  Forall deployment_fields deployments ->
  first_parses deployments ->
  fst (collect api state0) = Ok tt
  /\ has_header CSV_HEADER (the_world (snd (run api))).
Proof.
  intros Hapi Hlist Hall Hfirst.
  assert (Hc : fst (collect api state0) = Ok tt).
  { unfold collect, getJsonFromRhacsApi, in_world.
    unfold bind at 1. rewrite zoom_eq. unfold World.send. simpl. rewrite Hapi. simpl.
    rewrite bind_modify.
    assert (Hsome : Json.is_none listing = false) by (now destruct listing).
    rewrite Hsome, (bind_pure _ _ _ _ Hlist).
    apply inspect_all_returns; [exact Hall | now right]. }
  split; [exact Hc | now apply OutputFile.image_run_has_header].
Qed.

(** Two containers of which the first image is unavailable: the deployment
    is abandoned, the collection ends normally. *)
Lemma well_formed_listing_is_collected_witness :
  fst (collect Samples.first_image_unavailable_server state0) = Ok tt
  /\ has_header CSV_HEADER
       (the_world (snd (run Samples.first_image_unavailable_server))).
Proof.
  apply (well_formed_listing_is_collected Samples.first_image_unavailable_server
           (JObj [ ("deployments",
                    JArr [ Samples.deployment "c1" "ocps4 - uat" "payments" "d1" "api" ]) ])
           [ Samples.deployment "c1" "ocps4 - uat" "payments" "d1" "api" ]);
    try reflexivity.
  - repeat constructor. exists (JStr "c1"), (JStr "ocps4 - uat"), "payments", (JStr "d1"),
      (JStr "api"). now repeat split.
  - exists "ocps4 - uat". eexists. split; reflexivity.
Defined.

End Deployments.

(** ** Failures that stay inside a node *)

Module Nodes.

Import NodePipeline MonadFacts.

Lemma rows_added_refl (P : row -> Prop) (s s' : state) :
  file (the_world s') = file (the_world s) -> node_rows_added P s s'.
Proof.
  intros H. exists []. split; [|apply Forall_nil].
  unfold appended. rewrite H. destruct (file (the_world s)); simpl;
    [now rewrite app_nil_r | reflexivity].
Qed.

Lemma rows_added_trans (P : row -> Prop) (s1 s2 s3 : state) :
  node_rows_added P s1 s2 -> node_rows_added P s2 s3 -> node_rows_added P s1 s3.
Proof.
  intros (r1 & H1 & F1) (r2 & H2 & F2). exists (r1 ++ r2). split.
  - unfold appended in *. rewrite H2, H1. destruct (file (the_world s1)); simpl;
      [now rewrite app_assoc | reflexivity].
  - apply Forall_app. now split.
Qed.

Lemma send_file (api : server) (req : request) (s : state) :
  file (the_world (snd (in_world (World.send api req) s))) = file (the_world s).
Proof.
  unfold in_world, zoom, World.send.
  destruct (api (calls (the_world s)) req) as [|code [j|]]; simpl;
    try reflexivity; now destruct (Nat.eqb code 200).
Qed.

Lemma print_file (e : event) (s : state) :
  fst (in_world (World.print e) s) = Ok tt
  /\ file (the_world (snd (in_world (World.print e) s))) = file (the_world s).
Proof. now split. Qed.

(** A row is computed without a change of the state; when it is computed it
    is a row of the label and of the node. *)
Lemma cve_row_node (l : label) (node nodeName cve : json) (s : state) :
  getitem node "name" = Ok nodeName ->
  snd (cve_row l nodeName cve s) = s
  /\ forall r, fst (cve_row l nodeName cve s) = Ok r -> node_row l node r.
Proof.
  intros Hname. unfold cve_row, bind, pure, ret.
  repeat match goal with
         | |- context [match ?x with Ok _ => _ | Raise _ => _ end] =>
             destruct x; cbn [fst snd]
         | |- context [let (_, _) := ?x in _] => destruct x; cbn [fst snd]
         end;
    (split; [reflexivity|]); intros r Hr; try discriminate.
  injection Hr as <-. split; [reflexivity|]. now exists nodeName.
Qed.

Lemma write_rows (l : label) (node nodeName : json) (cves : list json) (s : state) :
  getitem node "name" = Ok nodeName ->
  node_rows_added (node_row l node) s
    (snd (for_each cves (fun cve => r <- cve_row l nodeName cve ;;
                                    in_world (World.writerow r)) s)).
Proof.
  intros Hname. revert s. induction cves as [|cve rest IH]; intros s.
  - now apply rows_added_refl.
  - simpl. destruct (cve_row_node l node nodeName cve s Hname) as [Hs Hr].
    unfold bind at 1. unfold bind at 1.
    destruct (cve_row l nodeName cve s) as [[r|e] s'] eqn:E; simpl in Hs; subst s';
      [|now apply rows_added_refl].
    simpl. apply rows_added_trans with (s2 := snd (in_world (World.writerow r) s));
      [|apply IH].
    exists [r]. split; [|apply Forall_cons; [now apply Hr | apply Forall_nil]].
    unfold appended. simpl. now destruct (file (the_world s)).
Qed.

Lemma node_vulnerabilities_rows (api : server) (l : label)
      (clusterId nodeId node nodeName : json) (s : state) :
  getitem node "name" = Ok nodeName ->
  node_rows_added (node_row l node) s
    (snd (node_vulnerabilities api l clusterId nodeId nodeName s)).
Proof.
  intros Hname. unfold node_vulnerabilities, getJsonFromRhacsGraphQl.
  unfold bind at 1.
  pose proof (send_file api (GraphQl "getNodeNODE_CVE" clusterId nodeId) s) as Hsend.
  destruct (in_world (World.send api (GraphQl "getNodeNODE_CVE" clusterId nodeId)) s)
    as [[responseJson|e] s1]; simpl in Hsend; [|now apply rows_added_refl].
  apply rows_added_trans with (s2 := s1); [now apply rows_added_refl|].
  destruct (Json.is_none responseJson); [now apply rows_added_refl|].
  unfold bind, pure.
  destruct (getitem responseJson "data") as [data|]; [|now apply rows_added_refl].
  destruct (getitem data "result") as [result_value|]; [|now apply rows_added_refl].
  destruct (getitem result_value "nodeVulnerabilities") as [cves_value|];
    [|now apply rows_added_refl].
  destruct (Json.iter cves_value) as [cves|]; [|now apply rows_added_refl].
  now apply write_rows.
Qed.

(** The try block of a node returns, and only adds rows of the node. *)
Lemma try_node_rows (api : server) (l : label) (clusterId nodeId node nodeName : json)
      (s : state) :
  getitem node "name" = Ok nodeName ->
  fst (try_except (node_vulnerabilities api l clusterId nodeId nodeName)
         (fun ex => in_world (World.print (PrintNotCompletingNode (l_name l) nodeName ex)))
         s) = Ok tt
  /\ node_rows_added (node_row l node) s
       (snd (try_except (node_vulnerabilities api l clusterId nodeId nodeName)
               (fun ex => in_world (World.print
                                      (PrintNotCompletingNode (l_name l) nodeName ex)))
               s)).
Proof.
  intros Hname.
  pose proof (node_vulnerabilities_rows api l clusterId nodeId node nodeName s Hname)
    as Hrows.
  unfold try_except.
  destruct (node_vulnerabilities api l clusterId nodeId nodeName s) as [[[]|e] s1];
    simpl in Hrows; (split; [reflexivity|]); [exact Hrows|].
  apply rows_added_trans with (s2 := s1); [exact Hrows | now apply rows_added_refl].
Qed.

(** What comes before the try block of a node that has its fields. *)
Lemma inspect_node_eq (api : server) (l : label) (clusterId : json) (nodeCount : nat)
      (node nodeId nodeName : json) (s : state) :
  getitem node "id" = Ok nodeId ->
  getitem node "name" = Ok nodeName ->
  inspect_node api l clusterId nodeCount node s
  = try_except (node_vulnerabilities api l clusterId nodeId nodeName)
      (fun ex => in_world (World.print (PrintNotCompletingNode (l_name l) nodeName ex)))
      (snd (in_world (World.print (PrintInspectingNode (S (currentNodeIndex s)) nodeCount
                                     (l_name l) nodeName))
              (set_index (S (currentNodeIndex s)) s))).
Proof.
  intros Hid Hname. unfold inspect_node.
  now rewrite (bind_pure _ _ _ _ Hid), (bind_pure _ _ _ _ Hname), bind_modify, bind_get.
Qed.

(** X9.  A node that has an identifier and a name never ends the loop over
    the nodes: whatever the server answers to the request for its
    vulnerabilities, and whatever these look like, the inspection of the
    node returns.  The rows written before a failure stay in the file:
    the file is the one before with rows added at its end, and each added
    row has the fourteen cells of the header and starts with the label of
    the cluster and the name of the node. *)
Theorem node_failure_stays_in_the_node (api : server) (l : label) (clusterId : json)
        (nodeCount : nat) (node : json) (s : state) :
  node_fields node ->
  fst (inspect_node api l clusterId nodeCount node s) = Ok tt
  /\ node_rows_added (node_row l node) s
       (snd (inspect_node api l clusterId nodeCount node s)).
Proof.
  intros (nodeId & nodeName & Hid & Hname).
  rewrite (inspect_node_eq api l clusterId nodeCount node nodeId nodeName s Hid Hname).
  set (s1 := snd (in_world (World.print _) _)).
  destruct (try_node_rows api l clusterId nodeId node nodeName s1 Hname) as [H1 H2].
  split; [exact H1|].
  apply rows_added_trans with (s2 := s1); [now apply rows_added_refl | exact H2].
Qed.

(** The second node of the sample: the first of its three vulnerabilities
    is written, the second has no score, the third is never reached. *)
Lemma node_failure_stays_in_the_node_witness :
  (fst (inspect_node Samples.second_node_partial_server
          (parse_cluster_info (JStr "ocps4 - uat")) (JStr "c1") 2
          (Samples.node "n2" "worker-2") state0) = Ok tt
   /\ node_rows_added
        (node_row (parse_cluster_info (JStr "ocps4 - uat")) (Samples.node "n2" "worker-2"))
        state0
        (snd (inspect_node Samples.second_node_partial_server
                (parse_cluster_info (JStr "ocps4 - uat")) (JStr "c1") 2
                (Samples.node "n2" "worker-2") state0)))
  /\ option_map (map (fun r => nth 4 r (Text "")))
       (file (the_world
          (snd (inspect_node Samples.second_node_partial_server
                  (parse_cluster_info (JStr "ocps4 - uat")) (JStr "c1") 2
                  (Samples.node "n2" "worker-2")
                  {| the_world := {| calls := []; console := []; file := Some [] |};
                     currentNodeIndex := 1 |}))))
     = Some [ Value (JStr "CVE-2024-0002") ].
Proof.
  split; [|reflexivity].
  apply (node_failure_stays_in_the_node Samples.second_node_partial_server
           (parse_cluster_info (JStr "ocps4 - uat")) (JStr "c1") 2
           (Samples.node "n2" "worker-2") state0).
  exists (JStr "n2"), (JStr "worker-2"). now split.
Defined.

Lemma rows_added_weaken (P Q : row -> Prop) (s s' : state) :
  (forall r, P r -> Q r) -> node_rows_added P s s' -> node_rows_added Q s s'.
Proof.
  intros H (rows & Ha & Hf). exists rows. split; [exact Ha|].
  apply Forall_forall. intros r Hr. rewrite Forall_forall in Hf. now apply H, Hf.
Qed.

Lemma inspect_cluster_returns (api : server) (cluster : json) (s : state) :
  cluster_fields cluster ->
  nodes_listed api cluster ->
  fst (inspect_cluster api cluster s) = Ok tt
  /\ node_rows_added (fun r => List.length r = List.length CSV_HEADER) s
       (snd (inspect_cluster api cluster s)).
Proof.
  intros (clusterId & clusterName & Hid & Hname) Hnodes. unfold inspect_cluster.
  rewrite (bind_pure _ _ _ _ Hid), (bind_pure _ _ _ _ Hname).
  destruct (print_file (PrintInspectingCluster clusterName) s) as [Hp Hf].
  rewrite (bind_returns _ _ _ tt Hp).
  set (s1 := snd (in_world (World.print _) s)) in *.
  set (l := parse_cluster_info clusterName).
  destruct (Hnodes clusterId (calls (the_world s1)) Hid) as (body & nodes & Hapi & Hn & Hall).
  unfold inspect_nodes.
  rewrite (bind_pure _ (String.append "/nodes/" clusterId) _ _ eq_refl).
  unfold getJsonFromRhacsApi.
  assert (Hsend : in_world (World.send api
                     (Get (String.append "/v1" (String.append "/nodes/" clusterId)))) s1
                  = (Ok body,
                     set_world {| calls := calls (the_world s1)
                                    ++ [Get (String.append "/v1"
                                               (String.append "/nodes/" clusterId))];
                                  console := console (the_world s1);
                                  file := file (the_world s1) |} s1)).
  { unfold in_world. rewrite zoom_eq. unfold World.send. now rewrite Hapi. }
  set (s2 := set_world _ s1) in Hsend.
  assert (Heq : (responseJson <- in_world (World.send api
                     (Get (String.append "/v1" (String.append "/nodes/" clusterId)))) ;;
                 nodes <- pure (getitem responseJson "nodes") ;;
                 nodeCount <- pure (Json.len nodes) ;;
                 modify (set_index 0) ;;
                 node_list <- pure (Json.iter nodes) ;;
                 for_each node_list (inspect_node api l (JStr clusterId) nodeCount))%monad
                  s1
                = for_each nodes (inspect_node api l (JStr clusterId) (List.length nodes))
                    (set_index 0 s2)).
  { unfold bind at 1. rewrite Hsend. rewrite (bind_pure _ _ _ _ Hn). simpl Json.len.
    rewrite (bind_pure _ _ _ _ eq_refl). rewrite bind_modify. simpl Json.iter.
    now rewrite (bind_pure _ _ _ _ eq_refl). }
  rewrite Heq.
  assert (H02 : node_rows_added (fun r => List.length r = List.length CSV_HEADER)
                  s (set_index 0 s2)) by now apply rows_added_refl.
  apply (Deployments.for_each_returns
           (node_rows_added (fun r => List.length r = List.length CSV_HEADER) s));
    [|exact H02].
  intros node t Hnode Ht. rewrite Forall_forall in Hall.
  destruct (Hall node Hnode) as (nodeId & nodeName & Hi & Hnm).
  rewrite (inspect_node_eq api l (JStr clusterId) (List.length nodes) node nodeId
             nodeName t Hi Hnm).
  set (t1 := snd (in_world (World.print _) _)).
  destruct (try_node_rows api l (JStr clusterId) nodeId node nodeName t1 Hnm) as [H1 H2].
  split; [exact H1|]. apply rows_added_trans with (s2 := t); [exact Ht|].
  apply rows_added_trans with (s2 := t1); [now apply rows_added_refl|].
  apply rows_added_weaken with (P := node_row l node); [|exact H2].
  now intros r [Hr _].
Qed.

(** X10.  When the listing of the clusters is a list of clusters that have a
    string identifier and a name, and the server answers every request for
    the nodes of one of them with a list of nodes that have an identifier and
    a name, the run of the node pipeline ends normally whatever is answered
    to the requests for the vulnerabilities: its last message is the one of
    success, and the file holds the header and then rows of fourteen
    cells. *)
Theorem node_run_completes (api : server) (listing : json) (clusters : list json) :
  api [] (Get "/v1/clusters") = Status 200 (Some listing) ->
  getitem listing "clusters" = Ok (JArr clusters) ->
  Forall cluster_fields clusters ->
  Forall (nodes_listed api) clusters ->
  fst (run api) = Ok tt
  /\ (exists events, console (the_world (snd (run api))) = events ++ [PrintSuccess])
  /\ exists rows,
       file (the_world (snd (run api))) = Some (CSV_HEADER :: rows)
       /\ Forall (fun r => List.length r = List.length CSV_HEADER) rows.
Proof.
  intros Hapi Hlist Hfields Hnodes.
  set (s1 := {| the_world := {| calls := [Get "/v1/clusters"]; console := [];
                                file := Some [CSV_HEADER] |};
                currentNodeIndex := 0 |}).
  assert (Hmain : run api
                  = (for_each clusters (inspect_cluster api) ;;
                     in_world (World.print PrintSuccess))%monad s1).
  { unfold run, main, getJsonFromRhacsApi, in_world.
    unfold bind at 1. rewrite zoom_eq. unfold World.send. simpl. rewrite Hapi. simpl.
    assert (Hsome : Json.is_none listing = false) by (now destruct listing).
    rewrite Hsome. unfold bind at 1. rewrite zoom_eq. simpl.
    unfold bind at 1. rewrite zoom_eq. simpl.
    rewrite (bind_pure _ _ _ _ Hlist). simpl Json.iter.
    now rewrite (bind_pure _ _ _ _ eq_refl). }
  rewrite Hmain.
  assert (Hloop : fst (for_each clusters (inspect_cluster api) s1) = Ok tt
                  /\ node_rows_added (fun r => List.length r = List.length CSV_HEADER) s1
                       (snd (for_each clusters (inspect_cluster api) s1))).
  { apply (Deployments.for_each_returns
             (node_rows_added (fun r => List.length r = List.length CSV_HEADER) s1));
      [|now apply rows_added_refl].
    intros cluster t Hc Ht. rewrite Forall_forall in Hfields, Hnodes.
    destruct (inspect_cluster_returns api cluster t (Hfields cluster Hc)
                (Hnodes cluster Hc)) as [H1 H2].
    split; [exact H1 | now apply rows_added_trans with (s2 := t)]. }
  destruct Hloop as [H1 (rows & Ha & Hf)].
  rewrite (bind_returns _ _ _ tt H1).
  split; [reflexivity|]. split.
  - now eexists.
  - exists rows. split; [|exact Hf]. simpl. unfold appended in Ha. rewrite Ha.
    reflexivity.
Qed.

(** The sample with two nodes: the first node fails at its request, the
    second at its second vulnerability, and the run ends normally. *)
Lemma node_run_completes_witness :
  fst (run Samples.second_node_partial_server) = Ok tt
  /\ (exists events,
        console (the_world (snd (run Samples.second_node_partial_server)))
        = events ++ [PrintSuccess])
  /\ exists rows,
       file (the_world (snd (run Samples.second_node_partial_server)))
       = Some (CSV_HEADER :: rows)
       /\ Forall (fun r => List.length r = List.length CSV_HEADER) rows.
Proof.
  apply (node_run_completes Samples.second_node_partial_server
           (JObj [ ("clusters", JArr [ Samples.cluster "c1" "ocps4 - uat" ]) ])
           [ Samples.cluster "c1" "ocps4 - uat" ]); try reflexivity.
  - repeat constructor. exists "c1", (JStr "ocps4 - uat"). now split.
  - repeat constructor. intros clusterId before H. injection H as <-.
    exists (JObj [ ("nodes", JArr [ Samples.node "n1" "worker-1";
                                    Samples.node "n2" "worker-2" ]) ]),
      [ Samples.node "n1" "worker-1"; Samples.node "n2" "worker-2" ].
    split; [reflexivity|]. split; [reflexivity|].
    repeat constructor; [exists (JStr "n1"), (JStr "worker-1")
                        | exists (JStr "n2"), (JStr "worker-2")]; now split.
Defined.

End Nodes.

(** ** When the image report is written to its end *)

Module Reportable.

Import ImagePipeline MonadFacts.

Lemma strings_returns (l : list json) :
  (exists r, Json.strings l = Ok r) <-> all_strings l = true.
Proof.
  induction l as [|j l IH]; simpl.
  - split; [reflexivity | now exists []].
  - destruct j; simpl; try (split; [intros [r H]; discriminate | discriminate]).
    rewrite <- IH. destruct (Json.strings l) as [r|e].
    + split; eauto.
    + split; intros [r H]; discriminate.
Qed.

Lemma join_all_strings (sep : string) (l : list json) :
  all_strings l = match Json.join sep l with Ok _ => true | Raise _ => false end.
Proof.
  pose proof (strings_returns l) as [H1 H2]. unfold Json.join.
  destruct (Json.strings l) as [r|e].
  - apply H1. now exists r.
  - destruct (all_strings l); [|reflexivity]. destruct (H2 eq_refl). discriminate.
Qed.

Lemma format_fixed_number (digits : nat) (x : json) :
  number x = match World.format_fixed digits x with Ok _ => true | Raise _ => false end.
Proof.
  destruct x as [| |q| | |]; try reflexivity. unfold number, World.format_fixed.
  now destruct (World.is_int q), (World.converts (Qnum q)).
Qed.

Ltac step :=
  match goal with
  | |- context [match ?x with _ => _ end] =>
      lazymatch x with
      | context [match _ with _ => _ end] => fail
      | _ => destruct x eqn:?; cbn [fst snd]
      end
  end.

Lemma cve_row_returns (c : ClusterDetail) (cveId : json) (cd : CveDetail) (s : state) :
  (exists r, fst (cve_row c cveId cd s) = Ok r) <-> reportable cd = true.
Proof.
  unfold cve_row, reportable, has_key.
  rewrite (join_all_strings newline_string (namespaces cd)),
          (join_all_strings newline_string (images cd)).
  unfold bind, pure, ret.
  destruct (cve cd) as [| | | | |kv];
    try (split; [intros [r H]; simpl in H; discriminate | intros H; simpl in H; discriminate]).
  cbn [Json.contains].
  destruct (getitem (JObj kv) "cvss") as [cvss|]; cbn [fst snd];
    [|split; [intros [r H]; discriminate | discriminate]].
  rewrite (format_fixed_number 1 cvss).
  destruct (World.format_fixed 1 cvss) as [cvss_cell|]; cbn [fst snd].
  2:{ split; [intros [r H]; discriminate|]. now destruct (getitem (JObj kv) "cvssV3"). }
  destruct (getitem (JObj kv) "cvssV3") as [cvssV3|] eqn:E3; cbn [fst snd];
    [|split; [intros [r H]; discriminate | discriminate]].
  repeat (step; cbn [negb andb]; rewrite ?(format_fixed_number 2));
    (split; [intros [r H]; try discriminate; reflexivity
            | intros H; try discriminate; eauto]).
Qed.

Lemma for_each_returns_iff {S X : Type} (ok : X -> bool) (body : X -> M S unit) :
  (forall x s, fst (body x s) = Ok tt <-> ok x = true) ->
  forall l s, fst (for_each l body s) = Ok tt <-> forallb ok l = true.
Proof.
  intros Hbody l. induction l as [|x l IH]; intros s; simpl.
  - now split.
  - rewrite Bool.andb_true_iff, <- (Hbody x s). unfold bind.
    destruct (body x s) as [[[]|e] s1]; simpl.
    + rewrite IH. tauto.
    + split; [discriminate | intros [H _]; discriminate].
Qed.

Lemma write_cve_returns (c : ClusterDetail) (cveId : json) (s : state) :
  fst (write_cve c cveId s) = Ok tt
  <-> match Dict.get cveId (cveDetails c) with
      | Some r => reportable r
      | None => false
      end = true.
Proof.
  unfold write_cve. destruct (Dict.get cveId (cveDetails c)) as [cd|];
    [|split; discriminate].
  rewrite <- (cve_row_returns c cveId cd s). unfold bind.
  destruct (cve_row c cveId cd s) as [[r|e] s1]; simpl.
  - split; [now exists r | reflexivity].
  - split; [discriminate | intros [r H]; discriminate].
Qed.

Lemma write_key_returns (d : Dict.dict ClusterDetail) (key : json) (s : state) :
  fst (write_key d key s) = Ok tt
  <-> match Dict.get key d with
      | Some c => cluster_reportable c
      | None => false
      end = true.
Proof.
  unfold write_key. destruct (Dict.get key d) as [c|]; [|split; discriminate].
  apply for_each_returns_iff. apply write_cve_returns.
Qed.

Lemma forallb_perm {X : Type} (ok : X -> bool) (l l' : list X) :
  Permutation l l' -> forallb ok l = true <-> forallb ok l' = true.
Proof.
  intros H. rewrite !forallb_forall. split; intros Hall x Hx; apply Hall.
  - now apply (Permutation_in x (Permutation_sym H)).
  - now apply (Permutation_in x H).
Qed.

Lemma write_report_returns (s : state) :
  fst (write_report s) = Ok tt <-> aggregate_reportable (cvesByCluster s) = true.
Proof.
  unfold aggregate_reportable.
  rewrite (forallb_perm _ _ _ (KeyOrder.sorted_perm (cluster_key (cvesByCluster s))
                                 (Dict.keys (cvesByCluster s)))).
  apply (for_each_returns_iff _ (write_key (cvesByCluster s)) (write_key_returns _)).
Qed.

(** X11.  The run of the image pipeline ends normally exactly when the
    collection ends normally and every CVE it recorded can be written: the
    vulnerability kept for it has a [cvss] that the format accepts (a bool,
    a float, or an int below 2^1024 - 2^970 in absolute value, which
    converts to a float), a [cvssV3] that is null or holds an [impactScore]
    that the format accepts, and the fields [publishedOn],
    [firstSystemOccurrence], [link] and [summary], and the namespaces and
    image names tracked for it are strings.  One record that fails this
    ends the run while the report is written. *)
Theorem run_ends_normally_iff_reportable (api : server) (s : state) :
  fst (main api s) = Ok tt
  <-> fst (collect api s) = Ok tt
      /\ aggregate_reportable (cvesByCluster (snd (collect api s))) = true.
Proof.
  unfold main. unfold bind at 1.
  destruct (collect api s) as [[[]|e] s1]; simpl.
  - rewrite <- (write_report_returns s1). unfold bind.
    destruct (write_report s1) as [[[]|e] s2]; simpl.
    + tauto.
    + split; [discriminate | intros [_ H]; discriminate].
  - split; [discriminate | intros [H _]; discriminate].
Qed.

(** A score that is an int of four hundred and one digits: the collection
    ends normally, the record is not reportable, and the run ends with
    [OverflowError] when its row is computed, the file holding the header
    only.  The same score as a float is formatted. *)
Lemma overflowing_score_ends_the_report :
  fst (collect Samples.huge_score_server state0) = Ok tt
  /\ aggregate_reportable (cvesByCluster (snd (collect Samples.huge_score_server state0)))
     = false
  /\ fst (run Samples.huge_score_server) = Raise OverflowError
  /\ file (the_world (snd (run Samples.huge_score_server))) = Some [CSV_HEADER]
  /\ World.format_fixed 1 (JNum (Qmake (2 * 10 ^ 400) 2))
     = Ok (Fixed 1 (JNum (Qmake (2 * 10 ^ 400) 2))).
Proof. vm_compute. repeat split. Qed.

End Reportable.

(** ** What the aggregation keeps *)

Module Growth.

Import ImagePipeline MonadFacts DictFacts.

Section Extends.

Context {A : Type} (R : A -> A -> Prop).
Hypothesis R_refl : forall a, R a a.
Hypothesis R_trans : forall a b c, R a b -> R b c -> R a c.

Lemma Forall2_same (l : list A) : Forall2 R l l.
Proof. induction l; constructor; auto. Qed.

Lemma Forall2_chain (l1 l2 l3 : list A) :
  Forall2 R l1 l2 -> Forall2 R l2 l3 -> Forall2 R l1 l3.
Proof.
  intros H. revert l3. induction H as [|a b l1 l2 Hab H IH]; intros l3 H3.
  - inversion H3. constructor.
  - inversion H3 as [|? c ? l3' Hbc H3']; subst. constructor; eauto.
Qed.

Lemma extends_refl (l : list A) : extends R l l.
Proof. exists l, []. split; [now rewrite app_nil_r | apply Forall2_same]. Qed.

Lemma extends_trans (l1 l2 l3 : list A) :
  extends R l1 l2 -> extends R l2 l3 -> extends R l1 l3.
Proof.
  intros (h2 & m2 & -> & H12) (h3 & m3 & -> & H23).
  apply Forall2_app_inv_l in H23 as (h3a & h3b & Ha & Hb & ->).
  exists h3a, (h3b ++ m3). split; [now rewrite app_assoc|].
  now apply Forall2_chain with (l2 := h2).
Qed.

Lemma extends_snoc (l : list A) (a : A) : extends R l (l ++ [a]).
Proof. exists l, [a]. split; [reflexivity | apply Forall2_same]. Qed.

End Extends.

Section Sets.

Context {V : Type} (R : V -> V -> Prop).
Hypothesis R_refl : forall v, R v v.

Lemma entry_le_refl (a : json * V) : entry_le R a a.
Proof. now split. Qed.

(** An assignment to a key keeps the other entries, puts a new key at the
    end, and replaces the value of a present key where it stands. *)
Lemma set_extends (k : json) (v : V) (d : Dict.dict V) :
  (forall c, Dict.get k d = Some c -> R c v) ->
  extends (entry_le R) d (Dict.set k v d).
Proof.
  intros Hv. induction d as [|[k' v'] d IH]; simpl.
  - exists [], [(k, v)]. split; [reflexivity | constructor].
  - simpl in Hv. destruct (Json.eqb k' k).
    + exists ((k', v) :: d), []. split; [now rewrite app_nil_r|].
      constructor; [split; [reflexivity | now apply Hv]|].
      apply Forall2_same. apply entry_le_refl.
    + destruct (IH Hv) as (h & m & E & H). exists ((k', v') :: h), m.
      split; [simpl; now rewrite E|]. constructor; [apply entry_le_refl | exact H].
Qed.

Lemma set_absent (k : json) (v : V) (d : Dict.dict V) :
  Dict.get k d = None -> Dict.set k v d = d ++ [(k, v)].
Proof.
  induction d as [|[k' v'] d IH]; simpl; [reflexivity|].
  destruct (Json.eqb k' k); [discriminate|]. intros H. now rewrite IH.
Qed.

Lemma get_snoc (k : json) (v : V) (d : Dict.dict V) :
  Json.hashable k = true -> Dict.get k d = None -> Dict.get k (d ++ [(k, v)]) = Some v.
Proof.
  intros Hk. induction d as [|[k' v'] d IH]; simpl.
  - now rewrite hashable_eqb_refl.
  - destruct (Json.eqb k' k); [discriminate | exact IH].
Qed.

Lemma set_snoc (k : json) (v w : V) (d : Dict.dict V) :
  Json.hashable k = true -> Dict.get k d = None ->
  Dict.set k w (d ++ [(k, v)]) = d ++ [(k, w)].
Proof.
  intros Hk. induction d as [|[k' v'] d IH]; simpl.
  - now rewrite hashable_eqb_refl.
  - destruct (Json.eqb k' k); [discriminate|]. intros H. now rewrite IH.
Qed.

End Sets.

Lemma prefix_refl {A : Type} (l : list A) : prefix_of l l.
Proof. exists []. now rewrite app_nil_r. Qed.

Lemma prefix_trans {A : Type} (l1 l2 l3 : list A) :
  prefix_of l1 l2 -> prefix_of l2 l3 -> prefix_of l1 l3.
Proof. intros [m ->] [m' ->]. exists (m ++ m'). now rewrite app_assoc. Qed.

Lemma prefix_append_if_absent (x : json) (l : list json) :
  prefix_of l (append_if_absent x l).
Proof.
  unfold append_if_absent. destruct (Json.mem x l); [apply prefix_refl | now exists [x]].
Qed.

Lemma cve_le_refl (r : CveDetail) : cve_le r r.
Proof. split; apply prefix_refl. Qed.

Lemma cve_le_trans (a b c : CveDetail) : cve_le a b -> cve_le b c -> cve_le a c.
Proof. intros [H1 H2] [H3 H4]. split; eapply prefix_trans; eassumption. Qed.

Lemma entry_le_trans {V : Type} (R : V -> V -> Prop) :
  (forall a b c, R a b -> R b c -> R a c) ->
  forall a b c, entry_le R a b -> entry_le R b c -> entry_le R a c.
Proof. intros HR a b c [H1 H2] [H3 H4]. split; [congruence | eauto]. Qed.

Lemma cluster_le_refl (c : ClusterDetail) : cluster_le c c.
Proof.
  split; [reflexivity|]. split; [reflexivity|].
  apply extends_refl. apply entry_le_refl. apply cve_le_refl.
Qed.

Lemma cluster_le_trans (a b c : ClusterDetail) :
  cluster_le a b -> cluster_le b c -> cluster_le a c.
Proof.
  intros (H1 & H2 & H3) (H4 & H5 & H6).
  split; [congruence|]. split; [congruence|].
  eapply extends_trans; [|exact H3|exact H6].
  apply entry_le_trans. apply cve_le_trans.
Qed.

Lemma aggregate_le_refl (d : Dict.dict ClusterDetail) : aggregate_le d d.
Proof. apply extends_refl. apply entry_le_refl. apply cluster_le_refl. Qed.

Lemma aggregate_le_trans (d1 d2 d3 : Dict.dict ClusterDetail) :
  aggregate_le d1 d2 -> aggregate_le d2 d3 -> aggregate_le d1 d3.
Proof.
  apply extends_trans. apply entry_le_trans. apply cluster_le_trans.
Qed.

(** A merge keeps the records of the cluster and what they track. *)
Lemma merge_cve_extends (namespace imageFullName cveId cve_record : json)
      (details : Dict.dict CveDetail) :
  extends (entry_le cve_le) details
    (merge_cve namespace imageFullName cveId cve_record details).
Proof.
  unfold merge_cve.
  set (details1 := if Dict.mem cveId details then details
                   else Dict.set cveId new_CveDetail details).
  assert (H1 : extends (entry_le cve_le) details details1).
  { subst details1. unfold Dict.mem.
    destruct (Dict.get cveId details) eqn:E.
    - apply extends_refl. apply entry_le_refl. apply cve_le_refl.
    - apply set_extends; [apply cve_le_refl|]. intros c Hc. congruence. }
  destruct (Dict.get cveId details1) as [r|] eqn:E; [|exact H1].
  eapply extends_trans; [apply entry_le_trans; apply cve_le_trans | exact H1 |].
  apply set_extends; [apply cve_le_refl|].
  intros c Hc. rewrite E in Hc. injection Hc as <-.
  split; apply prefix_append_if_absent.
Qed.

Lemma update_cluster_extends (key : json) (f : ClusterDetail -> ClusterDetail)
      (d : Dict.dict ClusterDetail) :
  (forall c, cluster_le c (f c)) -> aggregate_le d (update_cluster key f d).
Proof.
  intros Hf. unfold update_cluster. destruct (Dict.get key d) as [c|] eqn:E;
    [|apply aggregate_le_refl].
  apply set_extends; [apply cluster_le_refl|]. intros c' Hc. rewrite E in Hc.
  injection Hc as <-. apply Hf.
Qed.

Section From.

Variable d0 : Dict.dict ClusterDetail.

Lemma merge_vulnerability_since (key namespace imageFullName cve_record : json) :
  preserves (since d0) (merge_vulnerability key namespace imageFullName cve_record).
Proof.
  unfold merge_vulnerability. Aggregation.aggregate.
  apply preserves_modify. intros s H. unfold since in *. simpl.
  eapply aggregate_le_trans; [exact H|]. apply update_cluster_extends.
  intros c. split; [reflexivity|]. split; [reflexivity|]. apply merge_cve_extends.
Qed.

Lemma register_cluster_since (key : json) (l : label) :
  preserves (since d0) (register_cluster key l).
Proof.
  intros s H. unfold register_cluster.
  destruct (Json.hashable key) eqn:Hk; [|exact H]. cbv iota.
  rewrite (bind_returns (ret tt) _ _ tt eq_refl). simpl snd. rewrite bind_get.
  unfold Dict.mem. destruct (Dict.get key (cvesByCluster s)) eqn:E; [exact H|].
  rewrite bind_modify. simpl cvesByCluster.
  rewrite (set_absent key _ _ E).
  destruct (l_name l) as [name|]; unfold since in *; simpl.
  - unfold update_cluster. rewrite (get_snoc _ _ _ Hk E), (set_snoc _ _ _ _ Hk E).
    eapply aggregate_le_trans; [exact H|].
    apply extends_snoc. apply entry_le_refl. apply cluster_le_refl.
  - eapply aggregate_le_trans; [exact H|].
    apply extends_snoc. apply entry_le_refl. apply cluster_le_refl.
Qed.

Lemma inspect_deployment_since (api : server) (count : nat) (deployment : json) :
  preserves (since d0) (inspect_deployment api count deployment).
Proof.
  unfold inspect_deployment, deployment_detail, inspect_container, inspect_image,
    image_detail, image_error, extract_cves, getJsonFromRhacsApi, in_world, in_vars.
  repeat first [ apply register_cluster_since | apply merge_vulnerability_since
               | preserve_step | untouched ].
Qed.

Lemma main_since (api : server) : preserves (since d0) (main api).
Proof.
  unfold main, collect, inspect_all, write_report, write_key, write_cluster, write_cve,
    cve_row, getJsonFromRhacsApi, in_world.
  repeat first [ apply inspect_deployment_since | preserve_step | untouched ].
Qed.

End From.

(** X12.  The aggregation only adds.  Whatever the server answers, after
    the inspection of a deployment, and after a whole run, every cluster
    registered before is still registered, in its place, with the
    identifier and the label it had: a later deployment that names the
    cluster otherwise does not relabel it.  Every CVE recorded for it is
    still recorded, in its place, and the namespaces and the images tracked
    for the CVE are still tracked, in their places; what is new comes after
    what was there. *)
Theorem aggregation_only_adds (api : server) (count : nat) (deployment : json)
        (s : state) :
  aggregate_le (cvesByCluster s)
    (cvesByCluster (snd (inspect_deployment api count deployment s)))
  /\ aggregate_le (cvesByCluster s) (cvesByCluster (snd (main api s))).
Proof.
  split.
  - apply (inspect_deployment_since (cvesByCluster s) api count deployment s).
    apply aggregate_le_refl.
  - apply (main_since (cvesByCluster s) api s). apply aggregate_le_refl.
Qed.

End Growth.

(** ** What the report is written from *)

Module Metadata.

Import ImagePipeline MonadFacts.

Section InStep.

Context {S : Type} (R : S -> S -> Prop).

Lemma in_step_pure {A : Type} (r : result A) : in_step R (pure r).
Proof. now intros s1 s2 H. Qed.

Lemma in_step_bind {A B : Type} (m : M S A) (k : A -> M S B) :
  in_step R m -> (forall a, in_step R (k a)) -> in_step R (bind m k).
Proof.
  intros Hm Hk s1 s2 H. destruct (Hm s1 s2 H) as [H1 H2]. unfold bind.
  destruct (m s1) as [[a1|e1] t1], (m s2) as [[a2|e2] t2]; simpl in *;
    try discriminate.
  - injection H1 as <-. now apply Hk.
  - injection H1 as <-. now split.
Qed.

Lemma in_step_for_each {X : Type} (l : list X) (body : X -> M S unit) :
  (forall x, in_step R (body x)) -> in_step R (for_each l body).
Proof.
  intros Hb. induction l as [|x l IH]; simpl.
  - now intros s1 s2 H.
  - apply in_step_bind; [apply Hb | intros _; exact IH].
Qed.

Lemma in_step_modify (f : S -> S) :
  (forall s1 s2, R s1 s2 -> R (f s1) (f s2)) -> in_step R (modify f).
Proof. intros Hf s1 s2 H. split; [reflexivity | now apply Hf]. Qed.

End InStep.

Ltac step_on :=
  first
    [ apply in_step_pure
    | apply in_step_bind; [|intro]
    | apply in_step_for_each; intro
    | match goal with
      | |- in_step _ (if ?b then _ else _) => destruct b
      | |- in_step _ (match ?x with _ => _ end) => destruct x
      | |- in_step _ (ret _) => now intros ? ? ?
      | |- in_step _ (raise _) => now intros ? ? ?
      end ].

Lemma merge_vulnerability_in_step (key namespace imageFullName cve_record : json) :
  in_step same_data (merge_vulnerability key namespace imageFullName cve_record).
Proof.
  unfold merge_vulnerability. repeat step_on.
  apply in_step_modify. intros s1 s2 [Hd Hr]. split; simpl; [now rewrite Hd | exact Hr].
Qed.

(** The extraction reads the aggregate and [responseJson], and nothing
    else. *)
Lemma extract_cves_in_step (key namespace imageFullName : json) :
  in_step same_data (extract_cves key namespace imageFullName).
Proof.
  intros s1 s2 H. unfold extract_cves. rewrite !bind_get.
  rewrite <- (proj2 H).
  match goal with
  | |- fst (?m s1) = _ /\ _ =>
      assert (Hrest : in_step same_data m)
        by (repeat first [ apply merge_vulnerability_in_step | step_on ])
  end.
  exact (Hrest s1 s2 H).
Qed.

(** The row of a record does not depend on the state. *)
Lemma cve_row_in_step (R : state -> state -> Prop) (c : ClusterDetail) (cveId : json)
      (cd : CveDetail) :
  in_step R (cve_row c cveId cd).
Proof. unfold cve_row. repeat step_on. Qed.

Lemma writerow_in_step (r : row) : in_step same_file (in_world (World.writerow r)).
Proof.
  intros s1 s2 H. unfold in_world. rewrite !zoom_eq. split; [reflexivity|].
  unfold same_file in *. simpl. now rewrite H.
Qed.

Lemma write_key_in_step (d : Dict.dict ClusterDetail) (key : json) :
  in_step same_file (write_key d key).
Proof.
  unfold write_key, write_cluster, write_cve.
  repeat first [ apply cve_row_in_step | apply writerow_in_step | step_on ].
Qed.

(** The report reads the aggregate, and nothing else. *)
Lemma write_report_reads_the_aggregate (s1 s2 : state) :
  cvesByCluster s1 = cvesByCluster s2 ->
  fst (write_report s1) = fst (write_report s2)
  /\ same_file (snd (write_report s1)) (snd (write_report s2)).
Proof.
  intros Hd.
  set (t1 := snd ((in_world World.open_file ;; in_world (World.writerow CSV_HEADER)) s1)).
  set (t2 := snd ((in_world World.open_file ;; in_world (World.writerow CSV_HEADER)) s2)).
  assert (E1 : write_report s1
               = for_each (sortedByClusterEnvironmentAndName (cvesByCluster s1))
                          (write_key (cvesByCluster s1)) t1) by reflexivity.
  assert (E2 : write_report s2
               = for_each (sortedByClusterEnvironmentAndName (cvesByCluster s2))
                          (write_key (cvesByCluster s2)) t2) by reflexivity.
  rewrite E1, E2, <- Hd.
  apply in_step_for_each; [intros key; apply write_key_in_step | reflexivity].
Qed.

(** What the try block of an image leaves when the detail is answered. *)
Lemma image_detail_answered (api : server) (imageFullName imageId : json) (path : string)
      (body : json) (s : state) :
  Json.concat "/images/" imageId = Ok path ->
  api (calls (the_world s)) (Get (String.append "/v1" path)) = Status 200 (Some body) ->
  fst (try_except (image_detail api imageId) (image_error imageFullName)
         (set_vars image_vars0 s)) = Ok tt
  /\ same_data (snd (try_except (image_detail api imageId) (image_error imageFullName)
                       (set_vars image_vars0 s)))
               (set_responseJson body s).
Proof.
  intros Hpath Hapi.
  set (s1 := set_responseJson body
               (set_world {| calls := calls (the_world s) ++ [Get (String.append "/v1" path)];
                             console := console (the_world s);
                             file := file (the_world s) |}
                          (set_vars image_vars0 s))).
  assert (Hfetch : image_detail api imageId (set_vars image_vars0 s)
                   = (if Json.is_none body then ret tt
                      else in_vars (resolve_metadata body)) s1).
  { unfold image_detail, getJsonFromRhacsApi, in_world.
    rewrite (bind_pure _ _ _ _ Hpath). unfold bind at 1. rewrite zoom_eq.
    unfold World.send. simpl calls. rewrite Hapi. reflexivity. }
  assert (Hkeep : forall A (m : M image_vars A),
             same_data (snd (in_vars m s1)) (set_responseJson body s)).
  { intros A m. unfold in_vars. rewrite zoom_eq. now split. }
  unfold try_except. rewrite Hfetch.
  destruct (Json.is_none body).
  - now split.
  - pose proof (Hkeep _ (resolve_metadata body)) as Hm.
    destruct (in_vars (resolve_metadata body) s1) as [[[]|e] s2]; simpl in Hm.
    + split; [reflexivity|]. exact Hm.
    + split; [apply UbiFailures.image_error_returns|].
      unfold image_error, bind, in_vars, in_world. rewrite !zoom_eq. exact Hm.
Qed.

(** X13.  What is read of the metadata of an image (the creation date, the
    operating system, the layers and the labels that give the UBI name,
    version and release) reaches neither the aggregate nor the report.
    When the detail of an image is answered, the inspection of the image
    returns or raises what the CVE extraction from the answer does, and
    leaves the aggregate this extraction leaves, whether the metadata is
    resolved, missing or malformed.  The report, in turn, is written from
    the aggregate alone: from two states with the same aggregate it returns
    or raises the same and leaves the same file. *)
Theorem metadata_does_not_reach_the_report (api : server)
        (key namespace imageFullName imageId : json) (path : string) (body : json)
        (s s' : state) :
  Json.concat "/images/" imageId = Ok path ->
  api (calls (the_world s)) (Get (String.append "/v1" path)) = Status 200 (Some body) ->
  cvesByCluster s' = cvesByCluster s ->
  fst (inspect_image api key namespace imageFullName imageId s)
  = fst (extract_cves key namespace imageFullName (set_responseJson body s))
  /\ cvesByCluster (snd (inspect_image api key namespace imageFullName imageId s))
     = cvesByCluster (snd (extract_cves key namespace imageFullName
                             (set_responseJson body s)))
  /\ fst (write_report s') = fst (write_report s)
  /\ file (the_world (snd (write_report s'))) = file (the_world (snd (write_report s))).
Proof.
  intros Hpath Hapi Hd.
  destruct (image_detail_answered api imageFullName imageId path body s Hpath Hapi)
    as [Htry Hsame].
  assert (Himage : fst (inspect_image api key namespace imageFullName imageId s)
                   = fst (extract_cves key namespace imageFullName (set_responseJson body s))
                   /\ same_data
                        (snd (inspect_image api key namespace imageFullName imageId s))
                        (snd (extract_cves key namespace imageFullName
                                (set_responseJson body s)))).
  { unfold inspect_image. rewrite bind_modify. unfold try_finally.
    destruct (try_except (image_detail api imageId) (image_error imageFullName)
                (set_vars image_vars0 s)) as [r s1]; simpl in Htry, Hsame. subst r.
    destruct (extract_cves_in_step key namespace imageFullName s1 _ Hsame) as [H1 H2].
    destruct (extract_cves key namespace imageFullName s1) as [[[]|e] s2];
      simpl in H1, H2 |- *; now split. }
  destruct Himage as [H1 [H2 _]].
  destruct (write_report_reads_the_aggregate s' s Hd) as [H3 H4].
  repeat split; assumption.
Qed.

(** The UBI image of the sample, and the same aggregate with other
    locals. *)
Lemma metadata_does_not_reach_the_report_witness :
  let s := Samples.at_first_image Samples.ubi_server in
  let s' := set_vars (image_fields (JStr "2024-01-01T00:00:00Z") (JStr "rhel:8")
                        (JStr "ubi8") (JStr "8.4") (JStr "206")) s in
  fst (inspect_image Samples.ubi_server (JStr "c1") (JStr "payments")
         (JStr "quay.io/acme/api:1") (JStr "sha256:1") s)
  = fst (extract_cves (JStr "c1") (JStr "payments") (JStr "quay.io/acme/api:1")
           (set_responseJson Samples.ubi_image s))
  /\ cvesByCluster (snd (inspect_image Samples.ubi_server (JStr "c1") (JStr "payments")
                           (JStr "quay.io/acme/api:1") (JStr "sha256:1") s))
     = cvesByCluster (snd (extract_cves (JStr "c1") (JStr "payments")
                             (JStr "quay.io/acme/api:1")
                             (set_responseJson Samples.ubi_image s)))
  /\ fst (write_report s') = fst (write_report s)
  /\ file (the_world (snd (write_report s'))) = file (the_world (snd (write_report s))).
Proof.
  intros s s'.
  apply (metadata_does_not_reach_the_report Samples.ubi_server (JStr "c1")
           (JStr "payments") (JStr "quay.io/acme/api:1") (JStr "sha256:1")
           "/images/sha256:1" Samples.ubi_image s s'); reflexivity.
Defined.

End Metadata.

(** ** When the file is opened, and the order of equal keys *)

Module Collection.

Import ImagePipeline MonadFacts.

Lemma send_file_is (f : option (list row)) (api : server) (req : request) :
  preserves (fun w => file w = f) (World.send api req).
Proof.
  intros w H. unfold World.send.
  destruct (api (calls w) req) as [|code [j|]]; try exact H; destruct (Nat.eqb code 200);
    exact H.
Qed.

Lemma print_file_is (f : option (list row)) (e : event) :
  preserves (fun w => file w = f) (World.print e).
Proof. now intros w H. Qed.

Ltac in_the_world f lem :=
  apply (preserves_zoom_in (file_is f) (fun w => file w = f));
    [ let H := fresh in intros ? H; exact H
    | let H := fresh in intros ? ? H; exact H
    | apply lem ].

(** The collection does not touch the file. *)
Lemma collect_file_is (f : option (list row)) (api : server) :
  preserves (file_is f) (collect api).
Proof.
  unfold collect, inspect_all, inspect_deployment, register_cluster, deployment_detail,
    inspect_container, inspect_image, image_detail, image_error, extract_cves,
    merge_vulnerability, getJsonFromRhacsApi, in_world, in_vars.
  repeat first
    [ in_the_world f (send_file_is f)
    | in_the_world f (print_file_is f)
    | apply preserves_zoom_out; let H := fresh in intros ? ? H; exact H
    | apply preserves_modify; let H := fresh in intros ? H; exact H
    | preserve_step ].
Qed.

(** X14.  The image pipeline opens its file when the collection is over.
    When an exception leaves the collection (a deployment without one of
    its fields, a first cluster name that does not parse), the run ends
    with that exception where the collection ended: the file is neither
    created nor emptied, and nothing more is printed. *)
Theorem failed_collection_leaves_the_file (api : server) (s : state) (e : exn) :
  fst (collect api s) = Raise e ->
  main api s = collect api s
  /\ file (the_world (snd (main api s))) = file (the_world s).
Proof.
  intros H.
  assert (Hmain : main api s = collect api s).
  { unfold main. unfold bind at 1.
    destruct (collect api s) as [[[]|e'] s1]; simpl in H; [discriminate | reflexivity]. }
  split; [exact Hmain|]. rewrite Hmain.
  exact (collect_file_is (file (the_world s)) api s eq_refl).
Qed.

(** The sample whose first cluster name does not parse. *)
Lemma failed_collection_leaves_the_file_witness :
  main Samples.unparsed_first_server state0 = collect Samples.unparsed_first_server state0
  /\ file (the_world (snd (main Samples.unparsed_first_server state0))) = None.
Proof.
  apply (failed_collection_leaves_the_file Samples.unparsed_first_server state0
           UnboundLocalError).
  reflexivity.
Defined.

End Collection.

Module Stability.

Import ImagePipeline.

Section Sorting.

Context {X : Type} (f : X -> string * string).

(** An entry is put before every entry of its key. *)
Lemma with_key_insert_by (k : string * string) (x : X) (l : list X) :
  with_key f k (insert_by f x l) = with_key f k (x :: l).
Proof.
  induction l as [|y l IH]; [reflexivity|].
  simpl insert_by. destruct (key_lt (f y) (f x)) eqn:E; [|reflexivity].
  unfold with_key in *. simpl in *. rewrite IH.
  destruct (key_compare (f x) k) eqn:Ex; [|reflexivity|reflexivity].
  apply KeyOrder.key_compare_eq in Ex. subst k.
  unfold key_lt in E. now destruct (key_compare (f y) (f x)).
Qed.

Lemma with_key_sorted (k : string * string) (l : list X) :
  with_key f k (sorted f l) = with_key f k l.
Proof.
  induction l as [|x l IH]; [reflexivity|].
  simpl sorted. rewrite with_key_insert_by. unfold with_key in *. simpl. now rewrite IH.
Qed.

End Sorting.

(** X15.  The clusters that have the same environment and the same name
    are written in the order in which they were registered: the sort of
    line 255 is stable, so among the keys of the clusters those of one
    (environment, name) come in the report in the order they have in the
    mapping. *)
Theorem equal_keys_keep_their_order (d : Dict.dict ClusterDetail) (k : string * string) :
  with_key (cluster_key d) k (sortedByClusterEnvironmentAndName d)
  = with_key (cluster_key d) k (Dict.keys d).
Proof. unfold sortedByClusterEnvironmentAndName. apply with_key_sorted. Qed.

End Stability.

(** ** The rows of the two reports *)

Module NodeRows.

Import NodePipeline MonadFacts.

(** The row of a vulnerability is the same in every state, which it leaves
    as it is. *)
Lemma cve_row_anywhere (l : label) (nodeName cve : json) (s : state) :
  cve_row l nodeName cve s = (fst (cve_row l nodeName cve state0), s).
Proof.
  unfold cve_row, bind, pure, ret.
  repeat match goal with
         | |- context [match ?x with Ok _ => _ | Raise _ => _ end] =>
             lazymatch x with
             | context [match _ with _ => _ end] => fail
             | _ => destruct x; cbn [fst snd]
             end
         end; reflexivity.
Qed.

Lemma rows_written_rows (l : label) (nodeName : json) (cves : list json) :
  exists n,
    n <= List.length cves
    /\ Forall2 (row_of nodeName) (firstn n cves) (rows_written l nodeName cves).
Proof.
  induction cves as [|cve rest (n & Hn & IH)]; [exists 0; split; [lia | constructor]|].
  simpl rows_written.
  destruct (fst (cve_row l nodeName cve state0)) as [r|e] eqn:E;
    [|exists 0; split; [simpl; lia | constructor]].
  exists (S n). split; [simpl; lia|]. simpl. constructor; [|exact IH].
  unfold cve_row, bind, pure, ret in E.
  repeat match type of E with
         | context [match ?x with Ok _ => _ | Raise _ => _ end] =>
             lazymatch x with
             | context [match _ with _ => _ end] => fail
             | _ => destruct x eqn:?; cbn [fst snd] in E
             end
         end; try discriminate.
  injection E as <-. split; [reflexivity|]. eexists. split; [eassumption | reflexivity].
Qed.

Lemma write_rows_written (l : label) (nodeName : json) (cves : list json) (s : state) :
  appended (rows_written l nodeName cves) (the_world s)
    (the_world (snd (for_each cves (fun cve => r <- cve_row l nodeName cve ;;
                                               in_world (World.writerow r)) s))).
Proof.
  revert s. induction cves as [|cve rest IH]; intros s.
  - apply Report.appended_refl.
  - simpl. unfold bind at 1. unfold bind at 1. rewrite (cve_row_anywhere l nodeName cve s).
    destruct (fst (cve_row l nodeName cve state0)) as [r|e]; [|apply Report.appended_refl].
    cbn [fst snd].
    apply (Report.appended_trans [r] _ _ (the_world (snd (in_world (World.writerow r) s))));
      [|apply IH].
    unfold appended. simpl. now destruct (file (the_world s)).
Qed.

(** X16.  When the request for the vulnerabilities of a node is answered
    with a list, the rows of the node are those of the vulnerabilities of
    the list, without a gap and in the order of the list (the node report is
    not sorted), up to the first vulnerability whose row cannot be computed:
    the file is the one before with these rows at its end, each with the
    name of the node and the identifier of its CVE, and the rows of the
    vulnerabilities after a failing one are not written. *)
Theorem node_rows_follow_the_answer (api : server) (l : label)
        (clusterId node nodeId nodeName body : json) (nodeCount : nat)
        (cves : list json) (s : state) :
  getitem node "id" = Ok nodeId ->
  getitem node "name" = Ok nodeName ->
  api (calls (the_world s)) (GraphQl "getNodeNODE_CVE" clusterId nodeId)
  = Status 200 (Some body) ->
  node_answer body cves ->
  appended (rows_written l nodeName cves) (the_world s)
    (the_world (snd (inspect_node api l clusterId nodeCount node s)))
  /\ exists n,
       n <= List.length cves
       /\ Forall2 (row_of nodeName) (firstn n cves) (rows_written l nodeName cves).
Proof.
  intros Hid Hname Hapi (data & result_value & cves_value & Hd & Hr & Hc & Hi).
  split; [|apply rows_written_rows].
  rewrite (Nodes.inspect_node_eq api l clusterId nodeCount node nodeId nodeName s Hid Hname).
  set (s1 := snd (in_world (World.print _) _)).
  set (s2 := set_world {| calls := calls (the_world s1)
                                   ++ [GraphQl "getNodeNODE_CVE" clusterId nodeId];
                          console := console (the_world s1);
                          file := file (the_world s1) |} s1).
  assert (Hsend : getJsonFromRhacsGraphQl api "getNodeNODE_CVE" clusterId nodeId s1
                  = (Ok body, s2)).
  { unfold getJsonFromRhacsGraphQl, in_world. rewrite zoom_eq. unfold World.send.
    change (calls (the_world s1)) with (calls (the_world s)). now rewrite Hapi. }
  assert (Hbody : Json.is_none body = false) by (destruct body; try discriminate; reflexivity).
  assert (Hrun : node_vulnerabilities api l clusterId nodeId nodeName s1
                 = for_each cves (fun cve => r <- cve_row l nodeName cve ;;
                                             in_world (World.writerow r)) s2).
  { unfold node_vulnerabilities. unfold bind at 1. rewrite Hsend, Hbody.
    now rewrite (bind_pure _ _ _ _ Hd), (bind_pure _ _ _ _ Hr), (bind_pure _ _ _ _ Hc),
      (bind_pure _ _ _ _ Hi). }
  pose proof (write_rows_written l nodeName cves s2) as Hrows.
  assert (H02 : appended (rows_written l nodeName cves) (the_world s)
                  (the_world (snd (node_vulnerabilities api l clusterId nodeId nodeName s1)))).
  { rewrite Hrun. exact Hrows. }
  unfold try_except.
  destruct (node_vulnerabilities api l clusterId nodeId nodeName s1) as [[[]|e] s3];
    [exact H02|].
  unfold in_world. rewrite zoom_eq. exact H02.
Qed.

(** The second node of the sample: three vulnerabilities are answered, the
    second has no score, one row is written. *)
Lemma node_rows_follow_the_answer_witness :
  let l := parse_cluster_info (JStr "ocps4 - uat") in
  let cves := [ Samples.node_vulnerability "CVE-2024-0002";
                JObj [ ("cve", JStr "CVE-2024-0003") ];
                Samples.node_vulnerability "CVE-2024-0004" ] in
  (appended (rows_written l (JStr "worker-2") cves) (the_world Samples.open_node_state)
     (the_world (snd (inspect_node Samples.second_node_partial_server l (JStr "c1") 2
                        (Samples.node "n2" "worker-2") Samples.open_node_state)))
   /\ exists n,
        n <= List.length cves
        /\ Forall2 (row_of (JStr "worker-2")) (firstn n cves)
             (rows_written l (JStr "worker-2") cves))
  /\ List.length (rows_written l (JStr "worker-2") cves) = 1.
Proof.
  intros l cves. split; [|reflexivity].
  apply (node_rows_follow_the_answer Samples.second_node_partial_server l (JStr "c1")
           (Samples.node "n2" "worker-2") (JStr "n2") (JStr "worker-2")
           (JObj [ ("data", JObj [ ("result", JObj [ ("nodeVulnerabilities", JArr cves) ]) ]) ])
           2 cves Samples.open_node_state); try reflexivity.
  do 3 eexists. repeat split.
Defined.

End NodeRows.

Module Rectangular.

Import ImagePipeline MonadFacts.

Lemma cve_row_length (c : ClusterDetail) (cveId : json) (cd : CveDetail) (s s' : state)
      (r : row) :
  cve_row c cveId cd s = (Ok r, s') -> List.length r = List.length CSV_HEADER.
Proof.
  intros H. unfold cve_row in H. do 12 bind_inv H. now inversion H.
Qed.

Lemma write_cve_rectangular (c : ClusterDetail) (cveId : json) :
  preserves rectangular (write_cve c cveId).
Proof.
  intros s Hs. unfold write_cve. destruct (Dict.get cveId (cveDetails c)) as [cd|];
    [|exact Hs].
  unfold bind. pose proof (Report.cve_row_state c cveId cd s) as Hst.
  destruct (cve_row c cveId cd s) as [[r|e] s1] eqn:E; simpl in Hst; subst s1;
    [|exact Hs].
  destruct Hs as (rows & Hf & Hall). exists (rows ++ [r]).
  unfold in_world. rewrite zoom_eq. simpl. rewrite Hf. split; [reflexivity|].
  apply Forall_app. split; [exact Hall|].
  constructor; [exact (cve_row_length _ _ _ _ _ _ E) | constructor].
Qed.

(** X17.  The image report is rectangular: whatever the aggregate holds,
    and whether the report is written to its end or ends at a record whose
    row cannot be computed, the file holds the header and then rows that
    each have the fourteen cells of the header; a row is written whole or
    not at all. *)
Theorem image_report_is_rectangular (s : state) :
  rectangular (snd (write_report s))
  /\ List.length CSV_HEADER = 14.
Proof.
  split; [|reflexivity].
  set (s0 := snd ((in_world World.open_file ;; in_world (World.writerow CSV_HEADER)) s)).
  assert (E : write_report s
              = for_each (sortedByClusterEnvironmentAndName (cvesByCluster s))
                         (write_key (cvesByCluster s)) s0) by reflexivity.
  rewrite E.
  assert (H0 : rectangular s0) by (exists []; split; [reflexivity | constructor]).
  revert H0. apply preserves_for_each. intros key _. unfold write_key, write_cluster.
  destruct (Dict.get key (cvesByCluster s)) as [c|]; [|apply preserves_raise].
  apply preserves_for_each. intros cveId _. apply write_cve_rectangular.
Qed.

End Rectangular.

(** ** A first cluster name that does not parse *)

Module UnparsedFirst.

Import ImagePipeline MonadFacts.

(** Whatever the server, when the first deployment to inspect is in a
    cluster whose name does not parse, the run of the image pipeline ends
    with [UnboundLocalError]: no deployment is inspected and no file is
    written. *)
Lemma unparsed_first_label_ends_every_run (api : server) (listing : json)
      (deployments rest : list json) (first key raw : json) :
  api [] (Get "/v1/deployments") = Status 200 (Some listing) ->
  getitem listing "deployments" = Ok (JArr deployments) ->
  skip_openshift deployments = Ok (first :: rest) ->
  getitem first "clusterId" = Ok key ->
  Json.hashable key = true ->
  getitem first "cluster" = Ok raw ->
  no_match raw ->
  fst (run api) = Raise UnboundLocalError
  /\ file (the_world (snd (run api))) = None.
Proof.
  intros Hapi Hlist Hskip Hkey Hh Hraw Hno.
  assert (Hc : fst (collect api state0) = Raise UnboundLocalError).
  { unfold collect, getJsonFromRhacsApi, in_world.
    unfold bind at 1. rewrite zoom_eq. unfold World.send. simpl. rewrite Hapi. simpl.
    rewrite bind_modify.
    assert (Hsome : Json.is_none listing = false) by (now destruct listing).
    rewrite Hsome, (bind_pure _ _ _ _ Hlist).
    unfold inspect_all, deploymentsToBeInspected. simpl.
    rewrite (bind_pure _ _ _ _ Hskip).
    apply for_each_raises.
    now apply (Unparsed.unparsed_first_label_raises api _ first key raw). }
  assert (Hmain : run api = collect api state0).
  { unfold run, main. unfold bind at 1.
    destruct (collect api state0) as [[[]|e] s1]; simpl in Hc; [discriminate | reflexivity]. }
  rewrite Hmain. split; [exact Hc|].
  exact (Collection.collect_file_is None api state0 eq_refl).
Qed.

End UnparsedFirst.
